(** * URL shortener: a shallow embedding of the shortening engine

    The development follows the layout of the Go sources:

    - [int64]       64-bit two's complement arithmetic;
    - [errors]      Go error values: sentinels, wrapping, [errors.Is];
    - [rt]          what the process sees of the outside: the table [urls] of
                    the database, the wall clock, the entropy source and the
                    structured log, threaded through a state-and-error monad;
    - [slice]       allocation, indexing and slicing, with their panics;
    - [base64]      [base64.RawURLEncoding.EncodeToString];
    - [domain]      internal/domain (url.go, errors.go);
    - [pg]          the statements the repository sends, as functions on the
                    table (migrations/001_create_urls_table.up.sql);
    - [repository]  internal/repository/url_repository.go;
    - [strings]     [strings.HasSuffix] and [strings.TrimSuffix];
    - [service]     internal/service/url_service.go;
    - [handler]     internal/handler/url_handler.go;
    - [storage]     internal/storage/postgres.go (the health check);
    - [health]      internal/handler/health.go;
    - [main]        cmd/server/main.go (the cleanup worker);
    - [props], [notions]  the vocabulary of the properties proved afterwards.

    Integers of Go type [int] and [int64] are 64-bit two's complement and are
    modelled in [Z] with the wrap-around written out. Strings are sequences
    of bytes. Instants and durations are integers on one time line, in one
    unit (the nanosecond, where a handler converts seconds), and the store
    gives back an instant as it received it. A function
    that returns a value and an error is a computation in the monad [M]; a
    call that mutates its receiver returns the receiver after the call. *)

From Stdlib Require Import ZArith List String Ascii Bool Lia.
From Stdlib Require Import Strings.Byte.
From Stdlib Require Import DecimalString.
From stdpp Require Import base tactics option list.

Local Open Scope string_scope.
Local Open Scope list_scope.
Local Open Scope Z_scope.

(* ===================================================================== *)
(** ** Machine integers *)

Module int64.

Definition min : Z := - 2 ^ 63.
Definition max : Z := 2 ^ 63 - 1.

(** Reduction of an unbounded integer to the 64-bit signed range. *)
Definition wrap (z : Z) : Z := (z + 2 ^ 63) mod 2 ^ 64 - 2 ^ 63.

Definition add (a b : Z) : Z := wrap (a + b).
Definition mul (a b : Z) : Z := wrap (a * b).

(** Go's [/] and [%] on signed integers truncate toward zero. *)
Definition div (a b : Z) : Z := wrap (Z.quot a b).
Definition rem (a b : Z) : Z := Z.rem a b.

Definition in_range (z : Z) : Prop := min <= z <= max.

End int64.

(* ===================================================================== *)
(** ** Go error values *)

Module errors.

(** An error is a package-level sentinel made once by [errors.New] and
    compared by identity, an error value allocated where the failure
    happens (by the driver, or by [fmt.Errorf] without the wrapping verb),
    or a wrapper made by [fmt.Errorf] with the wrapping verb. *)
Inductive error : Type :=
| Sentinel (text : string)
| Dynamic (text : string)
| Wrap (text : string) (inner : error).

(** The method [Error()]. *)
Definition Error (e : error) : string :=
  match e with
  | Sentinel s => s
  | Dynamic s => s
  | Wrap s _ => s
  end.

(** [fmt.Errorf(prefix + ": %w", err)]. *)
Definition Errorf_w (prefix : string) (e : error) : error :=
  Wrap (prefix ++ ": " ++ Error e)%string e.

(** [fmt.Errorf(text)] with no wrapping verb. *)
Definition Errorf (text : string) : error := Dynamic text.

(** The verb [%d]: an integer in decimal. *)
Definition itoa (z : Z) : string := NilZero.string_of_int (Z.to_int z).

(** [err == target] for a sentinel [target]. *)
Definition same (e target : error) : bool :=
  match e, target with
  | Sentinel s, Sentinel t => String.eqb s t
  | _, _ => false
  end.

(** [errors.Is(err, target)]: follows the chain of wrapped errors. *)
Fixpoint Is (e target : error) : bool :=
  same e target ||
  match e with
  | Wrap _ inner => Is inner target
  | _ => false
  end.

End errors.

(* ===================================================================== *)
(** ** The runtime: store, clock, entropy, log *)

Module rt.

(** How a Go call ends: with a value, with a non-nil error, or with a
    run-time panic. *)
Inductive result (A : Type) : Type :=
| Ok (a : A)
| Err (e : errors.error)
| Panic (reason : string).
Arguments Ok {A} a.
Arguments Err {A} e.
Arguments Panic {A} reason.

(** A row of the table [urls], which is also the struct [domain.URL]. *)
Record URL : Type := mkURL {
  ID : Z;
  ShortCode : string;
  OriginalURL : string;
  CreatedAt : Z;
  ExpiresAt : option Z;
  AccessCount : Z;
  LastAccessed : option Z
}.

Inductive Level : Type := LevelDebug | LevelInfo | LevelWarn | LevelError.

Inductive Attr : Type :=
| AString (key value : string)
| AInt (key : string) (value : Z)
| ATime (key : string) (value : option Z).

Record LogEntry : Type := mkLog {
  level : Level;
  msg : string;
  attrs : list Attr
}.

(** Everything outside the functions under study.
    - [urls] and [urls_id_seq]: the table and its BIGSERIAL sequence;
    - [clock] and [ticks]: the instant returned by the n-th call of
      [time.Now], and how many calls were made;
    - [pg_fault] and [roundtrips]: whether the n-th statement sent to the
      store fails before it runs (lost connection, cancelled context) and
      with which driver message, and how many statements were sent;
    - [entropy]: the bytes the secure random source still has to give;
    - [logs]: the entries written to the logger, oldest first. *)
Record World : Type := mkWorld {
  urls : list URL;
  urls_id_seq : Z;
  clock : nat -> Z;
  ticks : nat;
  pg_fault : nat -> option string;
  roundtrips : nat;
  entropy : list byte;
  logs : list LogEntry
}.

Definition M (A : Type) : Type := World -> result A * World.

Definition ret {A} (a : A) : M A := fun w => (Ok a, w).
Definition throw {A} (e : errors.error) : M A := fun w => (Err e, w).
Definition panic {A} (reason : string) : M A := fun w => (Panic reason, w).

Definition bind {A B} (m : M A) (k : A -> M B) : M B :=
  fun w =>
    match m w with
    | (Ok a, w') => k a w'
    | (Err e, w') => (Err e, w')
    | (Panic r, w') => (Panic r, w')
    end.

(** [v, err := f(); if err != nil { return fmt.Errorf(prefix + ": %w", err) }] *)
Definition wrapf {A} (prefix : string) (m : M A) : M A :=
  fun w =>
    match m w with
    | (Err e, w') => (Err (errors.Errorf_w prefix e), w')
    | other => other
    end.

(** [v, err := f()] with both outcomes handed to the continuation. *)
Definition observe {A} (m : M A) : M (A + errors.error) :=
  fun w =>
    match m w with
    | (Ok a, w') => (Ok (inl a), w')
    | (Err e, w') => (Ok (inr e), w')
    | (Panic r, w') => (Panic r, w')
    end.

(** A pure computation that may fail, run inside [M]. *)
Definition lift {A} (r : result A) : M A := fun w => (r, w).

Definition set_urls (w : World) (rows : list URL) : World :=
  mkWorld rows (urls_id_seq w) (clock w) (ticks w) (pg_fault w)
          (roundtrips w) (entropy w) (logs w).

Definition set_seq (w : World) (n : Z) : World :=
  mkWorld (urls w) n (clock w) (ticks w) (pg_fault w)
          (roundtrips w) (entropy w) (logs w).

Definition set_entropy (w : World) (bytes : list byte) : World :=
  mkWorld (urls w) (urls_id_seq w) (clock w) (ticks w) (pg_fault w)
          (roundtrips w) bytes (logs w).

(** The world after one more reading of the clock. *)
Definition ticked (w : World) : World :=
  mkWorld (urls w) (urls_id_seq w) (clock w) (S (ticks w)) (pg_fault w)
          (roundtrips w) (entropy w) (logs w).

(** The world after one more statement was sent to the store. *)
Definition sent (w : World) : World :=
  mkWorld (urls w) (urls_id_seq w) (clock w) (ticks w) (pg_fault w)
          (S (roundtrips w)) (entropy w) (logs w).

(** The world after one more entry was written to the log. *)
Definition logged (w : World) (e : LogEntry) : World :=
  mkWorld (urls w) (urls_id_seq w) (clock w) (ticks w) (pg_fault w)
          (roundtrips w) (entropy w) (logs w ++ [e]).

(** [time.Now()]. *)
Definition time_Now : M Z :=
  fun w => (Ok (clock w (ticks w)), ticked w).

(** [rand.Read(buf)] from crypto/rand: fills the whole buffer, or fails
    when the source cannot give that many bytes. *)
Definition rand_Read (buf : list byte) : M (list byte) :=
  fun w =>
    let n := length buf in
    if (length (entropy w) <? n)%nat
    then (Err (errors.Dynamic "crypto/rand: entropy source unavailable"), w)
    else (Ok (take n (entropy w)), set_entropy w (drop n (entropy w))).

(** One entry written to the [slog.Logger]. *)
Definition slog (lv : Level) (text : string) (args : list Attr) : M unit :=
  fun w => (Ok tt, logged w (mkLog lv text args)).

(** One statement sent to the store: counts the round trip and reports the
    fault the environment scheduled for it, if any. *)
Definition roundtrip : M unit :=
  fun w =>
    match pg_fault w (roundtrips w) with
    | Some text => (Err (errors.Dynamic text), sent w)
    | None => (Ok tt, sent w)
    end.

End rt.

Export rt.

Declare Scope go_scope.
Delimit Scope go_scope with go.
Notation "x <- m ;; k" := (rt.bind m (fun x => k))
  (at level 100, m at next level, right associativity) : go_scope.
Notation "m ;;; k" := (rt.bind m (fun _ => k))
  (at level 100, right associativity) : go_scope.

(** Pure computations that may panic. *)
Definition rbind {A B} (r : result A) (k : A -> result B) : result B :=
  match r with
  | Ok a => k a
  | Err e => Err e
  | Panic reason => Panic reason
  end.

Notation "x <~ r ;; k" := (rbind r (fun x => k))
  (at level 100, r at next level, right associativity) : go_scope.

Local Open Scope go_scope.

(* ===================================================================== *)
(** ** Slices *)

Module slice.

(** The largest allocation that the runtime accepts, on 64-bit Linux. *)
Definition maxAlloc : Z := 2 ^ 48.

(** [make([]T, n)] for a one-byte element type, with every element at the
    zero value [z]. *)
Definition make {A} (z : A) (n : Z) : result (list A) :=
  if (n <? 0) || (n >? maxAlloc) then Panic "makeslice: len out of range"
  else Ok (replicate (Z.to_nat n) z).

(** [s[i]] as an expression. *)
Definition index {A} (s : list A) (i : nat) : result A :=
  match s !! i with
  | Some x => Ok x
  | None => Panic "index out of range"
  end.

(** [s[i] = x]. *)
Definition assign {A} (s : list A) (i : nat) (x : A) : result (list A) :=
  if (i <? List.length s)%nat then Ok (<[i := x]> s)
  else Panic "index out of range".

(** [s[:n]]. *)
Definition upto {A} (s : list A) (n : Z) : result (list A) :=
  if (n <? 0) || (Z.of_nat (List.length s) <? n)
  then Panic "slice bounds out of range"
  else Ok (take (Z.to_nat n) s).

End slice.

(* ===================================================================== *)
(** ** encoding/base64, the unpadded URL-safe encoding *)

Module base64.

Definition encodeURL : string :=
  "ABCDEFGHIJKLMNOPQRSTUVWXYZabcdefghijklmnopqrstuvwxyz0123456789-_".

(** The value of a byte as an unsigned integer. *)
Definition val (b : byte) : Z := Z.of_N (Byte.to_N b).

(** [enc.encode[v]], for the 6-bit value [v]. *)
Definition sym (v : Z) : ascii :=
  match String.get (Z.to_nat v) encodeURL with
  | Some c => c
  | None => Ascii.zero
  end.

(** Three source bytes give four symbols; a remainder of one byte gives two
    symbols and a remainder of two bytes gives three (no padding). *)
Fixpoint encode (src : list byte) : list ascii :=
  match src with
  | [] => []
  | [b0] =>
      let v := Z.shiftl (val b0) 16 in
      [sym (Z.land (Z.shiftr v 18) 63); sym (Z.land (Z.shiftr v 12) 63)]
  | [b0; b1] =>
      let v := Z.lor (Z.shiftl (val b0) 16) (Z.shiftl (val b1) 8) in
      [sym (Z.land (Z.shiftr v 18) 63); sym (Z.land (Z.shiftr v 12) 63);
       sym (Z.land (Z.shiftr v 6) 63)]
  | b0 :: b1 :: b2 :: rest =>
      let v := Z.lor (Z.lor (Z.shiftl (val b0) 16) (Z.shiftl (val b1) 8))
                     (val b2) in
      sym (Z.land (Z.shiftr v 18) 63) :: sym (Z.land (Z.shiftr v 12) 63) ::
      sym (Z.land (Z.shiftr v 6) 63) :: sym (Z.land v 63) :: encode rest
  end.

Definition EncodeToString (src : list byte) : string :=
  string_of_list_ascii (encode src).

End base64.

(* ===================================================================== *)
(** ** internal/domain *)

Module domain.

Definition ErrURLNotFound : errors.error := errors.Sentinel "url not found".
Definition ErrURLExpired : errors.error := errors.Sentinel "url has expired".
Definition ErrInvalidURL : errors.error := errors.Sentinel "invalid url".
Definition ErrShortCodeAlreadyExists : errors.error :=
  errors.Sentinel "short code already exists".
Definition ErrInvalidShortCode : errors.error :=
  errors.Sentinel "invalid short code".

(** [func (u *URL) IsExpired() bool] *)
Definition IsExpired (u : URL) : M bool :=
  match ExpiresAt u with
  | None => ret false
  | Some expiresAt =>
      now <- time_Now ;;
      ret (now >? expiresAt)
  end.

(** [func (u *URL) IncrementAccessCount()]: the receiver after the call. *)
Definition IncrementAccessCount (u : URL) : M URL :=
  let count := int64.add (AccessCount u) 1 in
  now <- time_Now ;;
  ret (mkURL (ID u) (ShortCode u) (OriginalURL u) (CreatedAt u) (ExpiresAt u)
             count (Some now)).

End domain.

(* ===================================================================== *)
(** ** The statements sent to the store

    The table is created by migrations/001_create_urls_table.up.sql:
    [id BIGSERIAL PRIMARY KEY], [short_code VARCHAR(20) NOT NULL UNIQUE],
    [CHECK (LENGTH(short_code) >= 3)]. Each statement is atomic. *)

Module pg.

Definition quote : string := String (ascii_of_nat 34) EmptyString.

(** The text of the driver error for SQLSTATE 23505 on the unique index of
    [short_code]. *)
Definition unique_violation : string :=
  ("ERROR: duplicate key value violates unique constraint " ++ quote ++
   "urls_short_code_key" ++ quote ++ " (SQLSTATE 23505)")%string.

Definition check_violation : string :=
  ("ERROR: new row for relation " ++ quote ++ "urls" ++ quote ++
   " violates check constraint " ++ quote ++ "short_code_length_check" ++
   quote ++ " (SQLSTATE 23514)")%string.

Definition too_long : string :=
  "ERROR: value too long for type character varying(20) (SQLSTATE 22001)".

Definition ErrNoRows : errors.error := errors.Sentinel "no rows in result set".

Definition has_code (code : string) (r : URL) : bool :=
  String.eqb (ShortCode r) code.

Definition has_id (id : Z) (r : URL) : bool := ID r =? id.

(** [expires_at IS NOT NULL AND expires_at < now] *)
Definition expired_before (now : Z) (r : URL) : bool :=
  match ExpiresAt r with
  | Some e => e <? now
  | None => false
  end.

(** [INSERT INTO urls (...) VALUES (...) RETURNING id]. The sequence moves on
    even when the row is refused. *)
Definition insert (code original : string) (created : Z) (expires : option Z)
    (count : Z) : M Z :=
  fun w =>
    let id := urls_id_seq w + 1 in
    let w := set_seq w id in
    if Z.of_nat (String.length code) >? 20
    then (Err (errors.Dynamic too_long), w)
    else if Z.of_nat (String.length code) <? 3
    then (Err (errors.Dynamic check_violation), w)
    else if existsb (has_code code) (urls w)
    then (Err (errors.Dynamic unique_violation), w)
    else (Ok id,
          set_urls w (urls w ++ [mkURL id code original created expires count None])).

(** [SELECT ... FROM urls WHERE short_code = $1] read by [QueryRow]. *)
Definition select_by_short_code (code : string) : M URL :=
  fun w =>
    match find (has_code code) (urls w) with
    | Some r => (Ok r, w)
    | None => (Err ErrNoRows, w)
    end.

(** [SELECT ... FROM urls WHERE id = $1] read by [QueryRow]. *)
Definition select_by_id (id : Z) : M URL :=
  fun w =>
    match find (has_id id) (urls w) with
    | Some r => (Ok r, w)
    | None => (Err ErrNoRows, w)
    end.

Definition set_access (count : Z) (last : option Z) (r : URL) : URL :=
  mkURL (ID r) (ShortCode r) (OriginalURL r) (CreatedAt r) (ExpiresAt r)
        count last.

(** [UPDATE urls SET access_count = $1, last_accessed = $2 WHERE id = $3];
    the value is the number of rows affected. *)
Definition update_access (count : Z) (last : option Z) (id : Z) : M Z :=
  fun w =>
    (Ok (Z.of_nat (List.length (List.filter (has_id id) (urls w)))),
     set_urls w (map (fun r => if has_id id r then set_access count last r else r)
                     (urls w))).

(** [DELETE FROM urls WHERE short_code = $1] *)
Definition delete_by_short_code (code : string) : M Z :=
  fun w =>
    (Ok (Z.of_nat (List.length (List.filter (has_code code) (urls w)))),
     set_urls w (List.filter (fun r => negb (has_code code r)) (urls w))).

(** [DELETE FROM urls WHERE expires_at IS NOT NULL AND expires_at < $1] *)
Definition delete_expired (now : Z) : M Z :=
  fun w =>
    (Ok (Z.of_nat (List.length (List.filter (expired_before now) (urls w)))),
     set_urls w (List.filter (fun r => negb (expired_before now r)) (urls w))).

(** [ORDER BY created_at DESC]: insertion into a list sorted newest first. *)
Fixpoint insert_desc (r : URL) (sorted : list URL) : list URL :=
  match sorted with
  | [] => [r]
  | x :: rest =>
      if CreatedAt x <? CreatedAt r then r :: x :: rest
      else x :: insert_desc r rest
  end.

Definition order_by_created_at_desc (rows : list URL) : list URL :=
  fold_right insert_desc [] rows.

(** The window [LIMIT limit OFFSET offset] of the ordered rows. *)
Definition window (limit offset : Z) (rows : list URL) : list URL :=
  take (Z.to_nat limit) (drop (Z.to_nat offset) (order_by_created_at_desc rows)).

(** [SELECT ... FROM urls ORDER BY created_at DESC LIMIT $1 OFFSET $2] *)
Definition select_page (limit offset : Z) : M (list URL) :=
  fun w =>
    if limit <? 0
    then (Err (errors.Dynamic "ERROR: LIMIT must not be negative (SQLSTATE 2201W)"), w)
    else if offset <? 0
    then (Err (errors.Dynamic "ERROR: OFFSET must not be negative (SQLSTATE 2201X)"), w)
    else (Ok (window limit offset (urls w)), w).

(** [SELECT COUNT( * ) FROM urls] *)
Definition count : M Z :=
  fun w => (Ok (Z.of_nat (List.length (urls w))), w).

End pg.

(* ===================================================================== *)
(** ** internal/repository *)

Module repository.

(** [func (r *URLRepository) Create(ctx, url *domain.URL) error]: the entity
    with the identifier written into it by [Scan]. *)
Definition Create (url : URL) : M URL :=
  r <- observe (roundtrip ;;;
                pg.insert (ShortCode url) (OriginalURL url) (CreatedAt url)
                          (ExpiresAt url) (AccessCount url)) ;;
  match r with
  | inr err =>
      if String.eqb (errors.Error err) pg.unique_violation
      then throw domain.ErrShortCodeAlreadyExists
      else throw (errors.Errorf_w "failed to create url" err)
  | inl id =>
      let url := mkURL id (ShortCode url) (OriginalURL url) (CreatedAt url)
                       (ExpiresAt url) (AccessCount url) (LastAccessed url) in
      slog LevelDebug "url created"
           [AInt "id" (ID url); AString "short_code" (ShortCode url)] ;;;
      ret url
  end.

(** [func (r *URLRepository) GetByShortCode(ctx, shortCode)] *)
Definition GetByShortCode (shortCode : string) : M URL :=
  r <- observe (roundtrip ;;; pg.select_by_short_code shortCode) ;;
  match r with
  | inr err =>
      if errors.Is err pg.ErrNoRows then throw domain.ErrURLNotFound
      else throw (errors.Errorf_w "failed to get url by short code" err)
  | inl url => ret url
  end.

(** [func (r *URLRepository) GetByID(ctx, id)] *)
Definition GetByID (id : Z) : M URL :=
  r <- observe (roundtrip ;;; pg.select_by_id id) ;;
  match r with
  | inr err =>
      if errors.Is err pg.ErrNoRows then throw domain.ErrURLNotFound
      else throw (errors.Errorf_w "failed to get url by id" err)
  | inl url => ret url
  end.

(** [func (r *URLRepository) Update(ctx, url *domain.URL) error] *)
Definition Update (url : URL) : M unit :=
  affected <- wrapf "failed to update url"
                (roundtrip ;;;
                 pg.update_access (AccessCount url) (LastAccessed url) (ID url)) ;;
  if affected =? 0 then throw domain.ErrURLNotFound
  else
    slog LevelDebug "url updated"
         [AInt "id" (ID url); AInt "access_count" (AccessCount url)] ;;;
    ret tt.

(** [func (r *URLRepository) Delete(ctx, shortCode) error] *)
Definition Delete (shortCode : string) : M unit :=
  affected <- wrapf "failed to delete url"
                (roundtrip ;;; pg.delete_by_short_code shortCode) ;;
  if affected =? 0 then throw domain.ErrURLNotFound
  else
    slog LevelDebug "url deleted" [AString "short_code" shortCode] ;;;
    ret tt.

(** [func (r *URLRepository) DeleteExpired(ctx) (int64, error)] *)
Definition DeleteExpired : M Z :=
  now <- time_Now ;;
  count <- wrapf "failed to delete expired urls"
             (roundtrip ;;; pg.delete_expired now) ;;
  (if count >? 0
   then slog LevelInfo "expired urls deleted" [AInt "count" count]
   else ret tt) ;;;
  ret count.

(** [func (r *URLRepository) List(ctx, limit, offset int)] *)
Definition List (limit offset : Z) : M (list URL) :=
  wrapf "failed to list urls" (roundtrip ;;; pg.select_page limit offset).

(** [func (r *URLRepository) Count(ctx) (int64, error)] *)
Definition Count : M Z :=
  wrapf "failed to count urls" (roundtrip ;;; pg.count).

End repository.

(* ===================================================================== *)
(** ** strings *)

Module strings.

(** [len(s) >= len(suffix) && s[len(s)-len(suffix):] == suffix] *)
Definition HasSuffix (s suffix : string) : bool :=
  (String.length suffix <=? String.length s)%nat &&
  String.eqb (String.substring (String.length s - String.length suffix)
                               (String.length suffix) s)
             suffix.

(** [if HasSuffix(s, suffix) { return s[:len(s)-len(suffix)] }; return s] *)
Definition TrimSuffix (s suffix : string) : string :=
  if HasSuffix s suffix
  then String.substring 0 (String.length s - String.length suffix) s
  else s.

End strings.

(* ===================================================================== *)
(** ** internal/service *)

Module service.

(** What [validateURL] reads of the [*url.URL] that the standard library's
    parser returns. *)
Record ParsedURL : Type := mkParsed {
  Scheme : string;
  Host : string
}.

(** The fields of [config.URLConfig] that the service reads. *)
Record URLConfig : Type := mkConfig {
  BaseURL : string;
  ShortCodeLength : Z;
  DefaultTTL : Z
}.

Definition charset : string :=
  "abcdefghijklmnopqrstuvwxyzABCDEFGHIJKLMNOPQRSTUVWXYZ0123456789".

Definition ord (c : ascii) : Z := Z.of_N (N_of_ascii c).

Definition between (lo hi c : ascii) : bool :=
  (ord lo <=? ord c) && (ord c <=? ord hi).

Definition is_dash_or_underscore (c : ascii) : bool :=
  Ascii.eqb c "-" || Ascii.eqb c "_".

(** [charset[k]] *)
Definition charset_at (k : Z) : result ascii :=
  if k <? 0 then Panic "index out of range"
  else slice.index (list_ascii_of_string charset) (Z.to_nat k).

(** The loop [for i := 0; i < length; i++] of [generateRandomCode], entered
    at index [i] with [fuel] iterations left. *)
Fixpoint remap (fuel : nat) (i : nat) (code : list ascii)
    (randomBytes : list byte) (result : list ascii) : rt.result (list ascii) :=
  match fuel with
  | O => Ok result
  | S fuel' =>
      c <~ slice.index code i ;;
      x <~ (if is_dash_or_underscore c
            then b <~ slice.index randomBytes i ;;
                 charset_at (int64.rem (base64.val b)
                                       (Z.of_nat (String.length charset)))
            else Ok c) ;;
      result <~ slice.assign result i x ;;
      remap fuel' (S i) code randomBytes result
  end.

(** The size of the buffer of random bytes that [generateRandomCode]
    allocates:
    [numBytes := (length * 6) / 8; if (length*6)%8 != 0 { numBytes++ }]. *)
Definition numBytes (length : Z) : Z :=
  let numBytes := int64.div (int64.mul length 6) 8 in
  if negb (int64.rem (int64.mul length 6) 8 =? 0)
  then int64.add numBytes 1 else numBytes.

(** [func generateRandomCode(length int) (string, error)] *)
Definition generateRandomCode (length : Z) : M string :=
  randomBytes <- lift (slice.make Byte.x00 (numBytes length)) ;;
  randomBytes <- wrapf "failed to generate random bytes" (rand_Read randomBytes) ;;
  let encoded := list_ascii_of_string (base64.EncodeToString randomBytes) in
  if Z.of_nat (List.length encoded) <? length
  then throw (errors.Errorf "generated code too short")
  else
    code <- lift (slice.upto encoded length) ;;
    result <- lift (slice.make Ascii.zero length) ;;
    result <- lift (remap (Z.to_nat length) 0 code randomBytes result) ;;
    ret (string_of_list_ascii result).

Definition maxAttempts : Z := 10.

Section Service.

(** [url.ParseRequestURI] of the standard library: [None] for a parse
    error. *)
Variable ParseRequestURI : string -> option ParsedURL.

(** The receiver [s *URLService]; its repository and logger write to the
    world. *)
Variable config : URLConfig.

(** The loop of [generateShortCode], entered with [attempt] and
    [maxAttempts - attempt = fuel]. *)
Fixpoint generateShortCode_from (fuel : nat) (attempt : Z) : M string :=
  match fuel with
  | O =>
      throw (errors.Errorf
               ("failed to generate unique short code after " ++
                errors.itoa maxAttempts ++ " attempts")%string)
  | S fuel' =>
      code <- wrapf "failed to generate random code"
                (generateRandomCode (ShortCodeLength config)) ;;
      r <- observe (repository.GetByShortCode code) ;;
      match r with
      | inr err =>
          if errors.same err domain.ErrURLNotFound then ret code
          else throw (errors.Errorf_w "failed to check code uniqueness" err)
      | inl _ =>
          slog LevelDebug "short code collision, retrying"
               [AString "code" code; AInt "attempt" (int64.add attempt 1)] ;;;
          generateShortCode_from fuel' (int64.add attempt 1)
      end
  end.

(** [func (s *URLService) generateShortCode(ctx) (string, error)] *)
Definition generateShortCode : M string :=
  generateShortCode_from (Z.to_nat maxAttempts) 0.

(** [func (s *URLService) validateURL(rawURL string) error] *)
Definition validateURL (rawURL : string) : M unit :=
  if String.eqb rawURL EmptyString then throw domain.ErrInvalidURL
  else
    match ParseRequestURI rawURL with
    | None => throw domain.ErrInvalidURL
    | Some parsedURL =>
        if negb (String.eqb (Scheme parsedURL) "http") &&
           negb (String.eqb (Scheme parsedURL) "https")
        then throw domain.ErrInvalidURL
        else if String.eqb (Host parsedURL) EmptyString
        then throw domain.ErrInvalidURL
        else ret tt
    end.

Definition code_char_ok (char : ascii) : bool :=
  between "a" "z" char || between "A" "Z" char || between "0" "9" char ||
  Ascii.eqb char "-" || Ascii.eqb char "_".

(** [func (s *URLService) validateShortCode(code string) error] *)
Definition validateShortCode (code : string) : M unit :=
  if (Z.of_nat (String.length code) <? 3) || (Z.of_nat (String.length code) >? 20)
  then throw domain.ErrInvalidShortCode
  else if forallb code_char_ok (list_ascii_of_string code) then ret tt
  else throw domain.ErrInvalidShortCode.

(** [func (s *URLService) CreateShortURL(ctx, originalURL, customCode, ttl)] *)
Definition CreateShortURL (originalURL customCode : string) (ttl : Z) : M URL :=
  wrapf "invalid url" (validateURL originalURL) ;;;
  shortCode <- (if negb (String.eqb customCode EmptyString)
                then validateShortCode customCode ;;; ret customCode
                else wrapf "failed to generate short code" generateShortCode) ;;
  now <- time_Now ;;
  let expiresAt :=
    if ttl >? 0 then Some (now + ttl)
    else if DefaultTTL config >? 0 then Some (now + DefaultTTL config)
    else None in
  let urlEntity := mkURL 0 shortCode originalURL now expiresAt 0 None in
  urlEntity <- wrapf "failed to create url" (repository.Create urlEntity) ;;
  slog LevelInfo "short url created"
       [AString "short_code" shortCode; AString "original_url" originalURL;
        ATime "expires_at" expiresAt] ;;;
  ret urlEntity.

(** [func (s *URLService) GetOriginalURL(ctx, shortCode)] *)
Definition GetOriginalURL (shortCode : string) : M URL :=
  urlEntity <- repository.GetByShortCode shortCode ;;
  expired <- domain.IsExpired urlEntity ;;
  if expired : bool
  then
    slog LevelWarn "attempted to access expired url"
         [AString "short_code" shortCode] ;;;
    throw domain.ErrURLExpired
  else
    urlEntity <- domain.IncrementAccessCount urlEntity ;;
    r <- observe (repository.Update urlEntity) ;;
    (match r with
     | inr err =>
         slog LevelError "failed to update access count"
              [AString "error" (errors.Error err); AString "short_code" shortCode]
     | inl _ => ret tt
     end) ;;;
    ret urlEntity.

(** [func (s *URLService) GetURLMetadata(ctx, shortCode)] *)
Definition GetURLMetadata (shortCode : string) : M URL :=
  urlEntity <- repository.GetByShortCode shortCode ;;
  ret urlEntity.

(** [func (s *URLService) DeleteURL(ctx, shortCode) error] *)
Definition DeleteURL (shortCode : string) : M unit :=
  wrapf "failed to delete url" (repository.Delete shortCode) ;;;
  slog LevelInfo "url deleted" [AString "short_code" shortCode] ;;;
  ret tt.

(** [func (s *URLService) ListURLs(ctx, limit, offset int)] *)
Definition ListURLs (limit offset : Z) : M (list URL * Z) :=
  let limit := if (limit <=? 0) || (limit >? 100) then 20 else limit in
  let offset := if offset <? 0 then 0 else offset in
  urls <- wrapf "failed to list urls" (repository.List limit offset) ;;
  total <- wrapf "failed to count urls" repository.Count ;;
  ret (urls, total).

(** [func (s *URLService) CleanupExpired(ctx) (int64, error)] *)
Definition CleanupExpired : M Z :=
  count <- wrapf "failed to cleanup expired urls" repository.DeleteExpired ;;
  ret count.

(** [func (s *URLService) GetFullURL(shortCode string) string] *)
Definition GetFullURL (shortCode : string) : string :=
  let baseURL := strings.TrimSuffix (BaseURL config) "/" in
  (baseURL ++ "/" ++ shortCode)%string.

End Service.

End service.

(* ===================================================================== *)
(** ** internal/handler: the mapping of service errors to responses *)

Module handler.

(** The status line and the [ErrorResponse] body written by
    [respondError]. *)
Record ErrorResponse : Type := mkResponse {
  Status : Z;
  Error : string;
  Message : string
}.

Definition StatusBadRequest : Z := 400.
Definition StatusNotFound : Z := 404.
Definition StatusConflict : Z := 409.
Definition StatusGone : Z := 410.
Definition StatusInternalServerError : Z := 500.

(** [func (h *URLHandler) respondError(w, status, error, message)] *)
Definition respondError (status : Z) (error message : string) : M ErrorResponse :=
  ret (mkResponse status error message).

(** [func (h *URLHandler) handleServiceError(w, err, logMsg)] *)
Definition handleServiceError (err : errors.error) (logMsg : string)
    : M ErrorResponse :=
  if errors.Is err domain.ErrURLNotFound
  then respondError StatusNotFound "url not found" EmptyString
  else if errors.Is err domain.ErrURLExpired
  then respondError StatusGone "url has expired" EmptyString
  else if errors.Is err domain.ErrInvalidURL
  then respondError StatusBadRequest "invalid url" EmptyString
  else if errors.Is err domain.ErrShortCodeAlreadyExists
  then respondError StatusConflict "short code already exists" EmptyString
  else if errors.Is err domain.ErrInvalidShortCode
  then respondError StatusBadRequest "invalid short code" EmptyString
  else
    slog LevelError logMsg [AString "error" (errors.Error err)] ;;;
    respondError StatusInternalServerError "internal server error" EmptyString.

Definition StatusOK : Z := 200.
Definition StatusCreated : Z := 201.
Definition StatusNoContent : Z := 204.
Definition StatusMovedPermanently : Z := 301.

(** [time.Second], a [time.Duration]: durations count nanoseconds. *)
Definition Second : Z := 1000000000.

(** The body of POST /api/urls once decoded; a field that the body leaves
    out has its zero value. *)
Record CreateShortURLRequest : Type := mkCreateRequest {
  URL : string;
  CustomCode : string;
  TTL : Z
}.

Record CreateShortURLResponse : Type := mkCreateResponse {
  ID : Z;
  ShortCode : string;
  ShortURL : string;
  OriginalURL : string;
  CreatedAt : Z;
  ExpiresAt : option Z
}.

Record ListURLsResponse : Type := mkListResponse {
  URLs : list rt.URL;
  Total : Z;
  Limit : Z;
  Offset : Z
}.

(** The values that the handlers hand to [respondJSON]. *)
Inductive Data : Type :=
| Created (r : CreateShortURLResponse)
| Entity (u : rt.URL)
| Listing (r : ListURLsResponse).

(** What a handler wrote to its [http.ResponseWriter]: an error body with
    its status, a JSON body with its status, the redirection made by
    [http.Redirect(w, r, url, code)], or a status line alone. The writes
    themselves go through. *)
Inductive Written : Type :=
| Refused (e : ErrorResponse)
| JSON (status : Z) (data : Data)
| Redirected (url : string) (code : Z)
| Header (status : Z).

(** [func (h *URLHandler) respondJSON(w, status, data)] *)
Definition respondJSON (status : Z) (data : Data) : M Written :=
  ret (JSON status data).

Section Handlers.

(** [url.ParseRequestURI] and the configuration, as in the service. *)
Variable ParseRequestURI : string -> option service.ParsedURL.
Variable config : service.URLConfig.

(** [json.NewDecoder(r.Body).Decode(&req)] of the standard library, on the
    bytes of the body: the request, or the error of the decoder. *)
Variable Decode : string -> CreateShortURLRequest + errors.error.

(** [strconv.Atoi] of the standard library: [None] for an error. *)
Variable Atoi : string -> option Z.

(** [func (h *URLHandler) CreateShortURL(w, r)], on the body of the
    request. *)
Definition CreateShortURL (body : string) : M Written :=
  match Decode body with
  | inr err =>
      slog LevelWarn "invalid request body" [AString "error" (errors.Error err)] ;;;
      e <- respondError StatusBadRequest "invalid request body" (errors.Error err) ;;
      ret (Refused e)
  | inl req =>
      if String.eqb (URL req) EmptyString
      then
        e <- respondError StatusBadRequest "url is required" EmptyString ;;
        ret (Refused e)
      else
        let ttl := if TTL req >? 0 then int64.mul (TTL req) Second else 0 in
        r <- observe (service.CreateShortURL ParseRequestURI config
                        (URL req) (CustomCode req) ttl) ;;
        match r with
        | inr err =>
            e <- handleServiceError err "failed to create short url" ;;
            ret (Refused e)
        | inl urlEntity =>
            respondJSON StatusCreated
              (Created (mkCreateResponse
                          (rt.ID urlEntity) (rt.ShortCode urlEntity)
                          (service.GetFullURL config (rt.ShortCode urlEntity))
                          (rt.OriginalURL urlEntity) (rt.CreatedAt urlEntity)
                          (rt.ExpiresAt urlEntity)))
        end
  end.

(** [func (h *URLHandler) RedirectToOriginal(w, r)], on the URL parameter
    [shortCode] of the request. *)
Definition RedirectToOriginal (shortCode : string) : M Written :=
  if String.eqb shortCode EmptyString
  then
    e <- respondError StatusBadRequest "short code is required" EmptyString ;;
    ret (Refused e)
  else
    r <- observe (service.GetOriginalURL shortCode) ;;
    match r with
    | inr err =>
        e <- handleServiceError err "failed to get original url" ;;
        ret (Refused e)
    | inl urlEntity =>
        slog LevelDebug "redirecting"
             [AString "short_code" shortCode;
              AString "original_url" (rt.OriginalURL urlEntity)] ;;;
        ret (Redirected (rt.OriginalURL urlEntity) StatusMovedPermanently)
    end.

(** [func (h *URLHandler) GetURLMetadata(w, r)] *)
Definition GetURLMetadata (shortCode : string) : M Written :=
  if String.eqb shortCode EmptyString
  then
    e <- respondError StatusBadRequest "short code is required" EmptyString ;;
    ret (Refused e)
  else
    r <- observe (service.GetURLMetadata shortCode) ;;
    match r with
    | inr err =>
        e <- handleServiceError err "failed to get url metadata" ;;
        ret (Refused e)
    | inl urlEntity => respondJSON StatusOK (Entity urlEntity)
    end.

(** [func (h *URLHandler) DeleteURL(w, r)] *)
Definition DeleteURL (shortCode : string) : M Written :=
  if String.eqb shortCode EmptyString
  then
    e <- respondError StatusBadRequest "short code is required" EmptyString ;;
    ret (Refused e)
  else
    r <- observe (service.DeleteURL shortCode) ;;
    match r with
    | inr err =>
        e <- handleServiceError err "failed to delete url" ;;
        ret (Refused e)
    | inl _ => ret (Header StatusNoContent)
    end.

(** [func (h *URLHandler) ListURLs(w, r)], on the query parameters [limit]
    and [offset] of the request, empty when absent. *)
Definition ListURLs (limitStr offsetStr : string) : M Written :=
  let limit :=
    if negb (String.eqb limitStr EmptyString)
    then match Atoi limitStr with Some l => l | None => 20 end
    else 20 in
  let offset :=
    if negb (String.eqb offsetStr EmptyString)
    then match Atoi offsetStr with Some o => o | None => 0 end
    else 0 in
  r <- observe (service.ListURLs limit offset) ;;
  match r with
  | inr err =>
      slog LevelError "failed to list urls" [AString "error" (errors.Error err)] ;;;
      e <- respondError StatusInternalServerError "failed to list urls" EmptyString ;;
      ret (Refused e)
  | inl (urls, total) =>
      respondJSON StatusOK (Listing (mkListResponse urls total limit offset))
  end.

End Handlers.

End handler.

(* ===================================================================== *)
(** ** internal/storage: the health check of the pool *)

Module storage.

(** [db.pool.Ping(ctx)]: one round trip to the server. *)
Definition Ping : M unit := roundtrip.

(** [func (db *PostgresDB) HealthCheck(ctx) error] *)
Definition HealthCheck : M unit :=
  wrapf "database health check failed" Ping.

End storage.

(* ===================================================================== *)
(** ** internal/handler/health.go *)

Module health.

Definition StatusOK : Z := 200.
Definition StatusServiceUnavailable : Z := 503.

(** [HealthResponse]; the map [Details] as the list of its entries. *)
Record HealthResponse : Type := mkHealth {
  Status : string;
  Database : string;
  Details : list (string * string)
}.

Section Health.

(** The method [HealthCheck] of the [HealthChecker] held in [h.db]. *)
Variable HealthCheck : M unit.

(** [func (h *HealthHandler) Health(w, r)]: the status written and the body
    handed to [respondJSON]. *)
Definition Health : M (Z * HealthResponse) :=
  r <- observe HealthCheck ;;
  match r with
  | inr err =>
      slog LevelError "database health check failed"
           [AString "error" (errors.Error err)] ;;;
      ret (StatusServiceUnavailable,
           mkHealth "unhealthy" "disconnected"
                    [("database_error", errors.Error err)])
  | inl _ => ret (StatusOK, mkHealth "healthy" "connected" [])
  end.

End Health.

End health.

(* ===================================================================== *)
(** ** cmd/server/main.go: the cleanup worker *)

Module main.

(** What one turn of the [select] of the worker receives: the cancellation
    of its context, or a tick of its hourly ticker. *)
Inductive Event : Type := Done | Tick.

(** The loop [for { select { ... } }] of [startCleanupWorker], along the
    events that arrive; when none is left the worker is waiting. *)
Fixpoint cleanupLoop (events : list Event) : M unit :=
  match events with
  | [] => ret tt
  | Done :: _ => slog LevelInfo "cleanup worker stopped" []
  | Tick :: rest =>
      r <- observe service.CleanupExpired ;;
      (match r with
       | inr err =>
           slog LevelError "cleanup failed" [AString "error" (errors.Error err)]
       | inl count =>
           if count >? 0
           then slog LevelInfo "cleanup completed" [AInt "deleted" count]
           else ret tt
       end) ;;;
      cleanupLoop rest
  end.

(** [func startCleanupWorker(ctx, urlService, logger)] *)
Definition startCleanupWorker (events : list Event) : M unit :=
  slog LevelInfo "cleanup worker started" [] ;;;
  cleanupLoop events.

End main.

(* ===================================================================== *)
(** ** Vocabulary of the properties *)

Module props.

(** *** Characters *)

(** One of the 62 symbols [A-Za-z0-9]. *)
Definition is_alnum (c : ascii) : bool :=
  service.between "a" "z" c || service.between "A" "Z" c ||
  service.between "0" "9" c.

(** One of the 64 symbols of the URL-safe base64 alphabet. *)
Definition is_base64url (c : ascii) : bool :=
  is_alnum c || service.is_dash_or_underscore c.

(** *** The store *)

(** The constraints of the table: [short_code] is UNIQUE and [id] is the
    primary key. *)
Definition unique_codes (w : World) : Prop := NoDup (map ShortCode (urls w)).
Definition unique_ids (w : World) : Prop := NoDup (map ID (urls w)).
Definition store_ok (w : World) : Prop := unique_codes w /\ unique_ids w.

(** The statement sent [k] statements from now reaches the store. *)
Definition answers (w : World) (k : nat) : Prop :=
  pg_fault w (roundtrips w + k)%nat = None.

(** [r] is a row of the table. *)
Definition stored (r : URL) (w : World) : Prop := In r (urls w).

Definition last_log (w : World) : option LogEntry := last (logs w).

(** The constraints of the table, with the bound that the sequence puts on
    the identifiers in use. *)
Definition store_inv (w : World) : Prop :=
  store_ok w /\ Forall (fun r => ID r <= urls_id_seq w) (urls w).

(** Every run of [m] that starts where [P] holds ends where [P] holds,
    however it ends. *)
Definition preserves {A} (P : World -> Prop) (m : M A) : Prop :=
  forall w r w', m w = (r, w') -> P w -> P w'.

(** *** Redirect reads *)

(** The record after one counted access at instant [now]. *)
Definition accessed (r : URL) (now : Z) : URL :=
  mkURL (ID r) (ShortCode r) (OriginalURL r) (CreatedAt r) (ExpiresAt r)
        (int64.add (AccessCount r) 1) (Some now).

(** Not expired at [now]: no expiry, or an expiry that [now] is not after. *)
Definition live_at (now : Z) (r : URL) : Prop :=
  forall e, ExpiresAt r = Some e -> now <= e.

(** The world after [IsExpired], which reads the clock only when the record
    has an expiry. *)
Definition after_expiry_check (w : World) (r : URL) : World :=
  match ExpiresAt r with Some _ => ticked w | None => w end.

(** The instant read by [IncrementAccessCount] during a redirect read of
    [r] that starts in [w]. *)
Definition access_instant (w : World) (r : URL) : Z :=
  clock w (ticks (after_expiry_check w r)).

(** The world after [repository.Update u] reached the store and changed a
    row. *)
Definition updated (w : World) (u : URL) : World :=
  logged
    (set_urls (sent w)
       (map (fun x => if pg.has_id (ID u) x
                      then pg.set_access (AccessCount u) (LastAccessed u) x
                      else x) (urls w)))
    (mkLog LevelDebug "url updated"
           [AInt "id" (ID u); AInt "access_count" (AccessCount u)]).

(** *** Creation *)

(** What [validateShortCode] accepts. *)
Definition valid_short_code (code : string) : Prop :=
  3 <= Z.of_nat (String.length code) <= 20 /\
  forallb service.code_char_ok (list_ascii_of_string code) = true.

(** What [validateURL] accepts, for the parser [parse]. *)
Definition valid_url (parse : string -> option service.ParsedURL)
    (rawURL : string) : Prop :=
  rawURL <> EmptyString /\
  exists parsed, parse rawURL = Some parsed /\
    (service.Scheme parsed = "http" \/ service.Scheme parsed = "https") /\
    service.Host parsed <> EmptyString.

(** The response to a uniqueness violation: HTTP 409. *)
Definition conflict_response : handler.ErrorResponse :=
  handler.mkResponse 409 "short code already exists" EmptyString.

(** The world after the store refused an insert. *)
Definition refused (w : World) : World := set_seq (sent w) (urls_id_seq w + 1).

(** The row that [repository.Create url] adds in [w], and the world after. *)
Definition new_row (w : World) (url : URL) : URL :=
  mkURL (urls_id_seq w + 1) (ShortCode url) (OriginalURL url)
        (CreatedAt url) (ExpiresAt url) (AccessCount url) None.

Definition inserted (w : World) (url : URL) : World :=
  logged (set_urls (set_seq (sent w) (urls_id_seq w + 1))
                   (urls w ++ [new_row w url]))
         (mkLog LevelDebug "url created"
                [AInt "id" (urls_id_seq w + 1);
                 AString "short_code" (ShortCode url)]).

(** *** Code generation *)

(** What [generateRandomCode length] computes once [rand.Read] has filled the
    buffer with [randomBytes]; [generateRandomCode_run] relates the two. *)
Definition code_of_bytes (length : Z) (randomBytes : list byte) : result string :=
  let encoded := list_ascii_of_string (base64.EncodeToString randomBytes) in
  if Z.of_nat (List.length encoded) <? length
  then Err (errors.Errorf "generated code too short")
  else
    code <~ slice.upto encoded length ;;
    result <~ slice.make Ascii.zero length ;;
    result <~ service.remap (Z.to_nat length) 0 code randomBytes result ;;
    Ok (string_of_list_ascii result).

(** The error of [generateRandomCode] when the random source fails. *)
Definition read_failure : errors.error :=
  errors.Errorf_w "failed to generate random bytes"
    (errors.Dynamic "crypto/rand: entropy source unavailable").

(** What the loop of [generateRandomCode] stores at index [i]. *)
Definition remap_at (code : list ascii) (randomBytes : list byte) (i : nat)
    : result ascii :=
  c <~ slice.index code i ;;
  if service.is_dash_or_underscore c
  then b <~ slice.index randomBytes i ;;
       service.charset_at (int64.rem (base64.val b)
                             (Z.of_nat (String.length service.charset)))
  else Ok c.

(** The values of [f i], [f (i+1)], ... ([fuel] of them), up to the first
    that fails. *)
Fixpoint collect {A} (f : nat -> result A) (i fuel : nat) : result (list A) :=
  match fuel with
  | O => Ok []
  | S fuel' => x <~ f i ;; xs <~ collect f (S i) fuel' ;; Ok (x :: xs)
  end.

Definition is_ok {A} (r : result A) : bool :=
  match r with Ok _ => true | _ => false end.

(** *** The collision loop *)

(** The error of [generateShortCode] when every attempt collided. *)
Definition exhausted : errors.error :=
  errors.Errorf "failed to generate unique short code after 10 attempts".

(** One turn of the loop of [generateShortCode] that finds its candidate in
    use: a code is generated, the probe returns a row, the collision is
    logged. *)
Definition collision (config : service.URLConfig) (attempt : Z)
    (w w' : World) : Prop :=
  exists code w1 row w2,
    service.generateRandomCode (service.ShortCodeLength config) w = (Ok code, w1) /\
    repository.GetByShortCode code w1 = (Ok row, w2) /\
    w' = logged w2 (mkLog LevelDebug "short code collision, retrying"
                      [AString "code" code; AInt "attempt" (int64.add attempt 1)]).

(** [n] turns in a row that find their candidate in use, the first one being
    turn number [attempt]. *)
Fixpoint collisions (config : service.URLConfig) (n : nat) (attempt : Z)
    (w w' : World) : Prop :=
  match n with
  | O => w' = w
  | S n' =>
      exists w1, collision config attempt w w1 /\
                 collisions config n' (int64.add attempt 1) w1 w'
  end.

(** One turn that finds its candidate free: the probe reports not-found. *)
Definition accepted (config : service.URLConfig) (w w' : World)
    (code : string) : Prop :=
  exists w1,
    service.generateRandomCode (service.ShortCodeLength config) w = (Ok code, w1) /\
    repository.GetByShortCode code w1 = (Err domain.ErrURLNotFound, w').

(** *** The distribution of generated symbols *)

(** The 256 values of a byte. *)
Definition all_bytes : list byte :=
  omap (fun n => Byte.of_N (N.of_nat n)) (seq 0 256).

(** Every sequence of [n] bytes, once. *)
Fixpoint inputs (n : nat) : list (list byte) :=
  match n with
  | O => [[]]
  | S n' => flat_map (fun b => map (cons b) (inputs n')) all_bytes
  end.

(** The outcome of [generateRandomCode length] when the random source gives
    [randomBytes]. *)
Definition generated (length : Z) (randomBytes : list byte) : result string :=
  fst (service.generateRandomCode length
         (mkWorld [] 0 (fun _ => 0) 0 (fun _ => None) 0 randomBytes [])).

(** The run on [randomBytes] returns a code whose character at [pos] is
    [c]. *)
Definition emits (length : Z) (pos : nat) (c : ascii)
    (randomBytes : list byte) : bool :=
  match generated length randomBytes with
  | Ok code =>
      match String.get pos code with
      | Some x => Ascii.eqb x c
      | None => false
      end
  | _ => false
  end.

(** Among all the values of the buffer of random bytes, how many give [c] at
    [pos]. The values being equally likely, the probability of [c] at [pos]
    is this number over the number of values. *)
Definition hits (length : Z) (pos : nat) (c : ascii) : nat :=
  List.length (List.filter (emits length pos c)
                 (inputs (Z.to_nat (service.numBytes length)))).

(** Every symbol of the 62-symbol alphabet is as likely as any other at
    [pos]. *)
Definition uniform (length : Z) (pos : nat) : Prop :=
  forall c1 c2,
    In c1 (list_ascii_of_string service.charset) ->
    In c2 (list_ascii_of_string service.charset) ->
    hits length pos c1 = hits length pos c2.

(** The symbol at position 0 of a code, from the first random byte. *)
Definition first_symbol (b : byte) : ascii :=
  match remap_at [base64.sym (Z.shiftr (base64.val b) 2)] [b] 0 with
  | Ok x => x
  | _ => Ascii.zero
  end.

(** How many values of the first byte give [c] at position 0. *)
Definition weight (c : ascii) : nat :=
  List.length (List.filter (fun b => Ascii.eqb (first_symbol b) c) all_bytes).

(** The bytes after the first one let the run return a code. *)
Definition survives (length : Z) (rest : list byte) : bool :=
  is_ok (generated length (x00 :: rest)).

(** How many values of the bytes after the first one let the run return a
    code. *)
Definition survivors (length : Z) : nat :=
  List.length (List.filter (survives length)
                 (inputs (Z.to_nat (service.numBytes length) - 1))).

(** The symbols that the remapping of [-] and [_] at position 0 lands on. *)
Definition heavy : string := "abcdefgh".

(** *** Sample worlds *)

Definition sample_expired : URL :=
  mkURL 1 "promo24" "https://example.com/sale" 10 (Some 50) 3 None.

Definition sample_live : URL :=
  mkURL 2 "docs" "https://example.org/docs" 20 None 0 None.

(** Two rows, a clock that reads 100, 101, ..., a store that always answers,
    and sixty zero bytes of entropy. *)
Definition sample_world : World :=
  mkWorld [sample_expired; sample_live] 2 (fun n => 100 + Z.of_nat n) 0
          (fun _ => None) 0 (replicate 60 x00) [].

(** The same world with a store that fails the second statement sent. *)
Definition flaky_world : World :=
  mkWorld [sample_expired; sample_live] 2 (fun n => 100 + Z.of_nat n) 0
          (fun n => if Nat.eqb n 1 then Some "conn closed" else None) 0
          (replicate 60 x00) [].

Definition sample_config : service.URLConfig :=
  service.mkConfig "http://localhost:8080" 7 0.

(** A world whose store already holds the code that sixty zero bytes of
    entropy generate ten times in a row. *)
Definition crowded_world : World :=
  mkWorld [mkURL 1 "AAAAAAA" "https://example.com" 10 None 0 None] 1
          (fun n => 100 + Z.of_nat n) 0 (fun _ => None) 0 (replicate 60 x00) [].

(** A stand-in for [url.ParseRequestURI] in the examples: it accepts what
    starts with the https scheme and takes the rest as the host. *)
Definition sample_parse (rawURL : string) : option service.ParsedURL :=
  if String.prefix "https://" rawURL
  then Some (service.mkParsed "https"
               (String.substring 8 (String.length rawURL - 8) rawURL))
  else None.

(** A first creation with the custom code [summer]. *)
Definition sample_created : result URL * World :=
  service.CreateShortURL sample_parse sample_config
    "https://example.com/a" "summer" 0 sample_world.

End props.
Import props.

(* ===================================================================== *)
(** ** Vocabulary of the further properties *)

Module notions.

(** The columns of a row that say where its code leads and for how long:
    [b] has them as [a] has. *)
Definition same_link (a b : URL) : Prop :=
  ID b = ID a /\ ShortCode b = ShortCode a /\ OriginalURL b = OriginalURL a /\
  CreatedAt b = CreatedAt a /\ ExpiresAt b = ExpiresAt a.

(** The table, its sequence and the clock are in [w] as they are in [w0]. *)
Definition same_store (w0 w : World) : Prop :=
  urls w = urls w0 /\ urls_id_seq w = urls_id_seq w0 /\
  clock w = clock w0 /\ ticks w = ticks w0.

(** No row comes before a row created later. *)
Definition newest_first (rows : list URL) : Prop :=
  forall i j a b, (i <= j)%nat -> rows !! i = Some a -> rows !! j = Some b ->
                  CreatedAt b <= CreatedAt a.

(** How many sweeps the worker starts along [events]: the ticks that arrive
    before the cancellation. *)
Fixpoint sweeps (events : list main.Event) : nat :=
  match events with
  | main.Tick :: rest => S (sweeps rest)
  | _ => 0%nat
  end.

(** *** Sample requests *)

(** The sample world with a store that cannot be reached: every statement
    fails. *)
Definition down_world : World :=
  mkWorld [sample_expired; sample_live] 2 (fun n => 100 + Z.of_nat n) 0
          (fun _ => Some "conn closed") 0 (replicate 60 x00) [].


(** Stand-ins for the decoder of the body in the examples: whatever the
    body, the request is for the same link under the code [summer], for one
    minute, or for 9223372037 seconds. *)
Definition sample_decode (body : string)
    : handler.CreateShortURLRequest + errors.error :=
  inl (handler.mkCreateRequest "https://example.com/a" "summer" 60).

Definition sample_decode_long (body : string)
    : handler.CreateShortURLRequest + errors.error :=
  inl (handler.mkCreateRequest "https://example.com/a" "summer" 9223372037).

(** A creation with the custom code [summer] and a time to live of 60, and
    a creation with a generated code. *)
Definition sample_created_ttl : result URL * World :=
  service.CreateShortURL sample_parse sample_config
    "https://example.com/a" "summer" 60 sample_world.

Definition sample_generated : result URL * World :=
  service.CreateShortURL sample_parse sample_config
    "https://example.com/a" EmptyString 0 sample_world.

End notions.
Import notions.

(* ===================================================================== *)
(** * Properties *)

(** ** Running the monad *)

Lemma bind_Ok {A B} (m : M A) (k : A -> M B) w a w1 :
  m w = (Ok a, w1) -> bind m k w = k a w1.
Proof. intros H. unfold bind. now rewrite H. Qed.

(** The next call of a sequence returns a value: run it. *)
Tactic Notation "run" uconstr(H) := rewrite (bind_Ok _ _ _ _ _ H).
Tactic Notation "run" uconstr(H) "in" hyp(G) :=
  rewrite (bind_Ok _ _ _ _ _ H) in G.

Lemma bind_Err {A B} (m : M A) (k : A -> M B) w e w1 :
  m w = (Err e, w1) -> bind m k w = (Err e, w1).
Proof. intros H. unfold bind. now rewrite H. Qed.

Lemma bind_Panic {A B} (m : M A) (k : A -> M B) w reason w1 :
  m w = (Panic reason, w1) -> bind m k w = (Panic reason, w1).
Proof. intros H. unfold bind. now rewrite H. Qed.

Lemma observe_Ok {A} (m : M A) w a w1 :
  m w = (Ok a, w1) -> observe m w = (Ok (inl a), w1).
Proof. intros H. unfold observe. now rewrite H. Qed.

Lemma observe_Err {A} (m : M A) w e w1 :
  m w = (Err e, w1) -> observe m w = (Ok (inr e), w1).
Proof. intros H. unfold observe. now rewrite H. Qed.

Lemma wrapf_Ok {A} prefix (m : M A) w a w1 :
  m w = (Ok a, w1) -> wrapf prefix m w = (Ok a, w1).
Proof. intros H. unfold wrapf. now rewrite H. Qed.

Lemma wrapf_Err {A} prefix (m : M A) w e w1 :
  m w = (Err e, w1) -> wrapf prefix m w = (Err (errors.Errorf_w prefix e), w1).
Proof. intros H. unfold wrapf. now rewrite H. Qed.

Lemma wrapf_Panic {A} prefix (m : M A) w reason w1 :
  m w = (Panic reason, w1) -> wrapf prefix m w = (Panic reason, w1).
Proof. intros H. unfold wrapf. now rewrite H. Qed.

Lemma roundtrip_Ok w :
  answers w 0 -> roundtrip w = (Ok tt, sent w).
Proof. unfold answers, roundtrip. rewrite Nat.add_0_r. now intros ->. Qed.

Lemma roundtrip_Err w text :
  pg_fault w (roundtrips w) = Some text ->
  roundtrip w = (Err (errors.Dynamic text), sent w).
Proof. unfold roundtrip. now intros ->. Qed.

Lemma answers_sent w k : answers (sent w) k <-> answers w (S k).
Proof. unfold answers. simpl. now rewrite Nat.add_succ_r. Qed.

(** ** Machine integers and slices *)

Lemma wrap_small z : int64.in_range z -> int64.wrap z = z.
Proof.
  unfold int64.in_range, int64.min, int64.max, int64.wrap. intros H.
  rewrite Z.mod_small; lia.
Qed.

Lemma make_Ok {A} (z : A) n :
  0 <= n <= slice.maxAlloc -> slice.make z n = Ok (replicate (Z.to_nat n) z).
Proof.
  intros H. unfold slice.make. rewrite Z.gtb_ltb.
  destruct (Z.ltb_spec n 0); [lia|].
  destruct (Z.ltb_spec slice.maxAlloc n); [lia|]. reflexivity.
Qed.

Lemma make_Ok_inv {A} (z : A) n l :
  slice.make z n = Ok l -> l = replicate (Z.to_nat n) z /\ 0 <= n.
Proof.
  unfold slice.make. destruct (Z.ltb_spec n 0); [discriminate|].
  destruct (n >? slice.maxAlloc); [discriminate|].
  intros [= <-]. split; [reflexivity|lia].
Qed.

(** ** The store and the repository *)

Lemma find_has_code rows r :
  NoDup (map ShortCode rows) -> In r rows ->
  find (pg.has_code (ShortCode r)) rows = Some r.
Proof.
  induction rows as [|x rows IH]; simpl; intros Hnd Hin; [tauto|].
  apply NoDup_cons in Hnd. destruct Hnd as [Hx Hnd].
  destruct Hin as [->|Hin].
  - unfold pg.has_code. now rewrite String.eqb_refl.
  - unfold pg.has_code at 1.
    destruct (String.eqb_spec (ShortCode x) (ShortCode r)) as [E|E].
    + exfalso. apply Hx. rewrite E. apply list_elem_of_In. now apply in_map.
    + now apply IH.
Qed.

Lemma find_appended rows r :
  existsb (pg.has_code (ShortCode r)) rows = false ->
  find (pg.has_code (ShortCode r)) (rows ++ [r]) = Some r.
Proof.
  induction rows as [|x rows IH]; simpl.
  - intros _. unfold pg.has_code. now rewrite String.eqb_refl.
  - intros H. apply orb_false_iff in H. destruct H as [-> H]. now apply IH.
Qed.

Lemma existsb_has_code_stored rows r :
  In r rows -> existsb (pg.has_code (ShortCode r)) rows = true.
Proof.
  intros Hin. apply existsb_exists. exists r. split; [exact Hin|].
  unfold pg.has_code. apply String.eqb_refl.
Qed.

Lemma count_has_id_pos rows r :
  In r rows -> 0 < Z.of_nat (List.length (List.filter (pg.has_id (ID r)) rows)).
Proof.
  induction rows as [|x rows IH]; simpl; [tauto|].
  intros [->|Hin].
  - unfold pg.has_id. rewrite Z.eqb_refl. simpl. lia.
  - destruct (pg.has_id (ID r) x); simpl; [lia|auto].
Qed.

Lemma update_only_id rows1 rows2 r count last :
  NoDup (map ID (rows1 ++ r :: rows2)) ->
  map (fun x => if pg.has_id (ID r) x then pg.set_access count last x else x)
      (rows1 ++ r :: rows2)
  = rows1 ++ pg.set_access count last r :: rows2.
Proof.
  intros Hnd. rewrite map_app. simpl.
  rewrite map_app in Hnd. simpl in Hnd.
  apply NoDup_app in Hnd. destruct Hnd as (_ & Hdis & Hnd2).
  apply NoDup_cons in Hnd2. destruct Hnd2 as [Hr _].
  unfold pg.has_id at 2. rewrite Z.eqb_refl.
  assert (Hid : forall rows, ID r ∉ map ID rows ->
            map (fun x => if pg.has_id (ID r) x then pg.set_access count last x else x) rows = rows).
  { induction rows as [|x rows IH]; simpl; intros Hn; [easy|].
    apply not_elem_of_cons in Hn. destruct Hn as [Hne Hn].
    unfold pg.has_id at 1. destruct (Z.eqb_spec (ID x) (ID r)); [congruence|].
    now rewrite IH. }
  rewrite (Hid rows2 Hr). rewrite Hid; [easy|].
  intros Hin. apply (Hdis _ Hin). left.
Qed.

Lemma expired_before_spec now r :
  pg.expired_before now r = true <-> exists e, ExpiresAt r = Some e /\ e < now.
Proof.
  unfold pg.expired_before. destruct (ExpiresAt r) as [e|].
  - rewrite Z.ltb_lt. split; [eauto|]. now intros (e' & [= <-] & H).
  - split; [discriminate|]. now intros (e' & [=] & _).
Qed.

Lemma GetByShortCode_found w code r :
  answers w 0 -> find (pg.has_code code) (urls w) = Some r ->
  repository.GetByShortCode code w = (Ok r, sent w).
Proof.
  unfold answers. rewrite Nat.add_0_r. intros Hf Hr.
  unfold repository.GetByShortCode, bind, observe, roundtrip.
  rewrite Hf. unfold pg.select_by_short_code. simpl. now rewrite Hr.
Qed.

Lemma GetByShortCode_frame code w r w' :
  repository.GetByShortCode code w = (r, w') -> w' = sent w.
Proof.
  unfold repository.GetByShortCode, bind at 1, observe, bind at 1, roundtrip.
  destruct (pg_fault w (roundtrips w)).
  - cbn [errors.Is errors.same orb]. now intros [= _ <-].
  - unfold pg.select_by_short_code. cbn [urls sent].
    destruct (find _ _); now intros [= _ <-].
Qed.

Lemma Update_Ok w u r :
  answers w 0 -> stored r w -> ID r = ID u ->
  repository.Update u w = (Ok tt, updated w u).
Proof.
  intros Hf Hin Hid. unfold repository.Update.
  erewrite bind_Ok; cycle 1.
  { apply wrapf_Ok. erewrite bind_Ok by (apply roundtrip_Ok, Hf). reflexivity. }
  pose proof (count_has_id_pos _ _ Hin) as Hpos. rewrite Hid in Hpos.
  change (urls (sent w)) with (urls w).
  destruct (Z.eqb_spec (Z.of_nat (List.length (List.filter (pg.has_id (ID u)) (urls w)))) 0);
    [lia|].
  reflexivity.
Qed.

Lemma Update_Err w u text :
  pg_fault w (roundtrips w) = Some text ->
  repository.Update u w =
    (Err (errors.Errorf_w "failed to update url" (errors.Dynamic text)), sent w).
Proof.
  intros Hf. unfold repository.Update.
  erewrite bind_Err; [reflexivity|].
  apply wrapf_Err. erewrite bind_Err; [reflexivity|]. now apply roundtrip_Err.
Qed.

Lemma DeleteExpired_Ok w :
  answers w 0 ->
  let now := clock w (ticks w) in
  exists w',
    repository.DeleteExpired w =
      (Ok (Z.of_nat (List.length (List.filter (pg.expired_before now) (urls w)))), w') /\
    urls w' = List.filter (fun r => negb (pg.expired_before now r)) (urls w).
Proof.
  intros Hf now. unfold repository.DeleteExpired.
  run (eq_refl : time_Now w = (Ok now, ticked w)).
  assert (Hf' : answers (ticked w) 0) by exact Hf.
  erewrite bind_Ok; cycle 1.
  { apply wrapf_Ok. erewrite bind_Ok by (apply roundtrip_Ok, Hf'). reflexivity. }
  change (urls (sent (ticked w))) with (urls w).
  destruct (_ >? 0); eexists; (split; [reflexivity|reflexivity]).
Qed.

Lemma Create_duplicate w url :
  answers w 0 ->
  3 <= Z.of_nat (String.length (ShortCode url)) <= 20 ->
  existsb (pg.has_code (ShortCode url)) (urls w) = true ->
  repository.Create url w = (Err domain.ErrShortCodeAlreadyExists, refused w).
Proof.
  intros Hf Hlen Hex. unfold repository.Create.
  erewrite bind_Ok; cycle 1.
  { apply observe_Err. erewrite bind_Ok by (apply roundtrip_Ok, Hf).
    unfold pg.insert. rewrite Z.gtb_ltb.
    destruct (Z.ltb_spec 20 (Z.of_nat (String.length (ShortCode url)))); [lia|].
    destruct (Z.ltb_spec (Z.of_nat (String.length (ShortCode url))) 3); [lia|].
    change (urls (set_seq (sent w) (urls_id_seq (sent w) + 1))) with (urls w).
    rewrite Hex. reflexivity. }
  cbn [errors.Error]. now rewrite String.eqb_refl.
Qed.

Lemma Create_Ok_inv w url u w1 :
  repository.Create url w = (Ok u, w1) ->
  existsb (pg.has_code (ShortCode url)) (urls w) = false /\
  w1 = inserted w url /\
  u = mkURL (urls_id_seq w + 1) (ShortCode url) (OriginalURL url)
            (CreatedAt url) (ExpiresAt url) (AccessCount url) (LastAccessed url).
Proof.
  unfold repository.Create, bind at 1, observe, bind at 1, roundtrip.
  destruct (pg_fault w (roundtrips w)).
  { destruct (String.eqb _ _); discriminate. }
  unfold pg.insert.
  destruct (_ >? 20). { destruct (String.eqb _ _); discriminate. }
  destruct (_ <? 3). { destruct (String.eqb _ _); discriminate. }
  change (urls (set_seq (sent w) (urls_id_seq (sent w) + 1))) with (urls w).
  destruct (existsb _ _). { destruct (String.eqb _ _); discriminate. }
  unfold bind, slog, ret. intros [= <- <-]. repeat split.
Qed.

Lemma sample_world_ok : store_ok sample_world.
Proof.
  split; unfold unique_codes, unique_ids; cbn;
    repeat (constructor; [rewrite ?elem_of_cons, elem_of_nil; intuition discriminate|]);
    constructor.
Qed.

(** ** The constraints of the table are invariant *)

Section Preserves.

Context {P : World -> Prop}.

Lemma preserves_ret {A} (a : A) : preserves P (ret a).
Proof. now intros w r w' [= _ <-]. Qed.

Lemma preserves_throw {A} e : preserves P (@throw A e).
Proof. now intros w r w' [= _ <-]. Qed.

Lemma preserves_lift {A} (x : result A) : preserves P (lift x).
Proof. now intros w r w' [= _ <-]. Qed.

Lemma preserves_bind {A B} (m : M A) (k : A -> M B) :
  preserves P m -> (forall a, preserves P (k a)) -> preserves P (bind m k).
Proof.
  intros Hm Hk w r w'. unfold bind.
  destruct (m w) as [[a|e|reason] w1] eqn:Hrun; pose proof (Hm _ _ _ Hrun) as H1.
  - intros Hk' Hw. exact (Hk a _ _ _ Hk' (H1 Hw)).
  - intros [= _ <-]. exact H1.
  - intros [= _ <-]. exact H1.
Qed.

Lemma preserves_wrapf {A} prefix (m : M A) :
  preserves P m -> preserves P (wrapf prefix m).
Proof.
  intros Hm w r w'. unfold wrapf.
  destruct (m w) as [[a|e|reason] w1] eqn:Hrun; pose proof (Hm _ _ _ Hrun) as H1;
    now intros [= _ <-].
Qed.

Lemma preserves_observe {A} (m : M A) :
  preserves P m -> preserves P (observe m).
Proof.
  intros Hm w r w'. unfold observe.
  destruct (m w) as [[a|e|reason] w1] eqn:Hrun; pose proof (Hm _ _ _ Hrun) as H1;
    now intros [= _ <-].
Qed.

End Preserves.

Lemma store_inv_frame w w' :
  urls w' = urls w -> urls_id_seq w' = urls_id_seq w ->
  store_inv w -> store_inv w'.
Proof.
  unfold store_inv, store_ok, unique_codes, unique_ids.
  now intros -> ->.
Qed.

Lemma preserves_time_Now : preserves store_inv time_Now.
Proof. intros w r w' [= _ <-]. now apply store_inv_frame. Qed.

Lemma preserves_slog lv text args : preserves store_inv (slog lv text args).
Proof. intros w r w' [= _ <-]. now apply store_inv_frame. Qed.

Lemma preserves_roundtrip : preserves store_inv roundtrip.
Proof.
  intros w r w'. unfold roundtrip.
  destruct (pg_fault w (roundtrips w)); intros [= _ <-];
    now apply store_inv_frame.
Qed.

Lemma preserves_rand_Read buf : preserves store_inv (rand_Read buf).
Proof.
  intros w r w'. unfold rand_Read.
  destruct (_ <? _)%nat; intros [= _ <-]; [easy|now apply store_inv_frame].
Qed.

Lemma preserves_select_by_short_code code :
  preserves store_inv (pg.select_by_short_code code).
Proof.
  intros w r w'. unfold pg.select_by_short_code.
  now destruct (find _ _); intros [= _ <-].
Qed.

Lemma preserves_select_by_id id : preserves store_inv (pg.select_by_id id).
Proof.
  intros w r w'. unfold pg.select_by_id.
  now destruct (find _ _); intros [= _ <-].
Qed.

Lemma preserves_select_page limit offset :
  preserves store_inv (pg.select_page limit offset).
Proof.
  intros w r w'. unfold pg.select_page.
  now destruct (limit <? 0), (offset <? 0); intros [= _ <-].
Qed.

Lemma preserves_count : preserves store_inv pg.count.
Proof. now intros w r w' [= _ <-]. Qed.

Lemma NoDup_map_filter {A B} (f : A -> B) (p : A -> bool) (l : list A) :
  NoDup (map f l) -> NoDup (map f (List.filter p l)).
Proof.
  induction l as [|x l IH]; cbn [map List.filter]; [easy|].
  intros Hnd. apply NoDup_cons in Hnd as [Hx Hnd].
  destruct (p x); [|now apply IH].
  cbn [map]. apply NoDup_cons. split; [|now apply IH].
  intros Hin. apply Hx. apply list_elem_of_In, in_map_iff in Hin as (y & <- & Hy).
  apply filter_In in Hy as [Hy _]. apply list_elem_of_In. now apply in_map.
Qed.

Lemma store_inv_filter w p :
  store_inv w -> store_inv (set_urls w (List.filter p (urls w))).
Proof.
  intros [[Hc Hi] Hb]. split; [split|]; cbn [urls set_urls urls_id_seq].
  - now apply NoDup_map_filter.
  - now apply NoDup_map_filter.
  - apply List.Forall_forall. intros r Hr. apply filter_In in Hr as [Hr _].
    rewrite List.Forall_forall in Hb. now apply Hb.
Qed.

Lemma preserves_delete_by_short_code code :
  preserves store_inv (pg.delete_by_short_code code).
Proof. intros w r w' [= _ <-]. apply store_inv_filter. Qed.

Lemma preserves_delete_expired now :
  preserves store_inv (pg.delete_expired now).
Proof. intros w r w' [= _ <-]. apply store_inv_filter. Qed.

Lemma preserves_update_access count last id :
  preserves store_inv (pg.update_access count last id).
Proof.
  intros w r w' [= _ <-] [[Hc Hi] Hb].
  set (f := fun r => if pg.has_id id r then pg.set_access count last r else r).
  assert (Hcode : map ShortCode (map f (urls w)) = map ShortCode (urls w)).
  { rewrite map_map. apply map_ext. intros x. unfold f.
    now destruct (pg.has_id id x). }
  assert (Hid : map ID (map f (urls w)) = map ID (urls w)).
  { rewrite map_map. apply map_ext. intros x. unfold f.
    now destruct (pg.has_id id x). }
  split; [split|]; unfold unique_codes, unique_ids; cbn [urls set_urls urls_id_seq].
  - now rewrite Hcode.
  - now rewrite Hid.
  - apply List.Forall_forall. intros x Hx. apply in_map_iff in Hx as (y & <- & Hy).
    rewrite List.Forall_forall in Hb. specialize (Hb y Hy).
    unfold f. now destruct (pg.has_id id y).
Qed.

Lemma preserves_insert code original created expires count :
  preserves store_inv (pg.insert code original created expires count).
Proof.
  intros w r w'. unfold pg.insert. intros Hrun [[Hc Hi] Hb].
  assert (Hrefused : store_inv (set_seq w (urls_id_seq w + 1))).
  { split; [split|]; [exact Hc|exact Hi|].
    cbn [urls set_seq urls_id_seq]. eapply List.Forall_impl; [|exact Hb].
    cbv beta. intros x Hx. lia. }
  destruct (_ >? 20); [now injection Hrun as _ <-|].
  destruct (_ <? 3); [now injection Hrun as _ <-|].
  cbn [urls set_seq] in Hrun.
  destruct (existsb _ _) eqn:Hex; injection Hrun as _ <-; [exact Hrefused|].
  split; [split|]; unfold unique_codes, unique_ids;
    cbn [urls set_urls set_seq urls_id_seq]; rewrite ?map_app; cbn [map].
  - apply NoDup_app. split; [exact Hc|]. split; [|apply NoDup_singleton].
    intros x Hx Hx'. apply list_elem_of_singleton in Hx'. subst x.
    apply list_elem_of_In, in_map_iff in Hx as (y & Hy & Hin).
    assert (Hfalse : existsb (pg.has_code code) (urls w) = true).
    { apply existsb_exists. exists y. split; [exact Hin|].
      unfold pg.has_code. rewrite Hy. apply String.eqb_refl. }
    congruence.
  - apply NoDup_app. split; [exact Hi|]. split; [|apply NoDup_singleton].
    intros x Hx Hx'. apply list_elem_of_singleton in Hx'. subst x.
    apply list_elem_of_In, in_map_iff in Hx as (y & Hy & Hin).
    rewrite List.Forall_forall in Hb. specialize (Hb y Hin).
    cbn [ID] in Hy. lia.
  - apply Forall_app. split.
    + eapply List.Forall_impl; [|exact Hb]. cbv beta. intros x Hx. lia.
    + constructor; [cbn; lia|constructor].
Qed.

Create HintDb preserves.

#[export] Hint Resolve preserves_ret preserves_throw preserves_lift
  preserves_wrapf preserves_observe preserves_time_Now preserves_slog
  preserves_roundtrip preserves_rand_Read preserves_select_by_short_code
  preserves_select_by_id preserves_select_page preserves_count
  preserves_delete_by_short_code preserves_delete_expired
  preserves_update_access preserves_insert : preserves.

(** Walks through a sequence of calls, splitting on its tests. *)
Ltac preserve :=
  repeat first
    [ solve [auto with preserves]
    | apply preserves_bind; [|intros ?]
    | apply preserves_wrapf
    | apply preserves_observe
    | match goal with
      | |- preserves _ (if ?b then _ else _) => destruct b
      | |- preserves _ (match ?x with _ => _ end) => destruct x
      end ].

Lemma preserves_Create url : preserves store_inv (repository.Create url).
Proof. unfold repository.Create. preserve. Qed.

Lemma preserves_GetByShortCode code :
  preserves store_inv (repository.GetByShortCode code).
Proof. unfold repository.GetByShortCode. preserve. Qed.

Lemma preserves_GetByID id : preserves store_inv (repository.GetByID id).
Proof. unfold repository.GetByID. preserve. Qed.

Lemma preserves_Update url : preserves store_inv (repository.Update url).
Proof. unfold repository.Update. preserve. Qed.

Lemma preserves_Delete code : preserves store_inv (repository.Delete code).
Proof. unfold repository.Delete. preserve. Qed.

Lemma preserves_DeleteExpired : preserves store_inv repository.DeleteExpired.
Proof. unfold repository.DeleteExpired. preserve. Qed.

Lemma preserves_List limit offset :
  preserves store_inv (repository.List limit offset).
Proof. unfold repository.List. preserve. Qed.

Lemma preserves_Count : preserves store_inv repository.Count.
Proof. unfold repository.Count. preserve. Qed.

#[export] Hint Resolve preserves_Create preserves_GetByShortCode
  preserves_GetByID preserves_Update preserves_Delete preserves_DeleteExpired
  preserves_List preserves_Count : preserves.

Lemma preserves_generateRandomCode length :
  preserves store_inv (service.generateRandomCode length).
Proof. unfold service.generateRandomCode. preserve. Qed.

#[export] Hint Resolve preserves_generateRandomCode : preserves.

Section ServicePreserves.

Variable ParseRequestURI : string -> option service.ParsedURL.
Variable config : service.URLConfig.

Lemma preserves_generateShortCode_from fuel : forall attempt,
  preserves store_inv (service.generateShortCode_from config fuel attempt).
Proof.
  induction fuel as [|fuel IH]; intros attempt;
    cbn [service.generateShortCode_from]; preserve.
Qed.

Lemma preserves_generateShortCode :
  preserves store_inv (service.generateShortCode config).
Proof. apply preserves_generateShortCode_from. Qed.

Lemma preserves_validateURL rawURL :
  preserves store_inv (service.validateURL ParseRequestURI rawURL).
Proof. unfold service.validateURL. preserve. Qed.

Lemma preserves_validateShortCode code :
  preserves store_inv (service.validateShortCode code).
Proof. unfold service.validateShortCode. preserve. Qed.

#[local] Hint Resolve preserves_generateShortCode preserves_validateURL
  preserves_validateShortCode : preserves.

Lemma preserves_CreateShortURL originalURL customCode ttl :
  preserves store_inv
    (service.CreateShortURL ParseRequestURI config originalURL customCode ttl).
Proof. unfold service.CreateShortURL. preserve. Qed.

Lemma preserves_GetOriginalURL code :
  preserves store_inv (service.GetOriginalURL code).
Proof.
  unfold service.GetOriginalURL, domain.IsExpired, domain.IncrementAccessCount.
  preserve.
Qed.

Lemma preserves_GetURLMetadata code :
  preserves store_inv (service.GetURLMetadata code).
Proof. unfold service.GetURLMetadata. preserve. Qed.

Lemma preserves_DeleteURL code : preserves store_inv (service.DeleteURL code).
Proof. unfold service.DeleteURL. preserve. Qed.

Lemma preserves_ListURLs limit offset :
  preserves store_inv (service.ListURLs limit offset).
Proof. unfold service.ListURLs. preserve. Qed.

Lemma preserves_CleanupExpired : preserves store_inv service.CleanupExpired.
Proof. unfold service.CleanupExpired. preserve. Qed.

End ServicePreserves.

(** The empty table satisfies the constraints. *)
Lemma store_inv_empty w : urls w = [] -> store_inv w.
Proof.
  intros H. unfold store_inv, store_ok, unique_codes, unique_ids. rewrite H.
  repeat split; constructor.
Qed.

(** ** Redirect reads *)

(** Claim C1. A redirect read of a stored record whose expiry is set and
    earlier than the instant read by [IsExpired] fails with [ErrURLExpired].
    The table is left as it was: the counter is not incremented, the last
    access is not set, the record stays, and only the read was sent to the
    store. The store is assumed to answer the read. *)
Theorem redirect_expired (w : World) (r : URL) (e : Z) :
  store_ok w -> stored r w -> answers w 0 ->
  ExpiresAt r = Some e -> e < clock w (ticks w) ->
  exists w',
    service.GetOriginalURL (ShortCode r) w = (Err domain.ErrURLExpired, w') /\
    urls w' = urls w /\ stored r w' /\ roundtrips w' = S (roundtrips w).
Proof.
  intros [Hc _] Hin Hf He Hlt.
  eexists. unfold service.GetOriginalURL, bind at 1.
  rewrite (GetByShortCode_found w _ r Hf (find_has_code _ _ Hc Hin)).
  unfold domain.IsExpired. rewrite He.
  unfold bind, time_Now, ret, slog, throw. simpl.
  replace (clock w (ticks w) >? e) with true by (symmetry; apply Z.gtb_lt; lia).
  repeat split. exact Hin.
Qed.

Lemma redirect_expired_witness :
  stored sample_expired sample_world /\
  exists w',
    service.GetOriginalURL "promo24" sample_world = (Err domain.ErrURLExpired, w') /\
    urls w' = urls sample_world /\ stored sample_expired w' /\
    roundtrips w' = S (roundtrips sample_world).
Proof.
  split; [now left|].
  apply (redirect_expired sample_world sample_expired 50).
  - exact sample_world_ok.
  - now left.
  - reflexivity.
  - reflexivity.
  - simpl. lia.
Defined.

Lemma IsExpired_live w r :
  live_at (clock w (ticks w)) r ->
  domain.IsExpired r w = (Ok false, after_expiry_check w r).
Proof.
  unfold live_at, domain.IsExpired, after_expiry_check. intros Hlive.
  destruct (ExpiresAt r) as [e|]; [|reflexivity].
  unfold bind, time_Now, ret.
  replace (clock w (ticks w) >? e) with false; [reflexivity|].
  symmetry. rewrite Z.gtb_ltb. now apply Z.ltb_ge, Hlive.
Qed.

Lemma after_expiry_check_frame w r :
  urls (after_expiry_check w r) = urls w /\
  roundtrips (after_expiry_check w r) = roundtrips w /\
  pg_fault (after_expiry_check w r) = pg_fault w /\
  clock (after_expiry_check w r) = clock w /\
  logs (after_expiry_check w r) = logs w.
Proof. unfold after_expiry_check. destruct (ExpiresAt r); repeat split. Qed.

(** Claim C2. A redirect read of a stored record that is not expired returns
    the record with its counter incremented by one and its last access set to
    the instant then read from the clock, whether or not the update reaches
    the store. The increment is the 64-bit one: it adds exactly one to a
    counter below the largest 64-bit integer. When the update reaches the
    store, that one row is replaced by the returned record and every other
    row is unchanged. When the update fails, the read still succeeds, the
    table is unchanged and the failure is only logged. The store is assumed
    to answer the read. *)
Theorem redirect_live (w : World) (r : URL) :
  store_ok w -> stored r w -> answers w 0 ->
  live_at (clock w (ticks w)) r ->
  let r' := accessed r (access_instant w r) in
  exists w',
    service.GetOriginalURL (ShortCode r) w = (Ok r', w') /\
    LastAccessed r' = Some (access_instant w r) /\
    (int64.in_range (AccessCount r) -> AccessCount r < int64.max ->
       AccessCount r' = AccessCount r + 1) /\
    (answers w 1 ->
       exists before after,
         urls w = before ++ r :: after /\ urls w' = before ++ r' :: after) /\
    (forall text, pg_fault w (S (roundtrips w)) = Some text ->
       urls w' = urls w /\
       exists entry, last_log w' = Some entry /\ level entry = LevelError /\
                     msg entry = "failed to update access count").
Proof.
  intros [Hc Hi] Hin Hf Hlive r'.
  assert (Hcount : int64.in_range (AccessCount r) -> AccessCount r < int64.max ->
                   AccessCount r' = AccessCount r + 1).
  { intros Hrange Hmax. cbn [r' accessed AccessCount]. apply wrap_small.
    unfold int64.in_range, int64.max, int64.min in *. lia. }
  destruct (after_expiry_check_frame (sent w) r) as (Hu1 & Hr1 & Hf1 & Hc1 & Hl1).
  set (w1 := after_expiry_check (sent w) r) in *.
  assert (Hinc : domain.IncrementAccessCount r w1 = (Ok r', ticked w1)).
  { unfold domain.IncrementAccessCount, bind, time_Now, ret.
    subst r' w1. unfold accessed, access_instant.
    rewrite Hc1. do 4 f_equal. unfold after_expiry_check.
    destruct (ExpiresAt r); reflexivity. }
  unfold service.GetOriginalURL.
  run (GetByShortCode_found w _ r Hf (find_has_code _ _ Hc Hin)).
  run (IsExpired_live (sent w) r Hlive). fold w1.
  run Hinc.
  destruct (pg_fault w (S (roundtrips w))) as [text|] eqn:Hfault.
  - assert (Hf' : pg_fault (ticked w1) (roundtrips (ticked w1)) = Some text).
    { simpl. now rewrite Hf1, Hr1. }
    run (observe_Err _ _ _ _ (Update_Err _ r' _ Hf')).
    eexists. split; [reflexivity|]. split; [reflexivity|].
    split; [exact Hcount|]. split.
    + unfold answers. rewrite Nat.add_1_r, Hfault. discriminate.
    + intros _ _. simpl. split; [exact Hu1|].
      unfold last_log. simpl. rewrite last_snoc. eexists. repeat split.
  - assert (Hf' : answers (ticked w1) 0).
    { unfold answers. simpl. now rewrite Nat.add_0_r, Hf1, Hr1. }
    assert (Hin' : stored r (ticked w1)) by (unfold stored; simpl; now rewrite Hu1).
    run (observe_Ok _ _ _ _ (Update_Ok _ r' r Hf' Hin' eq_refl)).
    eexists. split; [reflexivity|]. split; [reflexivity|].
    split; [exact Hcount|]. split; [|discriminate].
    intros _. destruct (in_split _ _ Hin) as (before & after & Hsplit).
    exists before, after. split; [exact Hsplit|].
    unfold updated. cbn [urls logged set_urls ticked].
    change (urls (sent w)) with (urls w) in Hu1. rewrite Hu1, Hsplit.
    red in Hi. rewrite Hsplit in Hi.
    subst r'. unfold accessed at 1 2 3. cbn [ID AccessCount LastAccessed].
    now rewrite update_only_id.
Qed.

Lemma redirect_live_witness :
  live_at (clock sample_world (ticks sample_world)) sample_live /\
  exists w',
    service.GetOriginalURL "docs" sample_world
      = (Ok (accessed sample_live 100), w') /\
    LastAccessed (accessed sample_live 100) = Some 100 /\
    (int64.in_range 0 -> 0 < int64.max ->
       AccessCount (accessed sample_live 100) = 0 + 1) /\
    (answers sample_world 1 ->
       exists before after,
         urls sample_world = before ++ sample_live :: after /\
         urls w' = before ++ accessed sample_live 100 :: after) /\
    (forall text, pg_fault sample_world (S (roundtrips sample_world)) = Some text ->
       urls w' = urls sample_world /\
       exists entry, last_log w' = Some entry /\ level entry = LevelError /\
                     msg entry = "failed to update access count").
Proof.
  split; [discriminate|].
  apply (redirect_live sample_world sample_live).
  - exact sample_world_ok.
  - right. now left.
  - reflexivity.
  - discriminate.
Defined.

(** The update fails and the read succeeds all the same. *)
Example redirect_survives_failed_update :
  fst (service.GetOriginalURL "docs" flaky_world)
    = Ok (mkURL 2 "docs" "https://example.org/docs" 20 None 1 (Some 100)) /\
  urls (snd (service.GetOriginalURL "docs" flaky_world)) = urls flaky_world /\
  option_map msg (last_log (snd (service.GetOriginalURL "docs" flaky_world)))
    = Some "failed to update access count".
Proof. repeat split. Qed.

(** ** Metadata reads *)

(** Claim C10. A metadata read of a stored record returns that record,
    whatever its expiry and whatever the clock reads, and changes neither the
    table nor the log, and does not read the clock. The store is assumed to
    answer the read. *)
Theorem metadata_read (w : World) (r : URL) :
  store_ok w -> stored r w -> answers w 0 ->
  exists w',
    service.GetURLMetadata (ShortCode r) w = (Ok r, w') /\
    urls w' = urls w /\ logs w' = logs w /\ ticks w' = ticks w.
Proof.
  intros [Hc _] Hin Hf. exists (sent w).
  unfold service.GetURLMetadata.
  run (GetByShortCode_found w _ r Hf (find_has_code _ _ Hc Hin)).
  repeat split.
Qed.

Lemma metadata_read_witness :
  exists w',
    service.GetURLMetadata "promo24" sample_world = (Ok sample_expired, w') /\
    urls w' = urls sample_world /\ logs w' = logs sample_world /\
    ticks w' = ticks sample_world.
Proof.
  apply (metadata_read sample_world sample_expired).
  - exact sample_world_ok.
  - now left.
  - reflexivity.
Defined.

(** ** The cleanup sweep *)

(** Claim C9. One sweep, when the store answers, returns the number of rows
    whose expiry is set and strictly before the instant the sweep read from
    the clock, and leaves exactly the other rows, unchanged and in their
    order: a stored row is deleted if and only if it has an expiry strictly
    before that instant. *)
Theorem sweep_deletes_expired (w : World) :
  answers w 0 ->
  let now := clock w (ticks w) in
  exists w',
    service.CleanupExpired w =
      (Ok (Z.of_nat (List.length (List.filter (pg.expired_before now) (urls w)))), w') /\
    urls w' = List.filter (fun r => negb (pg.expired_before now r)) (urls w) /\
    (List.length (urls w')
     + List.length (List.filter (pg.expired_before now) (urls w))
     = List.length (urls w))%nat /\
    (forall r, stored r w' <->
               stored r w /\ ~ (exists e, ExpiresAt r = Some e /\ e < now)) /\
    (forall r, stored r w ->
               (~ stored r w' <-> exists e, ExpiresAt r = Some e /\ e < now)).
Proof.
  intros Hf now. destruct (DeleteExpired_Ok w Hf) as (w' & Hrun & Hrows).
  exists w'. unfold service.CleanupExpired.
  run (wrapf_Ok _ _ _ _ _ Hrun).
  split; [reflexivity|]. split; [exact Hrows|].
  split.
  { rewrite Hrows. fold now.
    pose proof (List.filter_length (pg.expired_before now) (urls w)). lia. }
  assert (Hiff : forall r, stored r w' <->
            stored r w /\ ~ (exists e, ExpiresAt r = Some e /\ e < now)).
  { intros r. unfold stored. rewrite Hrows, filter_In, negb_true_iff.
    rewrite <- expired_before_spec. fold now.
    destruct (pg.expired_before now r); intuition congruence. }
  split; [exact Hiff|].
  intros r Hin. rewrite Hiff, <- expired_before_spec.
  destruct (pg.expired_before now r); intuition congruence.
Qed.

Lemma sweep_deletes_expired_witness :
  exists w',
    service.CleanupExpired sample_world = (Ok 1, w') /\
    urls w' = [sample_live] /\
    (List.length (urls w') + 1 = 2)%nat /\
    (forall r, stored r w' <->
               stored r sample_world /\
               ~ (exists e, ExpiresAt r = Some e /\ e < 100)) /\
    (forall r, stored r sample_world ->
               (~ stored r w' <-> exists e, ExpiresAt r = Some e /\ e < 100)).
Proof.
  apply (sweep_deletes_expired sample_world). reflexivity.
Defined.

(** ** Listing *)

(** Claim C8. The listing queries the store with an effective limit [l] and
    offset [o]: [l] is 20 when the limit is not positive, it lies in (0, 100]
    (it is the limit itself when the limit lies there, and 20 above 100), [o]
    is 0 for a negative offset and the offset otherwise. The total returned is
    the number of rows of the table, whatever the limit and offset. The store
    is assumed to answer both queries. *)
Theorem listing_window (w : World) (limit offset : Z) :
  answers w 0 -> answers w 1 ->
  exists l o w',
    service.ListURLs limit offset w =
      (Ok (pg.window l o (urls w), Z.of_nat (List.length (urls w))), w') /\
    urls w' = urls w /\
    0 < l <= 100 /\
    (limit <= 0 -> l = 20) /\ (100 < limit -> l = 20) /\
    (0 < limit <= 100 -> l = limit) /\
    (offset < 0 -> o = 0) /\ (0 <= offset -> o = offset).
Proof.
  intros Hf0 Hf1. unfold service.ListURLs.
  set (l := if (limit <=? 0) || (limit >? 100) then 20 else limit).
  set (o := if offset <? 0 then 0 else offset).
  assert (Hl : 0 < l <= 100 /\ (limit <= 0 -> l = 20) /\ (100 < limit -> l = 20) /\
               (0 < limit <= 100 -> l = limit)).
  { subst l. destruct (Z.leb_spec limit 0); simpl; [lia|].
    rewrite Z.gtb_ltb. destruct (Z.ltb_spec 100 limit); lia. }
  assert (Ho : 0 <= o /\ (offset < 0 -> o = 0) /\ (0 <= offset -> o = offset)).
  { subst o. destruct (Z.ltb_spec offset 0); lia. }
  exists l, o, (sent (sent w)).
  assert (HL : repository.List l o w = (Ok (pg.window l o (urls w)), sent w)).
  { unfold repository.List. apply wrapf_Ok.
    erewrite bind_Ok by (apply roundtrip_Ok, Hf0).
    unfold pg.select_page.
    destruct (Z.ltb_spec l 0); [lia|]. destruct (Z.ltb_spec o 0); [lia|]. reflexivity. }
  assert (HC : repository.Count (sent w) =
               (Ok (Z.of_nat (List.length (urls w))), sent (sent w))).
  { unfold repository.Count. apply wrapf_Ok.
    erewrite bind_Ok by (apply roundtrip_Ok, answers_sent, Hf1). reflexivity. }
  run (wrapf_Ok _ _ _ _ _ HL).
  run (wrapf_Ok _ _ _ _ _ HC).
  split; [reflexivity|]. split; [reflexivity|]. tauto.
Qed.

Lemma listing_window_witness :
  exists l o w',
    service.ListURLs 500 (-3) sample_world =
      (Ok (pg.window l o (urls sample_world), 2), w') /\
    urls w' = urls sample_world /\
    0 < l <= 100 /\
    (500 <= 0 -> l = 20) /\ (100 < 500 -> l = 20) /\
    (0 < 500 <= 100 -> l = 500) /\
    (-3 < 0 -> o = 0) /\ (0 <= -3 -> o = -3).
Proof.
  apply (listing_window sample_world 500 (-3)); reflexivity.
Defined.

(** ** Creation with a custom code *)

Lemma validateURL_valid parse rawURL w :
  valid_url parse rawURL -> service.validateURL parse rawURL w = (Ok tt, w).
Proof.
  intros (Hne & parsed & Hp & Hs & Hh). unfold service.validateURL.
  destruct (String.eqb_spec rawURL EmptyString) as [E|_]; [contradiction|].
  rewrite Hp.
  destruct (String.eqb_spec (service.Host parsed) EmptyString) as [E|_]; [contradiction|].
  destruct Hs as [-> | ->]; reflexivity.
Qed.

Lemma validateURL_cases parse rawURL w :
  service.validateURL parse rawURL w = (Ok tt, w) \/
  service.validateURL parse rawURL w = (Err domain.ErrInvalidURL, w).
Proof.
  unfold service.validateURL.
  destruct (String.eqb rawURL EmptyString); [now right|].
  destruct (parse rawURL) as [parsed|]; [|now right].
  destruct (_ && _); [now right|].
  destruct (String.eqb _ _); [now right|now left].
Qed.

Lemma validateShortCode_valid code w :
  valid_short_code code -> service.validateShortCode code w = (Ok tt, w).
Proof.
  intros [Hlen Hchars]. unfold service.validateShortCode.
  destruct (Z.ltb_spec (Z.of_nat (String.length code)) 3); [lia|].
  rewrite Z.gtb_ltb.
  destruct (Z.ltb_spec 20 (Z.of_nat (String.length code))); [lia|].
  simpl. now rewrite Hchars.
Qed.

Lemma validateShortCode_cases code w :
  service.validateShortCode code w = (Ok tt, w) \/
  service.validateShortCode code w = (Err domain.ErrInvalidShortCode, w).
Proof.
  unfold service.validateShortCode.
  destruct (_ || _); [now right|]. destruct (forallb _ _); [now left|now right].
Qed.

Lemma valid_short_code_nonempty code : valid_short_code code -> code <> EmptyString.
Proof. intros [Hlen _] ->. simpl in Hlen. lia. Qed.

Section CreateTwice.

Variable ParseRequestURI : string -> option service.ParsedURL.
Variable config : service.URLConfig.

Lemma CreateShortURL_custom_inv w originalURL customCode ttl u w1 :
  customCode <> EmptyString ->
  service.CreateShortURL ParseRequestURI config originalURL customCode ttl w = (Ok u, w1) ->
  ShortCode u = customCode /\
  existsb (pg.has_code customCode) (urls w) = false /\
  urls w1 = urls w ++ [u] /\
  entropy w1 = entropy w.
Proof.
  intros Hne H. unfold service.CreateShortURL in H.
  destruct (validateURL_cases ParseRequestURI originalURL w) as [Hv|Hv].
  2: { rewrite (bind_Err _ _ _ _ _ (wrapf_Err _ _ _ _ _ Hv)) in H. discriminate. }
  run (wrapf_Ok _ _ _ _ _ Hv) in H.
  destruct (String.eqb_spec customCode EmptyString) as [E|_]; [contradiction|].
  cbn [negb] in H.
  destruct (validateShortCode_cases customCode w) as [Hc|Hc].
  2: { rewrite (bind_Err _ _ _ _ _ (bind_Err _ _ _ _ _ Hc)) in H. discriminate. }
  assert (Hcode : bind (service.validateShortCode customCode)
                       (fun _ => ret customCode) w = (Ok customCode, w)).
  { now run Hc. }
  run Hcode in H.
  run (eq_refl : time_Now w = (Ok (clock w (ticks w)), ticked w)) in H.
  match type of H with
  | context [repository.Create ?entity] =>
      destruct (repository.Create entity (ticked w)) as [[u'|e|reason] w'] eqn:HC
  end.
  - run (wrapf_Ok _ _ _ _ _ HC) in H.
    unfold bind, slog, ret in H. injection H as <- <-.
    apply Create_Ok_inv in HC. cbn [ShortCode OriginalURL CreatedAt ExpiresAt
      AccessCount LastAccessed urls ticked urls_id_seq] in HC.
    destruct HC as (Hfresh & -> & ->). cbn [ShortCode].
    repeat split. exact Hfresh.
  - rewrite (bind_Err _ _ _ _ _ (wrapf_Err _ _ _ _ _ HC)) in H. discriminate.
  - rewrite (bind_Panic _ _ _ _ _ (wrapf_Panic _ _ _ _ _ HC)) in H. discriminate.
Qed.

(** Claim C7. After a creation with a valid custom code has succeeded, a
    second creation with the same custom code and any valid URL fails with an
    error that is [ErrShortCodeAlreadyExists] (answered with HTTP 409). No
    code is generated in its place (the entropy is untouched), the table is
    unchanged, and the first record is still what a metadata read of the code
    returns. The store is assumed to answer the second insert. *)
Theorem second_create_conflicts
    (w w1 : World) (url1 url2 code : string) (ttl1 ttl2 : Z) (u1 : URL) :
  valid_short_code code ->
  valid_url ParseRequestURI url2 ->
  service.CreateShortURL ParseRequestURI config url1 code ttl1 w = (Ok u1, w1) ->
  answers w1 0 ->
  exists e w2,
    service.CreateShortURL ParseRequestURI config url2 code ttl2 w1 = (Err e, w2) /\
    errors.Is e domain.ErrShortCodeAlreadyExists = true /\
    (forall logMsg w3,
       handler.handleServiceError e logMsg w3 = (Ok conflict_response, w3)) /\
    urls w2 = urls w1 /\ entropy w2 = entropy w1 /\
    ShortCode u1 = code /\ stored u1 w2 /\
    (answers w2 0 ->
       exists w3, service.GetURLMetadata code w2 = (Ok u1, w3)).
Proof.
  intros Hcode Hurl Hfirst Hf.
  pose proof (valid_short_code_nonempty _ Hcode) as Hne.
  destruct (CreateShortURL_custom_inv _ _ _ _ _ _ Hne Hfirst)
    as (Hsc & Hfresh & Hrows & Hent).
  exists (errors.Errorf_w "failed to create url" domain.ErrShortCodeAlreadyExists),
         (refused (ticked w1)).
  assert (Hin : stored u1 w1).
  { unfold stored. rewrite Hrows. apply in_or_app. right. now left. }
  split.
  { unfold service.CreateShortURL.
    run (wrapf_Ok _ _ _ _ _ (validateURL_valid _ _ w1 Hurl)).
    destruct (String.eqb_spec code EmptyString) as [E|_]; [contradiction|].
    cbn [negb].
    assert (Hc : bind (service.validateShortCode code) (fun _ => ret code) w1
                 = (Ok code, w1)).
    { now run (validateShortCode_valid _ w1 Hcode). }
    run Hc.
    run (eq_refl : time_Now w1 = (Ok (clock w1 (ticks w1)), ticked w1)).
    erewrite bind_Err; [reflexivity|].
    apply wrapf_Err, Create_duplicate.
    - exact Hf.
    - exact (proj1 Hcode).
    - cbn [ShortCode]. rewrite <- Hsc.
      now apply existsb_has_code_stored. }
  split; [reflexivity|].
  split; [reflexivity|].
  split; [reflexivity|].
  split; [reflexivity|].
  split; [exact Hsc|].
  split; [exact Hin|].
  intros Hf2. eexists. unfold service.GetURLMetadata.
  erewrite bind_Ok; [reflexivity|].
  apply GetByShortCode_found; [exact Hf2|].
  change (urls (refused (ticked w1))) with (urls w1).
  rewrite Hrows, <- Hsc. apply find_appended. now rewrite Hsc.
Qed.

End CreateTwice.

Lemma second_create_conflicts_witness :
  exists e w2,
    service.CreateShortURL sample_parse sample_config
      "https://example.org/b" "summer" 60 (snd sample_created) = (Err e, w2) /\
    errors.Is e domain.ErrShortCodeAlreadyExists = true /\
    (forall logMsg w3,
       handler.handleServiceError e logMsg w3 = (Ok conflict_response, w3)) /\
    urls w2 = urls (snd sample_created) /\
    entropy w2 = entropy (snd sample_created) /\
    ShortCode (mkURL 3 "summer" "https://example.com/a" 100 None 0 None) = "summer" /\
    stored (mkURL 3 "summer" "https://example.com/a" 100 None 0 None) w2 /\
    (answers w2 0 ->
       exists w3, service.GetURLMetadata "summer" w2
                  = (Ok (mkURL 3 "summer" "https://example.com/a" 100 None 0 None), w3)).
Proof.
  apply (second_create_conflicts sample_parse sample_config sample_world
           (snd sample_created) "https://example.com/a" "https://example.org/b"
           "summer" 0 60).
  - split; [simpl; lia|reflexivity].
  - split; [discriminate|]. eexists. split; [reflexivity|].
    split; [now right|discriminate].
  - vm_compute. reflexivity.
  - reflexivity.
Defined.

(** ** Generated codes are alphanumeric and of the configured length *)

Lemma generateRandomCode_run length w :
  service.generateRandomCode length w =
    match slice.make Byte.x00 (service.numBytes length) with
    | Ok buf =>
        if (List.length (entropy w) <? List.length buf)%nat
        then (Err read_failure, w)
        else (code_of_bytes length (take (List.length buf) (entropy w)),
              set_entropy w (drop (List.length buf) (entropy w)))
    | Err e => (Err e, w)
    | Panic reason => (Panic reason, w)
    end.
Proof.
  unfold service.generateRandomCode, bind at 1, lift at 1.
  destruct (slice.make x00 (service.numBytes length)) as [buf|e|reason];
    [|reflexivity|reflexivity].
  unfold bind at 1, wrapf, rand_Read.
  destruct (List.length (entropy w) <? List.length buf)%nat; [reflexivity|].
  unfold code_of_bytes.
  destruct (_ <? length); [reflexivity|].
  unfold bind at 1, lift at 1.
  destruct (slice.upto _ length) as [code|e|reason]; [|reflexivity|reflexivity].
  unfold bind at 1, lift at 1. cbn [rbind].
  destruct (slice.make zero length) as [result|e|reason]; [|reflexivity|reflexivity].
  unfold bind at 1, lift at 1. cbn [rbind].
  destruct (service.remap _ _ _ _ _) as [result'|e|reason]; reflexivity.
Qed.

Lemma generateRandomCode_frame length w r w' :
  service.generateRandomCode length w = (r, w') ->
  roundtrips w' = roundtrips w /\ pg_fault w' = pg_fault w /\ urls w' = urls w.
Proof.
  rewrite generateRandomCode_run.
  destruct (slice.make x00 (service.numBytes length)); [|now intros [= _ <-]..].
  destruct (_ <? _)%nat; now intros [= _ <-].
Qed.

Lemma list_ind3 {A} (P : list A -> Prop) :
  P [] -> (forall a, P [a]) -> (forall a b, P [a; b]) ->
  (forall a b c l, P l -> P (a :: b :: c :: l)) ->
  forall l, P l.
Proof.
  intros H0 H1 H2 H3.
  assert (H : forall l, P l /\ (forall a, P (a :: l)) /\ (forall a b, P (a :: b :: l))).
  { induction l as [|x l (IH0 & IH1 & IH2)]; [now auto|].
    split; [exact (IH1 x)|]. split; [exact (fun a => IH2 a x)|].
    intros a b. now apply H3. }
  intros l. apply H.
Qed.

Lemma land63_range x : 0 <= Z.land x 63 < 64.
Proof.
  change 63 with (Z.ones 6). rewrite Z.land_ones by lia.
  apply Z.mod_pos_bound. lia.
Qed.

Lemma sym_is_base64url v : 0 <= v < 64 -> is_base64url (base64.sym v) = true.
Proof.
  intros Hv.
  assert (H : forallb (fun n => is_base64url (base64.sym (Z.of_nat n))) (seq 0 64) = true)
    by (vm_compute; reflexivity).
  rewrite forallb_forall in H.
  specialize (H (Z.to_nat v)). rewrite Z2Nat.id in H by lia.
  apply H, in_seq. lia.
Qed.

Lemma encode_is_base64url src :
  Forall (fun c => is_base64url c = true) (base64.encode src).
Proof.
  induction src as [|a|a b|a b c l IH] using list_ind3; cbn [base64.encode];
    repeat (constructor; [apply sym_is_base64url, land63_range|]);
    [constructor..|exact IH].
Qed.

Lemma charset_is_alnum k c :
  service.charset_at k = Ok c -> is_alnum c = true.
Proof.
  unfold service.charset_at, slice.index.
  destruct (k <? 0); [discriminate|].
  destruct (list_ascii_of_string service.charset !! Z.to_nat k) as [x|] eqn:Hx;
    [|discriminate].
  intros [= <-].
  assert (H : forallb is_alnum (list_ascii_of_string service.charset) = true)
    by (vm_compute; reflexivity).
  rewrite forallb_forall in H. apply H.
  apply list_elem_of_In. eapply list_elem_of_lookup_2, Hx.
Qed.

Lemma length_string_of_list (l : list ascii) :
  String.length (string_of_list_ascii l) = List.length l.
Proof. induction l as [|c l IH]; simpl; [reflexivity|now rewrite IH]. Qed.

Lemma remap_char_alnum c rb i x :
  is_base64url c = true ->
  (if service.is_dash_or_underscore c
   then b <~ slice.index rb i ;;
        service.charset_at (int64.rem (base64.val b)
                              (Z.of_nat (String.length service.charset)))
   else Ok c) = Ok x ->
  is_alnum x = true.
Proof.
  unfold is_base64url. intros Hc.
  destruct (service.is_dash_or_underscore c).
  - destruct (slice.index rb i) as [b|e|reason]; cbn [rbind]; [|discriminate..].
    apply charset_is_alnum.
  - intros [= <-]. now rewrite orb_false_r in Hc.
Qed.

Lemma remap_Ok_inv fuel : forall i code rb result r,
  Forall (fun c => is_base64url c = true) code ->
  service.remap fuel i code rb result = Ok r ->
  List.length r = List.length result /\
  (forall j c, (i <= j < i + fuel)%nat -> r !! j = Some c -> is_alnum c = true) /\
  (forall j, (j < i)%nat -> r !! j = result !! j).
Proof.
  induction fuel as [|fuel IH]; intros i code rb result r Hcode; cbn [service.remap].
  - intros [= <-]. split; [reflexivity|]. split; [intros; lia|reflexivity].
  - unfold slice.index at 1.
    destruct (code !! i) as [c|] eqn:Hc; cbn [rbind]; [|discriminate].
    pose proof (Forall_lookup_1 _ _ _ _ Hcode Hc) as Hb. cbv beta in Hb.
    match goal with
    | |- rbind ?m _ = _ -> _ => destruct m as [x|e|reason] eqn:Hx
    end; cbn [rbind]; [|discriminate..].
    apply remap_char_alnum in Hx; [|exact Hb].
    unfold slice.assign.
    destruct (Nat.ltb_spec i (List.length result)) as [Hi|Hi]; cbn [rbind];
      [|discriminate].
    intros Hr. apply IH in Hr; [|exact Hcode].
    destruct Hr as (Hlen & Halnum & Hprefix).
    rewrite length_insert in Hlen.
    split; [exact Hlen|]. split.
    + intros j c' Hj Hlook. destruct (decide (j = i)) as [->|Hne].
      * rewrite Hprefix in Hlook by lia.
        rewrite list_lookup_insert_eq in Hlook by exact Hi.
        now injection Hlook as <-.
      * apply (Halnum j c'); [lia|exact Hlook].
    + intros j Hj. rewrite Hprefix by lia.
      apply list_lookup_insert_ne. lia.
Qed.

Lemma code_of_bytes_Ok length rb code :
  code_of_bytes length rb = Ok code ->
  Z.of_nat (String.length code) = length /\
  Forall (fun c => is_alnum c = true) (list_ascii_of_string code).
Proof.
  unfold code_of_bytes, base64.EncodeToString.
  rewrite list_ascii_of_string_of_list_ascii.
  destruct (_ <? length); [discriminate|].
  unfold slice.upto.
  destruct (Z.ltb_spec length 0) as [|Hpos]; [discriminate|].
  destruct (_ <? length); cbn [orb rbind]; [discriminate|].
  destruct (slice.make zero length) as [zeros|e|reason] eqn:Hmake;
    cbn [rbind]; [|discriminate..].
  apply make_Ok_inv in Hmake as [-> _].
  destruct (service.remap _ _ _ _ _) as [r|e|reason] eqn:Hr; cbn [rbind];
    [|discriminate..].
  intros [= <-].
  apply remap_Ok_inv in Hr; [|apply Forall_take, encode_is_base64url].
  destruct Hr as (Hlen & Halnum & _).
  rewrite length_replicate in Hlen.
  rewrite length_string_of_list, list_ascii_of_string_of_list_ascii, Hlen.
  split; [lia|].
  apply Forall_lookup_2. intros j c Hj. apply (Halnum j c); [|exact Hj].
  apply lookup_lt_Some in Hj. lia.
Qed.

(** Claim C3. Whenever [generateRandomCode length] returns a code, whatever
    the random bytes, the code has exactly [length] characters, each in
    [A-Za-z0-9]. *)
Theorem generated_code_shape (length : Z) (w w' : World) (code : string) :
  service.generateRandomCode length w = (Ok code, w') ->
  Z.of_nat (String.length code) = length /\
  Forall (fun c => is_alnum c = true) (list_ascii_of_string code).
Proof.
  rewrite generateRandomCode_run.
  destruct (slice.make x00 (service.numBytes length)) as [buf|e|reason];
    [|discriminate..].
  destruct (_ <? _)%nat; [discriminate|].
  intros [= H _]. now apply code_of_bytes_Ok in H.
Qed.

Lemma generated_code_shape_witness :
  fst (service.generateRandomCode 7 sample_world) = Ok "AAAAAAA" /\
  Z.of_nat (String.length "AAAAAAA") = 7 /\
  Forall (fun c => is_alnum c = true) (list_ascii_of_string "AAAAAAA").
Proof.
  split; [reflexivity|].
  apply (generated_code_shape 7 sample_world
           (snd (service.generateRandomCode 7 sample_world)) "AAAAAAA").
  reflexivity.
Defined.

(** ** The buffer of random bytes is shorter than the code *)

Lemma numBytes_small length :
  0 <= length < 2 ^ 60 -> service.numBytes length = (6 * length + 7) / 8.
Proof.
  intros H. unfold service.numBytes, int64.div, int64.mul, int64.rem, int64.add.
  assert (Hm : int64.wrap (length * 6) = length * 6).
  { apply wrap_small. unfold int64.in_range, int64.min, int64.max. lia. }
  rewrite Hm.
  rewrite Z.quot_div_nonneg, Z.rem_mod_nonneg by lia.
  assert (Hq : int64.wrap (length * 6 / 8) = length * 6 / 8).
  { apply wrap_small. unfold int64.in_range, int64.min, int64.max.
    pose proof (Z.div_le_upper_bound (length * 6) 8 (2 ^ 63 - 1)).
    pose proof (Z.div_pos (length * 6) 8). lia. }
  rewrite Hq.
  destruct (Z.eqb_spec ((length * 6) mod 8) 0) as [E|E]; cbn [negb].
  - pose proof (Z.div_mod (length * 6) 8). pose proof (Z.div_mod (6 * length + 7) 8).
    pose proof (Z.mod_pos_bound (6 * length + 7) 8). lia.
  - assert (Hs : int64.wrap (length * 6 / 8 + 1) = length * 6 / 8 + 1).
    { apply wrap_small. unfold int64.in_range, int64.min, int64.max.
      pose proof (Z.div_le_upper_bound (length * 6) 8 (2 ^ 62)).
      pose proof (Z.div_pos (length * 6) 8). lia. }
    rewrite Hs.
    pose proof (Z.div_mod (length * 6) 8). pose proof (Z.div_mod (6 * length + 7) 8).
    pose proof (Z.mod_pos_bound (6 * length + 7) 8).
    pose proof (Z.mod_pos_bound (length * 6) 8). lia.
Qed.

Lemma encode_all_ones (src : list byte) :
  Forall (fun b => b = xff) src ->
  exists m tail, base64.encode src = replicate m "_"%char ++ tail /\
                 (8 * List.length src < 6 * m + 6)%nat.
Proof.
  induction src as [|a|a b|a b c l IH] using list_ind3; intros Hall.
  - exists 0%nat, []. split; [reflexivity|simpl; lia].
  - apply Forall_cons_1 in Hall as [-> _].
    exists 1%nat, ["w"%char]. split; [reflexivity|simpl; lia].
  - apply Forall_cons_1 in Hall as [-> Hall]. apply Forall_cons_1 in Hall as [-> _].
    exists 2%nat, ["8"%char]. split; [reflexivity|simpl; lia].
  - apply Forall_cons_1 in Hall as [-> Hall]. apply Forall_cons_1 in Hall as [-> Hall].
    apply Forall_cons_1 in Hall as [-> Hall].
    destruct (IH Hall) as (m & tail & Hm & Hlen). exists (4 + m)%nat, tail.
    split; [|simpl in *; lia].
    change (base64.encode (xff :: xff :: xff :: l))
      with ("_"%char :: "_"%char :: "_"%char :: "_"%char :: base64.encode l).
    now rewrite Hm.
Qed.

Lemma remap_runs_out fuel : forall i n code result,
  (i <= n < i + fuel)%nat ->
  (i + fuel <= List.length result)%nat ->
  (forall j, (j < i + fuel)%nat -> code !! j = Some "_"%char) ->
  service.remap fuel i code (replicate n xff) result = Panic "index out of range".
Proof.
  induction fuel as [|fuel IH]; intros i n code result Hn Hlen Hcode; [lia|].
  cbn [service.remap]. unfold slice.index at 1.
  rewrite Hcode by lia. cbn [rbind].
  change (service.is_dash_or_underscore "_") with true. cbv iota.
  unfold slice.index.
  destruct (decide (i = n)) as [->|Hne].
  - rewrite (proj1 (lookup_replicate_None n xff n)) by lia. reflexivity.
  - rewrite lookup_replicate_2 by lia. cbn [rbind].
    change (service.charset_at _) with (@Ok ascii "h"%char). cbn [rbind].
    unfold slice.assign.
    destruct (Nat.ltb_spec i (List.length result)); [|lia]. cbn [rbind].
    apply IH; [lia|rewrite length_insert; lia|].
    intros j Hj. apply Hcode. lia.
Qed.

(** Claim C4. For every length from 4 up to the largest slice that the
    runtime allocates, and so for the default 7, the buffer of random bytes
    has ceil(6 * length / 8) bytes, which is fewer than [length], and there
    are random bytes for which [generateRandomCode] panics on an index out of
    range: with all bits set, every base64 character of the code is [_] and
    the remapping reads [randomBytes[i]] at the first index past the
    buffer. *)
Theorem remap_index_out_of_range (length : Z) :
  4 <= length <= slice.maxAlloc ->
  service.numBytes length = (6 * length + 7) / 8 /\
  service.numBytes length < length /\
  exists randomBytes,
    Z.of_nat (List.length randomBytes) = service.numBytes length /\
    forall w, entropy w = randomBytes ->
      exists w',
        service.generateRandomCode length w = (Panic "index out of range", w').
Proof.
  intros HL. pose proof (eq_refl : slice.maxAlloc = 2 ^ 48) as Hmax.
  pose proof (numBytes_small length ltac:(lia)) as Hnb.
  assert (Hrange : 0 <= service.numBytes length < length /\
                   6 * length <= 8 * service.numBytes length).
  { rewrite Hnb. pose proof (Z.div_mod (6 * length + 7) 8).
    pose proof (Z.mod_pos_bound (6 * length + 7) 8). lia. }
  split; [exact Hnb|]. split; [lia|].
  set (n := Z.to_nat (service.numBytes length)).
  exists (replicate n xff).
  split; [rewrite length_replicate; subst n; lia|].
  intros w Hw. rewrite generateRandomCode_run, make_Ok by lia.
  fold n. rewrite length_replicate, Hw, length_replicate, Nat.ltb_irrefl.
  rewrite take_ge by (rewrite length_replicate; lia).
  eexists. f_equal.
  unfold code_of_bytes, base64.EncodeToString.
  rewrite list_ascii_of_string_of_list_ascii.
  destruct (encode_all_ones (replicate n xff)) as (m & tail & Hm & Hlen).
  { apply Forall_replicate. reflexivity. }
  rewrite length_replicate in Hlen.
  assert (HLm : (Z.to_nat length <= m)%nat) by (subst n; lia).
  rewrite Hm, length_app, length_replicate.
  destruct (Z.ltb_spec (Z.of_nat (m + List.length tail)) length); [lia|].
  unfold slice.upto.
  destruct (Z.ltb_spec length 0); [lia|].
  rewrite length_app, length_replicate.
  destruct (Z.ltb_spec (Z.of_nat (m + List.length tail)) length); [lia|].
  cbn [orb rbind]. rewrite make_Ok by lia. cbn [rbind].
  rewrite (remap_runs_out _ 0 n); [reflexivity|subst n; lia| |].
  - rewrite length_replicate. lia.
  - intros j Hj. rewrite lookup_take_lt by lia.
    rewrite lookup_app_l by (rewrite length_replicate; lia).
    apply lookup_replicate_2. lia.
Qed.

Lemma remap_index_out_of_range_witness :
  service.numBytes 7 = 6 /\
  service.numBytes 7 < 7 /\
  exists randomBytes,
    Z.of_nat (List.length randomBytes) = service.numBytes 7 /\
    forall w, entropy w = randomBytes ->
      exists w',
        service.generateRandomCode 7 w = (Panic "index out of range", w').
Proof.
  apply (remap_index_out_of_range 7). unfold slice.maxAlloc. lia.
Defined.

(** At the default length the last character alone is enough, and so it is at
    length 4; in range, the remapping goes through. *)
Example default_length_panics :
  generated 7 [x00; x00; x00; x00; x0f; x80] = Panic "index out of range" /\
  generated 4 [x00; x00; x3f] = Panic "index out of range" /\
  generated 7 [xfb; xff; xff; x00; x00; x00] = Ok "dhhaAAA".
Proof. repeat split. Qed.

(** ** The collision loop *)

Section Collisions.

Variable config : service.URLConfig.

Lemma turn_collides fuel attempt w w' :
  collision config attempt w w' ->
  service.generateShortCode_from config (S fuel) attempt w =
  service.generateShortCode_from config fuel (int64.add attempt 1) w'.
Proof.
  intros (code & w1 & row & w2 & Hgen & Hget & ->).
  cbn [service.generateShortCode_from].
  run (wrapf_Ok _ _ _ _ _ Hgen).
  run (observe_Ok _ _ _ _ Hget).
  reflexivity.
Qed.

Lemma turn_accepts fuel attempt w w' code :
  accepted config w w' code ->
  service.generateShortCode_from config (S fuel) attempt w = (Ok code, w').
Proof.
  intros (w1 & Hgen & Hget).
  cbn [service.generateShortCode_from].
  run (wrapf_Ok _ _ _ _ _ Hgen).
  run (observe_Err _ _ _ _ Hget).
  reflexivity.
Qed.

Lemma after_collisions n : forall fuel attempt w w',
  collisions config n attempt w w' ->
  exists attempt',
    service.generateShortCode_from config (n + fuel) attempt w =
    service.generateShortCode_from config fuel attempt' w'.
Proof.
  induction n as [|n IH]; intros fuel attempt w w'; cbn [collisions].
  - intros ->. now exists attempt.
  - intros (w1 & Hturn & Hrest).
    destruct (IH fuel _ _ _ Hrest) as (attempt' & Heq).
    exists attempt'. cbn [Nat.add]. now rewrite (turn_collides _ _ _ _ Hturn).
Qed.

Lemma probes_bounded fuel : forall attempt w,
  (roundtrips (snd (service.generateShortCode_from config fuel attempt w))
   <= roundtrips w + fuel)%nat.
Proof.
  induction fuel as [|fuel IH]; intros attempt w;
    cbn [service.generateShortCode_from].
  - simpl. lia.
  - destruct (service.generateRandomCode (service.ShortCodeLength config) w)
      as [[code|e|reason] w1] eqn:Hgen;
      pose proof (generateRandomCode_frame _ _ _ _ Hgen) as (Hr1 & _ & _).
    2: { rewrite (bind_Err _ _ _ _ _ (wrapf_Err _ _ _ _ _ Hgen)). simpl. lia. }
    2: { rewrite (bind_Panic _ _ _ _ _ (wrapf_Panic _ _ _ _ _ Hgen)). simpl. lia. }
    run (wrapf_Ok _ _ _ _ _ Hgen).
    destruct (repository.GetByShortCode code w1) as [[row|e|reason] w2] eqn:Hget;
      pose proof (GetByShortCode_frame _ _ _ _ Hget) as ->.
    + run (observe_Ok _ _ _ _ Hget).
      unfold bind at 1, slog at 1.
      etransitivity; [apply IH|]. simpl. lia.
    + run (observe_Err _ _ _ _ Hget).
      destruct (errors.same e domain.ErrURLNotFound); simpl; lia.
    + exfalso. revert Hget.
      unfold repository.GetByShortCode, bind at 1, observe, bind at 1, roundtrip.
      destruct (pg_fault w1 (roundtrips w1)).
      * cbn [errors.Is errors.same orb]. discriminate.
      * unfold pg.select_by_short_code. destruct (find _ _); discriminate.
Qed.

Lemma collisions_roundtrips n : forall attempt w w',
  collisions config n attempt w w' -> roundtrips w' = (roundtrips w + n)%nat.
Proof.
  induction n as [|n IH]; intros attempt w w'; cbn [collisions].
  - intros ->. lia.
  - intros (w1 & (code & wa & row & wb & Hgen & Hget & ->) & Hrest).
    apply IH in Hrest. rewrite Hrest.
    apply generateRandomCode_frame in Hgen as (Hr & _ & _).
    apply GetByShortCode_frame in Hget as ->. simpl. lia.
Qed.

(** Claim C6. [generateShortCode] sends at most 10 probes to the store. After
    [k] turns that each generated a candidate and found it in use: when
    [k = 10] the operation fails with the exhaustion error after exactly 10
    probes, with no further turn; when [k < 10] and the next candidate is
    reported not-found, that candidate is returned after [k + 1] probes. *)
Theorem collision_loop_bounded (k : nat) (w w1 : World) :
  (k <= 10)%nat ->
  collisions config k 0 w w1 ->
  (roundtrips (snd (service.generateShortCode config w)) <= roundtrips w + 10)%nat /\
  (k = 10%nat ->
     service.generateShortCode config w = (Err exhausted, w1) /\
     roundtrips w1 = (roundtrips w + 10)%nat) /\
  (forall code w2,
     (k < 10)%nat -> accepted config w1 w2 code ->
     service.generateShortCode config w = (Ok code, w2) /\
     roundtrips w2 = (roundtrips w + k + 1)%nat).
Proof.
  intros Hk Hcol. unfold service.generateShortCode.
  change (Z.to_nat service.maxAttempts) with 10%nat.
  split; [apply probes_bounded|]. split.
  - intros ->. destruct (after_collisions 10 0 _ _ _ Hcol) as (attempt' & Heq).
    cbn [Nat.add] in Heq. rewrite Heq. split; [reflexivity|].
    now apply collisions_roundtrips in Hcol.
  - intros code w2 Hlt Hacc.
    destruct (after_collisions k (10 - k) _ _ _ Hcol) as (attempt' & Heq).
    replace (k + (10 - k))%nat with 10%nat in Heq by lia. rewrite Heq.
    destruct (10 - k)%nat as [|fuel] eqn:Hfuel; [lia|].
    rewrite (turn_accepts _ _ _ _ _ Hacc). split; [reflexivity|].
    apply collisions_roundtrips in Hcol.
    destruct Hacc as (wa & Hgen & Hget).
    apply generateRandomCode_frame in Hgen as (Hr & _ & _).
    apply GetByShortCode_frame in Hget as ->. simpl. lia.
Qed.

End Collisions.

Lemma crowded_collisions :
  collisions sample_config 10 0 crowded_world
    (snd (service.generateShortCode sample_config crowded_world)).
Proof.
  cbn [collisions].
  repeat (eexists; split;
          [eexists _, _, _, _;
           split; [vm_compute; reflexivity|split; [vm_compute; reflexivity|reflexivity]]|]).
  vm_compute. reflexivity.
Qed.

Lemma collision_loop_bounded_witness :
  service.generateShortCode sample_config crowded_world
    = (Err exhausted, snd (service.generateShortCode sample_config crowded_world)) /\
  roundtrips (snd (service.generateShortCode sample_config crowded_world)) = 10%nat.
Proof.
  destruct (collision_loop_bounded sample_config 10 crowded_world _
              (le_n 10) crowded_collisions) as (_ & Hfull & _).
  exact (Hfull eq_refl).
Defined.

(** The first candidate is free: one probe, no retry. *)
Example free_candidate_is_accepted :
  fst (service.generateShortCode sample_config sample_world) = Ok "AAAAAAA" /\
  roundtrips (snd (service.generateShortCode sample_config sample_world)) = 1%nat.
Proof. split; reflexivity. Qed.

(** ** The symbols of the encoding, arithmetically *)

Lemma val_range b : 0 <= base64.val b < 256.
Proof.
  unfold base64.val. pose proof (Byte.to_N_bounded b). lia.
Qed.

Lemma lor_shifted a b n :
  0 <= n -> 0 <= b < 2 ^ n -> Z.lor (Z.shiftl a n) b = a * 2 ^ n + b.
Proof.
  intros Hn Hb.
  pose proof (Z.add_lor_land (Z.shiftl a n) b) as H.
  assert (Hz : Z.land (Z.shiftl a n) b = 0).
  { rewrite <- (Z.mod_small b (2 ^ n)) by lia.
    rewrite <- Z.land_ones by lia.
    rewrite (Z.land_comm b), Z.land_assoc, Z.land_ones by lia.
    rewrite Z.shiftl_mul_pow2 by lia. rewrite Z.mod_mul by lia.
    apply Z.land_0_l. }
  rewrite Z.shiftl_mul_pow2 in * by lia. lia.
Qed.

Lemma pack3 a b c :
  0 <= a < 256 -> 0 <= b < 256 -> 0 <= c < 256 ->
  Z.lor (Z.lor (Z.shiftl a 16) (Z.shiftl b 8)) c = a * 65536 + b * 256 + c.
Proof.
  intros Ha Hb Hc.
  assert (E : Z.lor (Z.shiftl a 16) (Z.shiftl b 8) = Z.shiftl (a * 256 + b) 8).
  { replace (a * 256 + b) with (Z.lor (Z.shiftl a 8) b)
      by (rewrite lor_shifted; lia).
    rewrite Z.shiftl_lor, Z.shiftl_shiftl by lia. reflexivity. }
  rewrite E, lor_shifted by lia. lia.
Qed.

Lemma pack2 a b :
  0 <= a < 256 -> 0 <= b < 256 ->
  Z.lor (Z.shiftl a 16) (Z.shiftl b 8) = a * 65536 + b * 256.
Proof.
  intros Ha Hb.
  rewrite <- (Z.lor_0_r (Z.lor _ _)).
  rewrite (pack3 a b 0) by lia. lia.
Qed.

Lemma sextet v n : 0 <= n -> Z.land (Z.shiftr v n) 63 = (v / 2 ^ n) mod 64.
Proof.
  intros Hn. change 63 with (Z.ones 6).
  rewrite Z.land_ones, Z.shiftr_div_pow2 by lia. reflexivity.
Qed.

Lemma sextet0 v : Z.land v 63 = v mod 64.
Proof. change 63 with (Z.ones 6). now rewrite Z.land_ones by lia. Qed.

Lemma first_sextet a x : 0 <= a < 256 -> 0 <= x < 65536 ->
  ((a * 65536 + x) / 2 ^ 18) mod 64 = a / 4.
Proof. intros. change (2 ^ 18) with 262144. Z.to_euclidean_division_equations. lia. Qed.

Lemma third_sextet a a' x : 0 <= a < 256 -> 0 <= a' < 256 -> 0 <= x < 65536 ->
  ((a * 65536 + x) / 2 ^ 6) mod 64 = ((a' * 65536 + x) / 2 ^ 6) mod 64.
Proof. intros. change (2 ^ 6) with 64. Z.to_euclidean_division_equations. lia. Qed.

Lemma fourth_sextet a a' x : 0 <= a < 256 -> 0 <= a' < 256 -> 0 <= x < 65536 ->
  (a * 65536 + x) mod 64 = (a' * 65536 + x) mod 64.
Proof. intros. Z.to_euclidean_division_equations. lia. Qed.

Lemma encode_head b0 rest :
  base64.encode (b0 :: rest) !! 0%nat =
  Some (base64.sym (Z.shiftr (base64.val b0) 2)).
Proof.
  pose proof (val_range b0) as H0.
  assert (E : forall x, 0 <= x < 65536 ->
            Z.land (Z.shiftr (base64.val b0 * 65536 + x) 18) 63
            = Z.shiftr (base64.val b0) 2).
  { intros x Hx. rewrite sextet, first_sextet, Z.shiftr_div_pow2 by lia.
    reflexivity. }
  destruct rest as [|b1 [|b2 rest]]; cbn [base64.encode]; cbv zeta.
  - rewrite Z.shiftl_mul_pow2 by lia. change (2 ^ 16) with 65536.
    rewrite <- (Z.add_0_r (_ * 65536)), E by lia. reflexivity.
  - pose proof (val_range b1). rewrite pack2 by lia.
    rewrite E by lia. reflexivity.
  - pose proof (val_range b1). pose proof (val_range b2).
    rewrite pack3 by lia. rewrite <- Z.add_assoc, E by lia. reflexivity.
Qed.

Lemma encode_beyond_first b0 b0' rest :
  drop 2 (base64.encode (b0 :: rest)) = drop 2 (base64.encode (b0' :: rest)).
Proof.
  pose proof (val_range b0). pose proof (val_range b0').
  destruct rest as [|b1 [|b2 rest]]; cbn [base64.encode drop]; cbv zeta.
  - reflexivity.
  - pose proof (val_range b1). rewrite !pack2 by lia.
    rewrite !sextet by lia.
    now rewrite (third_sextet _ (base64.val b0')) by lia.
  - pose proof (val_range b1). pose proof (val_range b2).
    rewrite !pack3 by lia. rewrite !sextet, !sextet0 by lia.
    rewrite <- !Z.add_assoc.
    rewrite (third_sextet _ (base64.val b0')) by lia.
    now rewrite (fourth_sextet _ (base64.val b0')) by lia.
Qed.

Lemma length_encode_bound (src : list byte) :
  (8 * List.length src <= 6 * List.length (base64.encode src))%nat.
Proof.
  induction src as [|a|a b|a b c l IH] using list_ind3;
    cbn [base64.encode List.length] in *; lia.
Qed.

Lemma encode_zeros (src : list byte) :
  Forall (fun b => b = x00) src ->
  exists k, base64.encode src = replicate k "A"%char.
Proof.
  induction src as [|a|a b|a b c l IH] using list_ind3; intros Hall.
  - now exists 0%nat.
  - apply Forall_cons_1 in Hall as [-> _]. now exists 2%nat.
  - apply Forall_cons_1 in Hall as [-> Hall]. apply Forall_cons_1 in Hall as [-> _].
    now exists 3%nat.
  - apply Forall_cons_1 in Hall as [-> Hall]. apply Forall_cons_1 in Hall as [-> Hall].
    apply Forall_cons_1 in Hall as [-> Hall].
    destruct (IH Hall) as (k & Hk). exists (4 + k)%nat.
    change (base64.encode (x00 :: x00 :: x00 :: l))
      with ("A"%char :: "A"%char :: "A"%char :: "A"%char :: base64.encode l).
    now rewrite Hk.
Qed.

(** ** The loop of the generator, position by position *)

Lemma remap_collect code rb fuel : forall i result,
  (i + fuel <= List.length result)%nat ->
  service.remap fuel i code rb result =
  (xs <~ collect (remap_at code rb) i fuel ;;
   Ok (take i result ++ xs ++ drop (i + fuel) result)).
Proof.
  induction fuel as [|fuel IH]; intros i result Hlen;
    cbn [service.remap collect rbind].
  - rewrite Nat.add_0_r. cbn [app]. now rewrite take_drop.
  - unfold remap_at at 1. unfold slice.index at 1 3.
    destruct (code !! i) as [c|]; cbn [rbind]; [|reflexivity].
    match goal with
    | |- rbind ?m _ = _ => destruct m as [x|e|reason]
    end; cbn [rbind]; [|reflexivity..].
    unfold slice.assign. destruct (Nat.ltb_spec i (List.length result)); [|lia].
    cbn [rbind]. rewrite IH by (rewrite length_insert; lia).
    destruct (collect (remap_at code rb) (S i) fuel) as [xs|e|reason];
      cbn [rbind]; [|reflexivity..].
    f_equal.
    rewrite (take_S_r _ _ x) by (now apply list_lookup_insert_eq).
    rewrite take_insert_ge by lia.
    rewrite drop_insert_lt by lia.
    rewrite <- app_assoc. cbn [app]. now rewrite Nat.add_succ_r.
Qed.

Lemma collect_ext {A} (f g : nat -> result A) fuel : forall i,
  (forall j, (i <= j < i + fuel)%nat -> f j = g j) ->
  collect f i fuel = collect g i fuel.
Proof.
  induction fuel as [|fuel IH]; intros i H; cbn [collect]; [reflexivity|].
  rewrite (H i) by lia. rewrite (IH (S i)); [reflexivity|].
  intros j Hj. apply H. lia.
Qed.

Lemma collect_length {A} (f : nat -> result A) fuel : forall i xs,
  collect f i fuel = Ok xs -> List.length xs = fuel.
Proof.
  induction fuel as [|fuel IH]; intros i xs; cbn [collect].
  - now intros [= <-].
  - destruct (f i); cbn [rbind]; [|discriminate..].
    destruct (collect f (S i) fuel) as [ys|e|reason] eqn:Hc; cbn [rbind];
      [|discriminate..].
    intros [= <-]. cbn [List.length]. f_equal. now apply (IH (S i)).
Qed.

Lemma collect_first {A} (f : nat -> result A) i fuel x :
  f i = Ok x ->
  collect f i (S fuel) = (xs <~ collect f (S i) fuel ;; Ok (x :: xs)).
Proof. intros H. cbn [collect]. now rewrite H. Qed.

Lemma is_ok_collect_first {A} (f : nat -> result A) i fuel x :
  f i = Ok x -> is_ok (collect f i (S fuel)) = is_ok (collect f (S i) fuel).
Proof.
  intros H. rewrite (collect_first _ _ _ _ H).
  now destruct (collect f (S i) fuel).
Qed.

Lemma collect_all_ok {A} (f : nat -> result A) fuel : forall i,
  (forall j, (i <= j < i + fuel)%nat -> is_ok (f j) = true) ->
  is_ok (collect f i fuel) = true.
Proof.
  induction fuel as [|fuel IH]; intros i H; cbn [collect]; [reflexivity|].
  pose proof (H i ltac:(lia)) as Hi.
  destruct (f i) as [x|e|reason]; [|discriminate..]. cbn [rbind].
  specialize (IH (S i) (fun j Hj => H j ltac:(lia))).
  now destruct (collect f (S i) fuel).
Qed.

Lemma code_of_bytes_collect length rb :
  0 <= length <= slice.maxAlloc ->
  6 * length <= 8 * Z.of_nat (List.length rb) ->
  code_of_bytes length rb =
  (xs <~ collect (remap_at (base64.encode rb) rb) 0 (Z.to_nat length) ;;
   Ok (string_of_list_ascii xs)).
Proof.
  intros Hpos Hlen. unfold code_of_bytes, base64.EncodeToString.
  rewrite list_ascii_of_string_of_list_ascii.
  pose proof (length_encode_bound rb) as Henc.
  destruct (Z.ltb_spec (Z.of_nat (List.length (base64.encode rb))) length); [lia|].
  unfold slice.upto. destruct (Z.ltb_spec length 0); [lia|].
  destruct (Z.ltb_spec (Z.of_nat (List.length (base64.encode rb))) length); [lia|].
  cbn [orb rbind]. rewrite make_Ok by lia. cbn [rbind].
  rewrite remap_collect by (rewrite length_replicate; lia).
  rewrite (collect_ext _ (remap_at (base64.encode rb) rb)).
  2: { intros j Hj. unfold remap_at, slice.index.
       now rewrite lookup_take_lt by lia. }
  destruct (collect _ 0 (Z.to_nat length)) as [xs|e|reason] eqn:Hc;
    cbn [rbind]; [|reflexivity..].
  rewrite take_0, Nat.add_0_l.
  rewrite drop_ge by (rewrite length_replicate; lia).
  cbn [app]. now rewrite app_nil_r.
Qed.

Lemma generated_code_of_bytes length rb :
  Z.of_nat (List.length rb) = service.numBytes length ->
  service.numBytes length <= slice.maxAlloc ->
  generated length rb = code_of_bytes length rb.
Proof.
  intros Hlen Hmax. unfold generated.
  rewrite generateRandomCode_run, make_Ok by lia.
  rewrite length_replicate. cbn [entropy].
  rewrite <- Hlen, Nat2Z.id, Nat.ltb_irrefl. cbn [fst].
  now rewrite take_ge by lia.
Qed.

Lemma first_symbol_Ok b :
  remap_at [base64.sym (Z.shiftr (base64.val b) 2)] [b] 0 = Ok (first_symbol b).
Proof. destruct b; reflexivity. Qed.

Lemma remap_at_lookup code rb code' rb' i i' :
  code !! i = code' !! i' -> rb !! i = rb' !! i' ->
  remap_at code rb i = remap_at code' rb' i'.
Proof. unfold remap_at, slice.index. now intros -> ->. Qed.

Lemma remap_at_first b0 rest :
  remap_at (base64.encode (b0 :: rest)) (b0 :: rest) 0 = Ok (first_symbol b0).
Proof.
  rewrite <- first_symbol_Ok. apply remap_at_lookup; [|reflexivity].
  apply encode_head.
Qed.

Lemma charset_at_total k :
  0 <= k < 62 -> exists c, service.charset_at k = Ok c.
Proof.
  intros Hk. unfold service.charset_at, slice.index.
  destruct (Z.ltb_spec k 0); [lia|].
  destruct (lookup_lt_is_Some_2 (list_ascii_of_string service.charset)
              (Z.to_nat k)) as [c Hc].
  { change (List.length (list_ascii_of_string service.charset)) with 62%nat. lia. }
  rewrite Hc. now exists c.
Qed.

Lemma remap_at_total code rb i :
  (i < List.length code)%nat -> (i < List.length rb)%nat ->
  exists x, remap_at code rb i = Ok x.
Proof.
  intros Hc Hr. unfold remap_at, slice.index.
  destruct (lookup_lt_is_Some_2 code i Hc) as [c ->].
  destruct (lookup_lt_is_Some_2 rb i Hr) as [b ->]. cbn [rbind].
  destruct (service.is_dash_or_underscore c); [|now exists c].
  apply charset_at_total. unfold int64.rem.
  change (Z.of_nat (String.length service.charset)) with 62.
  pose proof (val_range b). rewrite Z.rem_mod_nonneg by lia.
  apply Z.mod_pos_bound. lia.
Qed.

Lemma tail_ok_independent b0 b0' rest fuel :
  (fuel = 0%nat \/ rest <> []) ->
  is_ok (collect (remap_at (base64.encode (b0 :: rest)) (b0 :: rest)) 1 fuel)
  = is_ok (collect (remap_at (base64.encode (b0' :: rest)) (b0' :: rest)) 1 fuel).
Proof.
  intros Hrest. destruct fuel as [|fuel]; [reflexivity|].
  destruct Hrest as [|Hrest]; [discriminate|].
  destruct rest as [|b1 rest]; [contradiction|].
  assert (Hsecond : forall b, exists x,
            remap_at (base64.encode (b :: b1 :: rest)) (b :: b1 :: rest) 1 = Ok x).
  { intros b. apply remap_at_total; [|cbn; lia].
    pose proof (length_encode_bound (b :: b1 :: rest)).
    cbn [List.length] in *. lia. }
  destruct (Hsecond b0) as [x Hx]. destruct (Hsecond b0') as [x' Hx'].
  rewrite (is_ok_collect_first _ _ _ _ Hx), (is_ok_collect_first _ _ _ _ Hx').
  f_equal. apply collect_ext. intros j Hj. apply remap_at_lookup.
  - replace j with (2 + (j - 2))%nat by lia.
    rewrite <- !lookup_drop. now rewrite (encode_beyond_first b0 b0').
  - destruct j as [|j]; [lia|reflexivity].
Qed.

(** ** Counting the values of the random bytes *)

Lemma in_all_bytes b : In b all_bytes.
Proof.
  apply list_elem_of_In, (list_elem_of_lookup_2 _ (Byte.to_nat b)).
  destruct b; reflexivity.
Qed.

Lemma inputs_length n : forall l, In l (inputs n) -> List.length l = n.
Proof.
  induction n as [|n IH]; intros l; cbn [inputs].
  - intros [<-|[]]. reflexivity.
  - rewrite in_flat_map. intros (b & _ & Hl).
    apply in_map_iff in Hl as (rest & <- & Hrest).
    cbn [List.length]. f_equal. now apply IH.
Qed.

Lemma inputs_complete l : In l (inputs (List.length l)).
Proof.
  induction l as [|b l IH]; cbn [inputs List.length]; [now left|].
  apply in_flat_map. exists b. split; [apply in_all_bytes|].
  now apply in_map.
Qed.

Lemma count_product (P : list byte -> bool) (f : byte -> bool)
    (g : list byte -> bool) (T : list (list byte)) :
  (forall b rest, In rest T -> P (b :: rest) = f b && g rest) ->
  forall B,
    List.length (List.filter P (flat_map (fun b => map (cons b) T) B))
    = (List.length (List.filter f B) * List.length (List.filter g T))%nat.
Proof.
  intros HP.
  assert (Hrow : forall b,
            List.length (List.filter P (map (cons b) T))
            = if f b then List.length (List.filter g T) else 0%nat).
  { intros b. revert HP. induction T as [|rest T IH]; intros HP.
    - now destruct (f b).
    - cbn [map List.filter]. rewrite (HP b rest) by now left.
      assert (IH' := IH (fun b r Hr => HP b r (or_intror Hr))).
      destruct (f b); cbn [andb].
      + destruct (g rest); cbn [List.length]; now rewrite IH'.
      + exact IH'. }
  induction B as [|b B IH]; [reflexivity|].
  cbn [flat_map List.filter]. rewrite List.filter_app, length_app, Hrow, IH.
  destruct (f b); cbn [List.length]; lia.
Qed.

Lemma numBytes_covers length :
  1 <= length <= slice.maxAlloc ->
  1 <= service.numBytes length <= slice.maxAlloc /\
  6 * length <= 8 * service.numBytes length /\
  (2 <= length -> 2 <= service.numBytes length).
Proof.
  intros H. pose proof (eq_refl : slice.maxAlloc = 2 ^ 48) as Hmax.
  rewrite numBytes_small by lia.
  pose proof (Z.div_mod (6 * length + 7) 8).
  pose proof (Z.mod_pos_bound (6 * length + 7) 8). lia.
Qed.

Lemma get_string_of_list x (xs : list ascii) :
  String.get 0 (string_of_list_ascii (x :: xs)) = Some x.
Proof. reflexivity. Qed.

Lemma emits_factor length c b0 rest :
  1 <= length <= slice.maxAlloc ->
  S (List.length rest) = Z.to_nat (service.numBytes length) ->
  emits length 0 c (b0 :: rest) =
  Ascii.eqb (first_symbol b0) c && survives length rest.
Proof.
  intros HL Hrest.
  destruct (numBytes_covers length HL) as (Hnb1 & Hcover & Hnb2).
  assert (Hlen : forall b, Z.of_nat (List.length (b :: rest)) = service.numBytes length).
  { intros b. cbn [List.length]. lia. }
  unfold emits, survives.
  rewrite !generated_code_of_bytes by (try apply Hlen; lia).
  rewrite !code_of_bytes_collect by (rewrite ?Hlen; lia).
  destruct (Z.to_nat length) as [|fuel] eqn:Hfuel; [lia|].
  rewrite !(collect_first _ _ _ _ (remap_at_first _ rest)).
  pose proof (tail_ok_independent b0 x00 rest fuel) as Hind.
  destruct (collect (remap_at (base64.encode (b0 :: rest)) (b0 :: rest)) 1 fuel)
    as [xs|e|reason];
  destruct (collect (remap_at (base64.encode (x00 :: rest)) (x00 :: rest)) 1 fuel)
    as [xs'|e'|reason'];
    cbn [rbind is_ok] in *;
    rewrite ?get_string_of_list, ?andb_true_r, ?andb_false_r;
    try reflexivity;
    exfalso; (assert (Hc : fuel = 0%nat \/ rest <> []);
      [destruct rest; [left; cbn [List.length] in *; lia|right; discriminate]
      |specialize (Hind Hc); discriminate]).
Qed.

Lemma hits_first length c :
  1 <= length <= slice.maxAlloc ->
  hits length 0 c = (weight c * survivors length)%nat.
Proof.
  intros HL. destruct (numBytes_covers length HL) as (Hnb1 & _ & _).
  unfold hits, weight, survivors.
  destruct (Z.to_nat (service.numBytes length)) as [|m] eqn:Hm; [lia|].
  cbn [inputs]. rewrite Nat.sub_succ, Nat.sub_0_r.
  apply count_product. intros b rest Hin.
  apply emits_factor; [exact HL|].
  rewrite Hm. f_equal. now apply inputs_length.
Qed.

Lemma survivors_pos length :
  1 <= length <= slice.maxAlloc -> (0 < survivors length)%nat.
Proof.
  intros HL. destruct (numBytes_covers length HL) as (Hnb1 & Hcover & _).
  unfold survivors.
  set (m := (Z.to_nat (service.numBytes length) - 1)%nat).
  assert (Hin : In (replicate m x00) (List.filter (survives length) (inputs m))).
  { apply filter_In. split.
    - rewrite <- (length_replicate m x00) at 2. apply inputs_complete.
    - unfold survives.
      assert (Hlen : Z.of_nat (List.length (x00 :: replicate m x00))
                     = service.numBytes length).
      { cbn [List.length]. rewrite length_replicate. subst m. lia. }
      rewrite generated_code_of_bytes by (try exact Hlen; lia).
      rewrite code_of_bytes_collect by (rewrite ?Hlen; lia).
      destruct (encode_zeros (x00 :: replicate m x00)) as (k & Hk).
      { constructor; [reflexivity|]. now apply Forall_replicate. }
      pose proof (length_encode_bound (x00 :: replicate m x00)) as Hb.
      rewrite Hk, length_replicate in Hb. apply Nat2Z.inj_le in Hb.
      rewrite Hk.
      match goal with
      | |- is_ok (rbind ?c _) = true => assert (Hc : is_ok c = true)
      end.
      { apply collect_all_ok. intros j Hj. unfold remap_at, slice.index.
        rewrite lookup_replicate_2 by lia. reflexivity. }
      match goal with
      | |- is_ok (rbind ?c _) = true => destruct c; [reflexivity|discriminate..]
      end. }
  destruct (List.filter (survives length) (inputs m)); [contradiction|].
  cbn [List.length]. lia.
Qed.

Lemma weight_values :
  forallb (fun c => Nat.eqb (weight c)
                      (if existsb (Ascii.eqb c) (list_ascii_of_string heavy)
                       then 5 else 4))
          (list_ascii_of_string service.charset) = true.
Proof. vm_compute. reflexivity. Qed.

(** ** The first symbol is not uniformly distributed *)

(** Claim C5, as amended. For every length from 1 up to the largest slice
    that the runtime allocates, the number of values of the random bytes that
    give the symbol [c] at position 0 is [weight c] times a positive number
    that does not depend on [c], and [weight c] is 5 for the eight symbols
    [a] to [h] and 4 for the other 54 symbols of the alphabet: the symbols
    are not equally likely. *)
Theorem first_symbol_distribution (length : Z) (c : ascii) :
  1 <= length <= slice.maxAlloc ->
  In c (list_ascii_of_string service.charset) ->
  hits length 0 c = (weight c * survivors length)%nat /\
  (0 < survivors length)%nat /\
  weight c = (if existsb (Ascii.eqb c) (list_ascii_of_string heavy)
              then 5%nat else 4%nat).
Proof.
  intros HL Hc. split; [now apply hits_first|]. split; [now apply survivors_pos|].
  pose proof weight_values as H. rewrite forallb_forall in H.
  apply Nat.eqb_eq, H, Hc.
Qed.

Lemma first_symbol_distribution_witness :
  hits 7 0 "a" = (5 * survivors 7)%nat /\ (0 < survivors 7)%nat /\
  weight "a" = 5%nat.
Proof.
  apply (first_symbol_distribution 7 "a"); [unfold slice.maxAlloc; lia|].
  cbn. tauto.
Defined.

(** Claim C5 fails at the default length 7 and position 0: [a] and [i] are
    not equally likely. *)
Lemma default_length_not_uniform : ~ uniform 7 0.
Proof.
  intros H. specialize (H "a"%char "i"%char).
  assert (Hlen : 1 <= 7 <= slice.maxAlloc) by (unfold slice.maxAlloc; lia).
  rewrite !hits_first in H by exact Hlen.
  pose proof (survivors_pos 7 Hlen) as Hpos.
  change (weight "a") with 5%nat in H. change (weight "i") with 4%nat in H.
  assert (Ha : In "a"%char (list_ascii_of_string service.charset))
    by (cbn; tauto).
  assert (Hi : In "i"%char (list_ascii_of_string service.charset))
    by (cbn; tauto).
  specialize (H Ha Hi). lia.
Qed.

(* ===================================================================== *)
(** * Further properties *)

(** ** Round trips through the repository *)

Lemma find_has_id_appended rows r :
  Forall (fun x => ID x < ID r) rows ->
  find (pg.has_id (ID r)) (rows ++ [r]) = Some r.
Proof.
  induction rows as [|x rows IH]; cbn [app find]; intros H.
  - unfold pg.has_id. now rewrite Z.eqb_refl.
  - apply Forall_cons_1 in H as [Hx H]. unfold pg.has_id at 1.
    destruct (Z.eqb_spec (ID x) (ID r)); [lia|]. now apply IH.
Qed.

Lemma find_has_id rows r :
  NoDup (map ID rows) -> In r rows -> find (pg.has_id (ID r)) rows = Some r.
Proof.
  induction rows as [|x rows IH]; simpl; intros Hnd Hin; [tauto|].
  apply NoDup_cons in Hnd. destruct Hnd as [Hx Hnd].
  destruct Hin as [->|Hin].
  - unfold pg.has_id. now rewrite Z.eqb_refl.
  - unfold pg.has_id at 1.
    destruct (Z.eqb_spec (ID x) (ID r)) as [E|E].
    + exfalso. apply Hx. rewrite E. apply list_elem_of_In. now apply in_map.
    + now apply IH.
Qed.

Lemma find_absent {A} (p : A -> bool) rows :
  (forall r, In r rows -> p r = false) -> find p rows = None.
Proof.
  induction rows as [|x rows IH]; simpl; intros H; [reflexivity|].
  rewrite (H x) by now left. apply IH. intros r Hr. apply H. now right.
Qed.

Lemma filter_absent {A} (p : A -> bool) rows :
  (forall r, In r rows -> p r = false) -> List.filter p rows = [].
Proof.
  induction rows as [|x rows IH]; simpl; intros H; [reflexivity|].
  rewrite (H x) by now left. apply IH. intros r Hr. apply H. now right.
Qed.

Lemma filter_every {A} (p : A -> bool) rows :
  (forall r, In r rows -> p r = true) -> List.filter p rows = rows.
Proof.
  induction rows as [|x rows IH]; simpl; intros H; [reflexivity|].
  rewrite (H x) by now left. f_equal. apply IH. intros r Hr. apply H. now right.
Qed.

Lemma GetByShortCode_missing w code :
  answers w 0 -> find (pg.has_code code) (urls w) = None ->
  repository.GetByShortCode code w = (Err domain.ErrURLNotFound, sent w).
Proof.
  unfold answers. rewrite Nat.add_0_r. intros Hf Hr.
  unfold repository.GetByShortCode, bind, observe, roundtrip.
  rewrite Hf. unfold pg.select_by_short_code. simpl. now rewrite Hr.
Qed.

Lemma GetByShortCode_fault w code text :
  pg_fault w (roundtrips w) = Some text ->
  repository.GetByShortCode code w =
    (Err (errors.Errorf_w "failed to get url by short code" (errors.Dynamic text)),
     sent w).
Proof.
  intros Hf. unfold repository.GetByShortCode, bind, observe, roundtrip.
  now rewrite Hf.
Qed.

Lemma GetByID_found w id r :
  answers w 0 -> find (pg.has_id id) (urls w) = Some r ->
  repository.GetByID id w = (Ok r, sent w).
Proof.
  unfold answers. rewrite Nat.add_0_r. intros Hf Hr.
  unfold repository.GetByID, bind, observe, roundtrip.
  rewrite Hf. unfold pg.select_by_id. simpl. now rewrite Hr.
Qed.

Lemma GetByID_missing w id :
  answers w 0 -> find (pg.has_id id) (urls w) = None ->
  repository.GetByID id w = (Err domain.ErrURLNotFound, sent w).
Proof.
  unfold answers. rewrite Nat.add_0_r. intros Hf Hr.
  unfold repository.GetByID, bind, observe, roundtrip.
  rewrite Hf. unfold pg.select_by_id. simpl. now rewrite Hr.
Qed.

(** Property X1. What [Create] has stored is what a lookup by the short
    code returns next: the row has the identifier drawn from the sequence
    and the code, URL, creation instant, expiry and counter of the entity, and
    no last access, whatever the entity held there; it is the entity itself
    when the entity had no last access. The store is assumed to answer the
    lookup. *)
Theorem create_then_get_by_short_code (w w1 : World) (url u : URL) :
  repository.Create url w = (Ok u, w1) ->
  answers w1 0 ->
  exists row,
    repository.GetByShortCode (ShortCode url) w1 = (Ok row, sent w1) /\
    row = mkURL (ID u) (ShortCode u) (OriginalURL u) (CreatedAt u) (ExpiresAt u)
                (AccessCount u) None /\
    ID u = urls_id_seq w + 1 /\
    ShortCode u = ShortCode url /\ OriginalURL u = OriginalURL url /\
    CreatedAt u = CreatedAt url /\ ExpiresAt u = ExpiresAt url /\
    (LastAccessed url = None -> row = u).
Proof.
  intros HC Hf. apply Create_Ok_inv in HC as (Hfresh & -> & ->).
  exists (new_row w url). split.
  - apply GetByShortCode_found; [exact Hf|].
    cbn [urls inserted logged set_urls].
    exact (find_appended (urls w) (new_row w url) Hfresh).
  - repeat split. cbn [LastAccessed]. intros H. unfold new_row. now rewrite H.
Qed.

Lemma create_then_get_by_short_code_witness :
  exists row,
    repository.GetByShortCode "fresh"
      (snd (repository.Create (mkURL 0 "fresh" "https://example.net" 7 None 0 None)
              sample_world))
    = (Ok row, sent (snd (repository.Create
                            (mkURL 0 "fresh" "https://example.net" 7 None 0 None)
                            sample_world))) /\
    row = mkURL 3 "fresh" "https://example.net" 7 None 0 None.
Proof.
  destruct (create_then_get_by_short_code sample_world
              (snd (repository.Create (mkURL 0 "fresh" "https://example.net" 7 None 0 None)
                      sample_world))
              (mkURL 0 "fresh" "https://example.net" 7 None 0 None)
              (mkURL 3 "fresh" "https://example.net" 7 None 0 None)
              eq_refl eq_refl) as (row & Hrun & Hrow & _).
  exists row. split; [exact Hrun|exact Hrow].
Defined.

(** Property X2. A lookup by the identifier that [Create] wrote into the
    entity returns the row just stored, and no row stored before has that
    identifier. The table is assumed to satisfy its constraints before the
    insert, and the store to answer the lookup. *)
Theorem create_then_get_by_id (w w1 : World) (url u : URL) :
  store_inv w ->
  repository.Create url w = (Ok u, w1) ->
  answers w1 0 ->
  repository.GetByID (ID u) w1
    = (Ok (mkURL (ID u) (ShortCode u) (OriginalURL u) (CreatedAt u) (ExpiresAt u)
                 (AccessCount u) None),
       sent w1) /\
  (forall r, stored r w -> ID r <> ID u).
Proof.
  intros [_ Hb] HC Hf. apply Create_Ok_inv in HC as (Hfresh & -> & ->).
  cbn [ID]. split.
  - apply GetByID_found; [exact Hf|].
    cbn [urls inserted logged set_urls].
    apply (find_has_id_appended (urls w) (new_row w url)).
    eapply List.Forall_impl; [|exact Hb]. cbv beta. intros x Hx.
    cbn [new_row ID]. lia.
  - intros r Hr. rewrite List.Forall_forall in Hb. specialize (Hb r Hr). lia.
Qed.

Lemma create_then_get_by_id_witness :
  repository.GetByID 3
    (snd (repository.Create (mkURL 0 "fresh" "https://example.net" 7 None 0 None)
            sample_world))
  = (Ok (mkURL 3 "fresh" "https://example.net" 7 None 0 None),
     sent (snd (repository.Create
                  (mkURL 0 "fresh" "https://example.net" 7 None 0 None)
                  sample_world))).
Proof.
  refine (proj1 (create_then_get_by_id sample_world _
                   (mkURL 0 "fresh" "https://example.net" 7 None 0 None)
                   (mkURL 3 "fresh" "https://example.net" 7 None 0 None)
                   _ eq_refl eq_refl)).
  split; [exact sample_world_ok|].
  repeat (constructor; [cbn; lia|]). constructor.
Defined.

(** Property X3. [GetByID] returns the stored row that has the identifier,
    and fails with [ErrURLNotFound] when no row has it. Identifiers are
    assumed unique, and the store to answer. *)
Theorem get_by_id_lookup (w : World) (id : Z) :
  unique_ids w -> answers w 0 ->
  (forall r, stored r w -> ID r = id ->
     repository.GetByID id w = (Ok r, sent w)) /\
  ((forall r, stored r w -> ID r <> id) ->
     repository.GetByID id w = (Err domain.ErrURLNotFound, sent w)).
Proof.
  intros Hi Hf. split.
  - intros r Hr <-. apply GetByID_found; [exact Hf|]. now apply find_has_id.
  - intros Hno. apply GetByID_missing; [exact Hf|]. apply find_absent.
    intros r Hr. unfold pg.has_id. apply Z.eqb_neq. now apply Hno.
Qed.

Lemma get_by_id_lookup_witness :
  repository.GetByID 2 sample_world = (Ok sample_live, sent sample_world) /\
  repository.GetByID 9 sample_world = (Err domain.ErrURLNotFound, sent sample_world).
Proof.
  split.
  - apply (proj1 (get_by_id_lookup sample_world 2 (proj2 sample_world_ok) eq_refl)
             sample_live); [right; now left|reflexivity].
  - apply (proj2 (get_by_id_lookup sample_world 9 (proj2 sample_world_ok) eq_refl)).
    intros r [<-|[<-|[]]]; discriminate.
Defined.

Lemma Delete_run w code :
  answers w 0 ->
  repository.Delete code w =
    if existsb (pg.has_code code) (urls w)
    then (Ok tt,
          logged (set_urls (sent w)
                    (List.filter (fun r => negb (pg.has_code code r)) (urls w)))
                 (mkLog LevelDebug "url deleted" [AString "short_code" code]))
    else (Err domain.ErrURLNotFound, sent w).
Proof.
  intros Hf. unfold repository.Delete.
  erewrite bind_Ok; cycle 1.
  { apply wrapf_Ok. erewrite bind_Ok by (apply roundtrip_Ok, Hf). reflexivity. }
  change (urls (sent w)) with (urls w).
  destruct (existsb (pg.has_code code) (urls w)) eqn:Hex.
  - apply existsb_exists in Hex as (r & Hr & Hcode).
    assert (Hpos : 0 < Z.of_nat (List.length (List.filter (pg.has_code code) (urls w)))).
    { assert (Hin : In r (List.filter (pg.has_code code) (urls w)))
        by (apply filter_In; now split).
      destruct (List.filter (pg.has_code code) (urls w)); [contradiction|].
      cbn [List.length]. lia. }
    destruct (Z.eqb_spec (Z.of_nat (List.length (List.filter (pg.has_code code) (urls w)))) 0);
      [lia|].
    reflexivity.
  - rewrite filter_absent.
    2: { intros r Hr. destruct (pg.has_code code r) eqn:E; [|reflexivity].
         assert (existsb (pg.has_code code) (urls w) = true)
           by (apply existsb_exists; eauto). congruence. }
    cbn [List.length Z.of_nat Z.eqb].
    unfold throw. f_equal. unfold set_urls, sent. cbn.
    rewrite filter_every; [reflexivity|].
    intros r Hr. destruct (pg.has_code code r) eqn:E; [|reflexivity].
    assert (existsb (pg.has_code code) (urls w) = true)
      by (apply existsb_exists; eauto). congruence.
Qed.

Lemma Delete_fault w code text :
  pg_fault w (roundtrips w) = Some text ->
  repository.Delete code w =
    (Err (errors.Errorf_w "failed to delete url" (errors.Dynamic text)), sent w).
Proof.
  intros Hf. unfold repository.Delete.
  erewrite bind_Err; [reflexivity|].
  apply wrapf_Err. erewrite bind_Err; [reflexivity|]. now apply roundtrip_Err.
Qed.

Lemma existsb_find_none {A} (p : A -> bool) rows :
  existsb p rows = false -> find p rows = None.
Proof.
  induction rows as [|x rows IH]; simpl; [reflexivity|].
  destruct (p x); [discriminate|exact IH].
Qed.

Lemma existsb_filter_negb {A} (p : A -> bool) rows :
  existsb p (List.filter (fun r => negb (p r)) rows) = false.
Proof.
  induction rows as [|x rows IH]; simpl; [reflexivity|].
  destruct (p x) eqn:E; cbn [negb]; [exact IH|].
  cbn [existsb]. now rewrite E.
Qed.

(** Property X4. When [DeleteURL] succeeds, a row had the code, exactly the
    rows with another code are left, and both reads of the code then fail
    with [ErrURLNotFound] (the store answering them). *)
Theorem deleted_code_is_gone (w w1 : World) (code : string) :
  service.DeleteURL code w = (Ok tt, w1) ->
  (exists r, stored r w /\ ShortCode r = code) /\
  (forall r, stored r w1 <-> stored r w /\ ShortCode r <> code) /\
  (answers w1 0 ->
     service.GetURLMetadata code w1 = (Err domain.ErrURLNotFound, sent w1) /\
     service.GetOriginalURL code w1 = (Err domain.ErrURLNotFound, sent w1)).
Proof.
  unfold service.DeleteURL. intros H.
  destruct (pg_fault w (roundtrips w)) as [text|] eqn:Hfault.
  { rewrite (bind_Err _ _ _ _ _ (wrapf_Err _ _ _ _ _ (Delete_fault _ code _ Hfault))) in H.
    discriminate. }
  assert (Hf : answers w 0) by (unfold answers; now rewrite Nat.add_0_r).
  pose proof (Delete_run w code Hf) as HD.
  destruct (existsb (pg.has_code code) (urls w)) eqn:Hex.
  2: { rewrite (bind_Err _ _ _ _ _ (wrapf_Err _ _ _ _ _ HD)) in H. discriminate. }
  run (wrapf_Ok _ _ _ _ _ HD) in H.
  unfold bind, slog, ret in H. injection H as Hw1.
  assert (Hrows : urls w1 = List.filter (fun r => negb (pg.has_code code r)) (urls w))
    by now rewrite <- Hw1.
  clear Hw1. split.
  { apply existsb_exists in Hex as (r & Hr & Hcode). exists r. split; [exact Hr|].
    now apply String.eqb_eq. }
  split.
  { intros r. unfold stored. rewrite Hrows, filter_In. unfold pg.has_code.
    destruct (String.eqb_spec (ShortCode r) code); cbn [negb]; intuition congruence. }
  intros Hf1.
  assert (Hmiss : repository.GetByShortCode code w1
                  = (Err domain.ErrURLNotFound, sent w1)).
  { apply GetByShortCode_missing; [exact Hf1|].
    rewrite Hrows. apply existsb_find_none, existsb_filter_negb. }
  split.
  - unfold service.GetURLMetadata. now rewrite (bind_Err _ _ _ _ _ Hmiss).
  - unfold service.GetOriginalURL. now rewrite (bind_Err _ _ _ _ _ Hmiss).
Qed.

Lemma deleted_code_is_gone_witness :
  (forall r, stored r (snd (service.DeleteURL "docs" sample_world)) <->
             stored r sample_world /\ ShortCode r <> "docs") /\
  fst (service.GetURLMetadata "docs" (snd (service.DeleteURL "docs" sample_world)))
    = Err domain.ErrURLNotFound.
Proof.
  destruct (deleted_code_is_gone sample_world
              (snd (service.DeleteURL "docs" sample_world)) "docs" eq_refl)
    as (_ & Hrows & Hgone).
  split; [exact Hrows|].
  now rewrite (proj1 (Hgone eq_refl)).
Defined.

Lemma Forall2_same {A} (R : A -> A -> Prop) (l : list A) :
  (forall x, R x x) -> Forall2 R l l.
Proof. intros H. induction l; constructor; auto. Qed.

Lemma Forall2_map_r {A} (R : A -> A -> Prop) (f : A -> A) (l : list A) :
  (forall x, R x (f x)) -> Forall2 R l (map f l).
Proof. intros H. induction l; cbn [map]; constructor; auto. Qed.

Lemma Update_frame u w :
  Forall2 (fun a b => same_link a b /\ (ID a <> ID u -> b = a))
          (urls w) (urls (snd (repository.Update u w))).
Proof.
  unfold repository.Update, bind at 1, wrapf, bind at 1, roundtrip.
  destruct (pg_fault w (roundtrips w)).
  - cbn [snd urls sent]. apply Forall2_same. intros x. now repeat split.
  - unfold pg.update_access. cbn [urls sent].
    match goal with
    | |- context [if ?c then _ else _] => destruct c
    end; unfold bind, slog, ret, throw; cbn [snd urls set_urls logged];
      apply Forall2_map_r; intros x; unfold pg.has_id;
      (destruct (Z.eqb_spec (ID x) (ID u)); [now repeat split|now repeat split]).
Qed.

(** Property X5. [Update] of an entity whose identifier no row has fails
    with [ErrURLNotFound] and leaves the table as it was: the statement
    affects no row. The store is assumed to answer. *)
Theorem update_unknown_id (w : World) (u : URL) :
  answers w 0 ->
  (forall r, stored r w -> ID r <> ID u) ->
  repository.Update u w = (Err domain.ErrURLNotFound, sent w).
Proof.
  intros Hf Hno. unfold repository.Update.
  erewrite bind_Ok; cycle 1.
  { apply wrapf_Ok. erewrite bind_Ok by (apply roundtrip_Ok, Hf). reflexivity. }
  change (urls (sent w)) with (urls w).
  assert (Hnone : forall r, In r (urls w) -> pg.has_id (ID u) r = false).
  { intros r Hr. apply Z.eqb_neq. now apply Hno. }
  rewrite (filter_absent _ _ Hnone). cbn [List.length Z.of_nat Z.eqb].
  unfold throw. f_equal. unfold set_urls. cbn [urls sent urls_id_seq clock ticks
    pg_fault roundtrips entropy logs].
  replace (map _ (urls w)) with (urls w); [reflexivity|].
  rewrite <- (map_id (urls w)) at 1. apply map_ext_in. intros r Hr.
  now rewrite (Hnone r Hr).
Qed.

Lemma update_unknown_id_witness :
  repository.Update (mkURL 9 "docs" "https://example.org/docs" 20 None 5 (Some 1))
                    sample_world
  = (Err domain.ErrURLNotFound, sent sample_world).
Proof.
  apply (update_unknown_id sample_world
           (mkURL 9 "docs" "https://example.org/docs" 20 None 5 (Some 1)) eq_refl).
  intros r [<-|[<-|[]]]; discriminate.
Defined.

(** Property X6. A redirect read, however it ends, leaves as many rows as
    there were, in their order, each with the identifier, code, original URL,
    creation instant and expiry it had: it can only change counters and last
    accesses. *)
Theorem redirect_read_keeps_links (w : World) (code : string) :
  Forall2 same_link (urls w) (urls (snd (service.GetOriginalURL code w))).
Proof.
  assert (Hsame : Forall2 same_link (urls w) (urls w))
    by (apply Forall2_same; now repeat split).
  unfold service.GetOriginalURL.
  destruct (repository.GetByShortCode code w) as [[r|e|reason] w1] eqn:Hget;
    pose proof (GetByShortCode_frame _ _ _ _ Hget) as ->.
  2: { now rewrite (bind_Err _ _ _ _ _ Hget). }
  2: { now rewrite (bind_Panic _ _ _ _ _ Hget). }
  run Hget.
  destruct (domain.IsExpired r (sent w)) as [[b|e|reason] w2] eqn:Hexp.
  2,3: unfold domain.IsExpired in Hexp; destruct (ExpiresAt r); discriminate.
  assert (Hw2 : urls w2 = urls w).
  { unfold domain.IsExpired in Hexp. destruct (ExpiresAt r);
      unfold bind, time_Now, ret in Hexp; injection Hexp as _ <-; reflexivity. }
  run Hexp. destruct b.
  { unfold bind, slog, throw. cbn [snd urls logged]. now rewrite Hw2. }
  unfold domain.IncrementAccessCount.
  unfold bind at 1, bind at 1, time_Now, ret.
  set (u := mkURL _ _ _ _ _ _ _). set (w3 := ticked w2).
  pose proof (Update_frame u w3) as Hfr.
  change (urls w3) with (urls w2) in Hfr. rewrite Hw2 in Hfr.
  assert (Hlinks : Forall2 same_link (urls w) (urls (snd (repository.Update u w3)))).
  { eapply Forall2_impl; [exact Hfr|]. now intros a b [Hl _]. }
  unfold bind at 1, observe.
  destruct (repository.Update u w3) as [[[]|e|reason] w4]; cbn [snd] in Hlinks;
    unfold bind, slog, ret; cbn [snd urls logged]; exact Hlinks.
Qed.

(** ** Code generation only reads the table *)

Lemma same_store_refl w : same_store w w.
Proof. now repeat split. Qed.

Lemma same_store_trans w0 w1 w2 :
  same_store w0 w1 -> same_store w1 w2 -> same_store w0 w2.
Proof.
  unfold same_store. intros (Hu & Hs & Hc & Ht) (Hu' & Hs' & Hc' & Ht').
  repeat split; congruence.
Qed.

Lemma generateRandomCode_same_store length w r w' :
  service.generateRandomCode length w = (r, w') -> same_store w w'.
Proof.
  rewrite generateRandomCode_run.
  destruct (slice.make x00 (service.numBytes length));
    [|intros [= _ <-]; apply same_store_refl..].
  destruct (_ <? _)%nat; intros [= _ <-]; now repeat split.
Qed.

Lemma GetByShortCode_same_store code w r w' :
  repository.GetByShortCode code w = (r, w') -> same_store w w'.
Proof. intros H. apply GetByShortCode_frame in H as ->. now repeat split. Qed.

Lemma generateShortCode_from_same_store config fuel : forall attempt w r w',
  service.generateShortCode_from config fuel attempt w = (r, w') ->
  same_store w w'.
Proof.
  induction fuel as [|fuel IH]; intros attempt w r w';
    cbn [service.generateShortCode_from].
  { intros [= _ <-]. apply same_store_refl. }
  destruct (service.generateRandomCode (service.ShortCodeLength config) w)
    as [[c|e|reason] w1] eqn:Hgen;
    pose proof (generateRandomCode_same_store _ _ _ _ Hgen) as H1.
  2: { rewrite (bind_Err _ _ _ _ _ (wrapf_Err _ _ _ _ _ Hgen)). now intros [= _ <-]. }
  2: { rewrite (bind_Panic _ _ _ _ _ (wrapf_Panic _ _ _ _ _ Hgen)).
       now intros [= _ <-]. }
  run (wrapf_Ok _ _ _ _ _ Hgen).
  unfold bind at 1, observe.
  destruct (repository.GetByShortCode c w1) as [[row|e|reason] w2] eqn:Hget;
    pose proof (GetByShortCode_same_store _ _ _ _ Hget) as H2;
    pose proof (same_store_trans _ _ _ H1 H2) as H12.
  - unfold bind at 1, slog at 1. intros H. apply IH in H.
    eapply same_store_trans; [exact H12|].
    eapply same_store_trans; [|exact H]. now repeat split.
  - destruct (errors.same e domain.ErrURLNotFound); now intros [= _ <-].
  - now intros [= _ <-].
Qed.

Lemma generateShortCode_from_fresh config fuel : forall attempt w code w',
  service.generateShortCode_from config fuel attempt w = (Ok code, w') ->
  existsb (pg.has_code code) (urls w') = false /\
  Z.of_nat (String.length code) = service.ShortCodeLength config /\
  Forall (fun c => is_alnum c = true) (list_ascii_of_string code).
Proof.
  induction fuel as [|fuel IH]; intros attempt w code w';
    cbn [service.generateShortCode_from]; [discriminate|].
  destruct (service.generateRandomCode (service.ShortCodeLength config) w)
    as [[c|e|reason] w1] eqn:Hgen.
  2: { now rewrite (bind_Err _ _ _ _ _ (wrapf_Err _ _ _ _ _ Hgen)). }
  2: { now rewrite (bind_Panic _ _ _ _ _ (wrapf_Panic _ _ _ _ _ Hgen)). }
  run (wrapf_Ok _ _ _ _ _ Hgen).
  unfold bind at 1, observe.
  destruct (repository.GetByShortCode c w1) as [[row|e|reason] w2] eqn:Hget;
    [| |discriminate].
  - unfold bind at 1, slog at 1. apply IH.
  - destruct (errors.same e domain.ErrURLNotFound) eqn:Hsame; [|discriminate].
    intros [= <- <-].
    pose proof (GetByShortCode_frame _ _ _ _ Hget) as ->.
    split.
    + revert Hget.
      unfold repository.GetByShortCode, bind at 1, observe, bind at 1, roundtrip.
      destruct (pg_fault w1 (roundtrips w1)).
      { cbn [errors.Is errors.same orb]. intros [= <-]. discriminate. }
      unfold pg.select_by_short_code. cbn [urls sent].
      destruct (find (pg.has_code c) (urls w1)) as [x|] eqn:Hx; [discriminate|].
      intros _. apply not_true_iff_false. intros Hex.
      apply existsb_exists in Hex as (x & Hin & Hc).
      eapply List.find_none in Hx; [|exact Hin]. congruence.
    + rewrite generateRandomCode_run in Hgen.
      destruct (slice.make x00 _); [|discriminate..].
      destruct (_ <? _)%nat; [discriminate|].
      injection Hgen as Hgen _. now apply code_of_bytes_Ok in Hgen.
Qed.

Lemma Create_Ok_length w url u w1 :
  repository.Create url w = (Ok u, w1) ->
  3 <= Z.of_nat (String.length (ShortCode url)) <= 20.
Proof.
  unfold repository.Create, bind at 1, observe, bind at 1, roundtrip.
  destruct (pg_fault w (roundtrips w)).
  { destruct (String.eqb _ _); discriminate. }
  unfold pg.insert. rewrite Z.gtb_ltb.
  destruct (Z.ltb_spec 20 (Z.of_nat (String.length (ShortCode url)))).
  { destruct (String.eqb _ _); discriminate. }
  destruct (Z.ltb_spec (Z.of_nat (String.length (ShortCode url))) 3).
  { destruct (String.eqb _ _); discriminate. }
  intros _. lia.
Qed.

(** Property X7. A code that [generateShortCode] returns is the code of no
    row of the table, and generating it has changed neither the table nor its
    sequence, and has not read the clock. *)
Theorem generated_code_is_fresh
    (config : service.URLConfig) (w w' : World) (code : string) :
  service.generateShortCode config w = (Ok code, w') ->
  (forall r, stored r w' -> ShortCode r <> code) /\
  same_store w w'.
Proof.
  intros H. split.
  - apply generateShortCode_from_fresh in H as (Hfresh & _).
    intros r Hr Hc.
    assert (existsb (pg.has_code code) (urls w') = true); [|congruence].
    apply existsb_exists. exists r. split; [exact Hr|]. now apply String.eqb_eq.
  - exact (generateShortCode_from_same_store _ _ _ _ _ _ H).
Qed.

Lemma generated_code_is_fresh_witness :
  (forall r, stored r (snd (service.generateShortCode sample_config sample_world)) ->
             ShortCode r <> "AAAAAAA") /\
  same_store sample_world (snd (service.generateShortCode sample_config sample_world)).
Proof.
  apply (generated_code_is_fresh sample_config sample_world
           (snd (service.generateShortCode sample_config sample_world)) "AAAAAAA").
  vm_compute. reflexivity.
Defined.

(** ** Creation *)

Lemma validateURL_Ok_inv parse rawURL w r w' :
  service.validateURL parse rawURL w = (r, w') ->
  w' = w /\
  (r = Ok tt /\ valid_url parse rawURL \/
   r = Err domain.ErrInvalidURL /\ ~ valid_url parse rawURL).
Proof.
  unfold service.validateURL, valid_url.
  destruct (String.eqb_spec rawURL EmptyString) as [E|E].
  { intros [= <- <-]. split; [reflexivity|]. right. split; [reflexivity|]. tauto. }
  destruct (parse rawURL) as [parsed|].
  2: { intros [= <- <-]. split; [reflexivity|]. right. split; [reflexivity|].
       intros (_ & p & [=] & _). }
  destruct (String.eqb_spec (service.Scheme parsed) "http") as [Hs|Hs];
    destruct (String.eqb_spec (service.Scheme parsed) "https") as [Hs'|Hs'];
    cbn [negb andb];
    try (destruct (String.eqb_spec (service.Host parsed) EmptyString) as [Hh|Hh]);
    intros [= <- <-]; (split; [reflexivity|]);
    try (left; split; [reflexivity|]; split; [exact E|];
         exists parsed; now auto);
    right; (split; [reflexivity|]); intros (_ & p & [= <-] & Hsch & Hhost);
    tauto.
Qed.

Lemma validateShortCode_Ok_inv code w r w' :
  service.validateShortCode code w = (r, w') ->
  w' = w /\
  (r = Ok tt /\ valid_short_code code \/
   r = Err domain.ErrInvalidShortCode /\ ~ valid_short_code code).
Proof.
  unfold service.validateShortCode, valid_short_code. rewrite Z.gtb_ltb.
  destruct (Z.ltb_spec (Z.of_nat (String.length code)) 3);
    [intros [= <- <-]; split; [reflexivity|]; right; split; [reflexivity|lia]|].
  destruct (Z.ltb_spec 20 (Z.of_nat (String.length code))); cbn [orb];
    [intros [= <- <-]; split; [reflexivity|]; right; split; [reflexivity|lia]|].
  destruct (forallb _ _); intros [= <- <-]; (split; [reflexivity|]).
  - left. split; [reflexivity|]. split; [lia|reflexivity].
  - right. split; [reflexivity|]. intros [_ [=]].
Qed.

Lemma Update_never_panics u w reason w' :
  repository.Update u w <> (Panic reason, w').
Proof.
  unfold repository.Update, bind at 1, wrapf, bind at 1, roundtrip.
  destruct (pg_fault w (roundtrips w)); [discriminate|].
  unfold pg.update_access.
  match goal with
  | |- context [if ?c then _ else _] => destruct c
  end; discriminate.
Qed.

Lemma GetOriginalURL_live w r :
  answers w 0 ->
  find (pg.has_code (ShortCode r)) (urls w) = Some r ->
  live_at (clock w (ticks w)) r ->
  exists w',
    service.GetOriginalURL (ShortCode r) w
      = (Ok (accessed r (access_instant w r)), w').
Proof.
  intros Hf Hfind Hlive.
  destruct (after_expiry_check_frame (sent w) r) as (Hu1 & Hr1 & Hf1 & Hc1 & Hl1).
  set (w1 := after_expiry_check (sent w) r) in *.
  set (r' := accessed r (access_instant w r)).
  assert (Hinc : domain.IncrementAccessCount r w1 = (Ok r', ticked w1)).
  { unfold domain.IncrementAccessCount, bind, time_Now, ret.
    subst r' w1. unfold accessed, access_instant.
    rewrite Hc1. do 4 f_equal. unfold after_expiry_check.
    destruct (ExpiresAt r); reflexivity. }
  unfold service.GetOriginalURL.
  run (GetByShortCode_found w _ r Hf Hfind).
  run (IsExpired_live (sent w) r Hlive). fold w1.
  run Hinc.
  destruct (repository.Update r' (ticked w1)) as [[[]|e|reason] w2] eqn:HU.
  - run (observe_Ok _ _ _ _ HU). eexists. reflexivity.
  - run (observe_Err _ _ _ _ HU). eexists. reflexivity.
  - now apply Update_never_panics in HU.
Qed.

Lemma alnum_code_char_ok c : is_alnum c = true -> service.code_char_ok c = true.
Proof.
  unfold is_alnum, service.code_char_ok. intros ->. reflexivity.
Qed.

Section Creation.

Variable ParseRequestURI : string -> option service.ParsedURL.
Variable config : service.URLConfig.

(** Property X8. A creation with a URL that [validateURL] refuses fails
    before anything else happens: the world is untouched (no code generated,
    no clock reading, no statement sent), the error wraps [ErrInvalidURL], and
    the handler answers it with HTTP 400. *)
Theorem invalid_url_is_refused_first
    (w : World) (originalURL customCode : string) (ttl : Z) :
  ~ valid_url ParseRequestURI originalURL ->
  exists err,
    service.CreateShortURL ParseRequestURI config originalURL customCode ttl w
      = (Err err, w) /\
    errors.Is err domain.ErrInvalidURL = true /\
    forall logMsg w',
      handler.handleServiceError err logMsg w'
        = (Ok (handler.mkResponse 400 "invalid url" EmptyString), w').
Proof.
  intros Hbad. exists (errors.Errorf_w "invalid url" domain.ErrInvalidURL).
  split; [|split; reflexivity]. unfold service.CreateShortURL.
  destruct (service.validateURL ParseRequestURI originalURL w) as [r w'] eqn:Hv.
  destruct (validateURL_Ok_inv _ _ _ _ _ Hv) as (-> & [[_ Hok]|[-> _]]);
    [contradiction|].
  now rewrite (bind_Err _ _ _ _ _ (wrapf_Err _ _ _ _ _ Hv)).
Qed.

(** Property X9. A creation with a valid URL and a custom code that
    [validateShortCode] refuses fails with [ErrInvalidShortCode] itself, not
    wrapped, with the world untouched; the handler answers it with
    HTTP 400. *)
Theorem invalid_custom_code_is_refused_first
    (w : World) (originalURL customCode : string) (ttl : Z) :
  valid_url ParseRequestURI originalURL ->
  customCode <> EmptyString ->
  ~ valid_short_code customCode ->
  service.CreateShortURL ParseRequestURI config originalURL customCode ttl w
    = (Err domain.ErrInvalidShortCode, w) /\
  forall logMsg w',
    handler.handleServiceError domain.ErrInvalidShortCode logMsg w'
      = (Ok (handler.mkResponse 400 "invalid short code" EmptyString), w').
Proof.
  intros Hurl Hne Hbad. split; [|reflexivity]. unfold service.CreateShortURL.
  run (wrapf_Ok _ _ _ _ _ (validateURL_valid _ _ w Hurl)).
  destruct (String.eqb_spec customCode EmptyString) as [E|_]; [contradiction|].
  cbn [negb].
  destruct (service.validateShortCode customCode w) as [r w'] eqn:Hv.
  destruct (validateShortCode_Ok_inv _ _ _ _ Hv) as (-> & [[_ Hok]|[-> _]]);
    [contradiction|].
  now rewrite (bind_Err _ _ _ _ _ (bind_Err _ _ _ _ _ Hv)).
Qed.

Lemma CreateShortURL_Ok_inv w originalURL customCode ttl u w1 :
  service.CreateShortURL ParseRequestURI config originalURL customCode ttl w
    = (Ok u, w1) ->
  valid_url ParseRequestURI originalURL /\
  exists w0,
    same_store w w0 /\
    (if String.eqb customCode EmptyString
     then service.generateShortCode config w = (Ok (ShortCode u), w0)
     else valid_short_code customCode /\ ShortCode u = customCode /\ w0 = w) /\
    u = mkURL (urls_id_seq w + 1) (ShortCode u) originalURL (clock w (ticks w))
          (if ttl >? 0 then Some (clock w (ticks w) + ttl)
           else if service.DefaultTTL config >? 0
                then Some (clock w (ticks w) + service.DefaultTTL config)
                else None)
          0 None /\
    existsb (pg.has_code (ShortCode u)) (urls w) = false /\
    urls w1 = urls w ++ [u] /\
    roundtrips w1 = S (roundtrips w0) /\
    3 <= Z.of_nat (String.length (ShortCode u)) <= 20.
Proof.
  intros H. unfold service.CreateShortURL in H.
  destruct (service.validateURL ParseRequestURI originalURL w) as [r w'] eqn:Hv.
  destruct (validateURL_Ok_inv _ _ _ _ _ Hv) as (-> & [[-> Hurl]|[-> _]]).
  2: { rewrite (bind_Err _ _ _ _ _ (wrapf_Err _ _ _ _ _ Hv)) in H. discriminate. }
  split; [exact Hurl|].
  run (wrapf_Ok _ _ _ _ _ Hv) in H.
  match type of H with
  | bind ?m _ _ = _ => destruct (m w) as [[code|e|reason] w0] eqn:Hcode
  end.
  2: { rewrite (bind_Err _ _ _ _ _ Hcode) in H. discriminate. }
  2: { rewrite (bind_Panic _ _ _ _ _ Hcode) in H. discriminate. }
  run Hcode in H.
  run (eq_refl : time_Now w0 = (Ok (clock w0 (ticks w0)), ticked w0)) in H.
  match type of H with
  | context [repository.Create ?entity] =>
      destruct (repository.Create entity (ticked w0)) as [[u'|e|reason] w'] eqn:HC
  end.
  2: { rewrite (bind_Err _ _ _ _ _ (wrapf_Err _ _ _ _ _ HC)) in H. discriminate. }
  2: { rewrite (bind_Panic _ _ _ _ _ (wrapf_Panic _ _ _ _ _ HC)) in H. discriminate. }
  run (wrapf_Ok _ _ _ _ _ HC) in H.
  unfold bind, slog, ret in H. injection H as <- <-.
  pose proof (Create_Ok_length _ _ _ _ HC) as Hlen. cbn [ShortCode] in Hlen.
  apply Create_Ok_inv in HC.
  cbn [ShortCode OriginalURL CreatedAt ExpiresAt AccessCount LastAccessed
       urls ticked urls_id_seq] in HC.
  destruct HC as (Hfresh & -> & ->). cbn [ShortCode].
  assert (Hsame : same_store w w0 /\
            (if String.eqb customCode EmptyString
             then service.generateShortCode config w = (Ok code, w0)
             else valid_short_code customCode /\ code = customCode /\ w0 = w)).
  { destruct (String.eqb_spec customCode EmptyString) as [E|E]; cbn [negb] in Hcode.
    - unfold wrapf in Hcode.
      destruct (service.generateShortCode config w) as [[c|e|reason] wg] eqn:Hg;
        [|discriminate..].
      injection Hcode as -> ->. split; [|reflexivity].
      exact (generateShortCode_from_same_store _ _ _ _ _ _ Hg).
    - destruct (service.validateShortCode customCode w) as [r wv] eqn:Hvc.
      destruct (validateShortCode_Ok_inv _ _ _ _ Hvc) as (-> & [[-> Hok]|[-> _]]).
      + run Hvc in Hcode. injection Hcode as <- <-.
        split; [apply same_store_refl|]. split; [exact Hok|split; reflexivity].
      + rewrite (bind_Err _ _ _ _ _ Hvc) in Hcode. discriminate. }
  destruct Hsame as [Hsame Hpath]. exists w0.
  destruct Hsame as (Hu & Hs & Hc & Ht).
  split; [now repeat split|]. split; [exact Hpath|].
  rewrite Hu, Hs, Hc, Ht in *.
  split; [reflexivity|]. split; [exact Hfresh|].
  split; [|split; [reflexivity|exact Hlen]].
  cbn [urls inserted logged set_urls ticked new_row ShortCode OriginalURL
       CreatedAt ExpiresAt AccessCount urls_id_seq].
  unfold new_row. cbn [urls_id_seq ticked ShortCode OriginalURL CreatedAt
    ExpiresAt AccessCount]. now rewrite Hu, Hs.
Qed.

(** Property X10. The record of a successful creation is the one row added
    to the table. It has the next identifier of the sequence, the URL given,
    the custom code when one was given, the first instant read from the clock
    as creation instant, a counter of zero and no last access. It expires
    [ttl] after its creation when [ttl] is positive, otherwise the default
    time to live after its creation when that is positive, and otherwise
    never. *)
Theorem created_record
    (w w1 : World) (originalURL customCode : string) (ttl : Z) (u : URL) :
  service.CreateShortURL ParseRequestURI config originalURL customCode ttl w
    = (Ok u, w1) ->
  urls w1 = urls w ++ [u] /\
  ID u = urls_id_seq w + 1 /\
  (customCode <> EmptyString -> ShortCode u = customCode) /\
  OriginalURL u = originalURL /\
  CreatedAt u = clock w (ticks w) /\
  AccessCount u = 0 /\ LastAccessed u = None /\
  (0 < ttl -> ExpiresAt u = Some (CreatedAt u + ttl)) /\
  (ttl <= 0 -> 0 < service.DefaultTTL config ->
     ExpiresAt u = Some (CreatedAt u + service.DefaultTTL config)) /\
  (ttl <= 0 -> service.DefaultTTL config <= 0 -> ExpiresAt u = None).
Proof.
  intros H. apply CreateShortURL_Ok_inv in H
    as (_ & w0 & _ & Hpath & Hu & _ & Hrows & _).
  split; [exact Hrows|].
  assert (Hcode : customCode <> EmptyString -> ShortCode u = customCode).
  { intros Hne. destruct (String.eqb_spec customCode EmptyString); [contradiction|].
    apply Hpath. }
  clear Hpath Hrows. rewrite Hu. cbn [ID ShortCode OriginalURL CreatedAt ExpiresAt
    AccessCount LastAccessed]. rewrite !Z.gtb_ltb.
  repeat split; try exact Hcode;
    intros; destruct (Z.ltb_spec 0 ttl); try lia;
    try (destruct (Z.ltb_spec 0 (service.DefaultTTL config)); try lia);
    reflexivity.
Qed.

(** Property X11. After a successful creation, with a custom or a generated
    code, a metadata read of the code of the record returns the record. The
    store is assumed to answer the read. *)
Theorem create_then_metadata
    (w w1 : World) (originalURL customCode : string) (ttl : Z) (u : URL) :
  service.CreateShortURL ParseRequestURI config originalURL customCode ttl w
    = (Ok u, w1) ->
  answers w1 0 ->
  service.GetURLMetadata (ShortCode u) w1 = (Ok u, sent w1).
Proof.
  intros H Hf. apply CreateShortURL_Ok_inv in H
    as (_ & w0 & _ & _ & _ & Hfresh & Hrows & _).
  unfold service.GetURLMetadata.
  erewrite bind_Ok; [reflexivity|].
  apply GetByShortCode_found; [exact Hf|].
  rewrite Hrows. now apply find_appended.
Qed.

(** Property X12. After a successful creation, a redirect read of the code
    made while the record is not expired returns the URL given at creation,
    with a counter of one and the instant of the access. The store is
    assumed to answer the read. *)
Theorem create_then_redirect
    (w w1 : World) (originalURL customCode : string) (ttl : Z) (u : URL) :
  service.CreateShortURL ParseRequestURI config originalURL customCode ttl w
    = (Ok u, w1) ->
  answers w1 0 ->
  live_at (clock w1 (ticks w1)) u ->
  exists r w2,
    service.GetOriginalURL (ShortCode u) w1 = (Ok r, w2) /\
    OriginalURL r = originalURL /\ ShortCode r = ShortCode u /\
    AccessCount r = 1 /\ LastAccessed r = Some (access_instant w1 u).
Proof.
  intros H Hf Hlive. apply CreateShortURL_Ok_inv in H
    as (_ & w0 & _ & _ & Hu & Hfresh & Hrows & _).
  destruct (GetOriginalURL_live w1 u Hf) as (w2 & Hrun); [|exact Hlive|].
  { rewrite Hrows. now apply find_appended. }
  assert (HO : OriginalURL u = originalURL) by now rewrite Hu.
  assert (HA : AccessCount u = 0) by now rewrite Hu.
  exists (accessed u (access_instant w1 u)), w2.
  split; [exact Hrun|]. unfold accessed.
  cbn [OriginalURL ShortCode AccessCount LastAccessed]. rewrite HA.
  now repeat split.
Qed.

(** Property X13. A creation without custom code succeeds only when the
    configured length lies between 3 and 20, the bounds of the column
    [short_code]; the code stored then has the configured length and is one
    that [validateShortCode] accepts. *)
Theorem generated_code_must_fit_the_column
    (w w1 : World) (originalURL : string) (ttl : Z) (u : URL) :
  service.CreateShortURL ParseRequestURI config originalURL EmptyString ttl w
    = (Ok u, w1) ->
  3 <= service.ShortCodeLength config <= 20 /\
  Z.of_nat (String.length (ShortCode u)) = service.ShortCodeLength config /\
  valid_short_code (ShortCode u).
Proof.
  intros H. apply CreateShortURL_Ok_inv in H
    as (_ & w0 & Hsame & Hpath & _ & _ & _ & _ & Hlen).
  cbn [String.eqb] in Hpath.
  apply generateShortCode_from_fresh in Hpath as (_ & Hshape & Halnum).
  split; [lia|]. split; [exact Hshape|]. split; [exact Hlen|].
  apply forallb_forall. intros c Hc. apply alnum_code_char_ok.
  rewrite List.Forall_forall in Halnum. now apply Halnum.
Qed.

End Creation.

Lemma invalid_url_is_refused_first_witness :
  exists err,
    service.CreateShortURL sample_parse sample_config "ftp://example.com" "summer" 0
      sample_world
    = (Err err, sample_world) /\
    errors.Is err domain.ErrInvalidURL = true /\
    forall logMsg w',
      handler.handleServiceError err logMsg w'
        = (Ok (handler.mkResponse 400 "invalid url" EmptyString), w').
Proof.
  apply (invalid_url_is_refused_first sample_parse sample_config sample_world
           "ftp://example.com" "summer" 0).
  intros (_ & parsed & Hp & _). discriminate.
Defined.

Lemma invalid_custom_code_is_refused_first_witness :
  service.CreateShortURL sample_parse sample_config "https://example.com/a" "a b" 0
    sample_world
  = (Err domain.ErrInvalidShortCode, sample_world).
Proof.
  refine (proj1 (invalid_custom_code_is_refused_first sample_parse sample_config sample_world
           "https://example.com/a" "a b" 0 _ _ _)).
  - split; [discriminate|]. eexists. split; [reflexivity|].
    split; [now right|discriminate].
  - discriminate.
  - intros [_ Hchars]. discriminate.
Defined.

Lemma created_record_witness :
  fst sample_created_ttl
    = Ok (mkURL 3 "summer" "https://example.com/a" 100 (Some 160) 0 None) /\
  urls (snd sample_created_ttl)
    = urls sample_world
      ++ [mkURL 3 "summer" "https://example.com/a" 100 (Some 160) 0 None].
Proof.
  split; [reflexivity|].
  apply (created_record sample_parse sample_config sample_world
           (snd sample_created_ttl) "https://example.com/a" "summer" 60
           (mkURL 3 "summer" "https://example.com/a" 100 (Some 160) 0 None)).
  reflexivity.
Defined.

Lemma create_then_metadata_witness :
  service.GetURLMetadata "summer" (snd sample_created_ttl)
  = (Ok (mkURL 3 "summer" "https://example.com/a" 100 (Some 160) 0 None),
     sent (snd sample_created_ttl)).
Proof.
  apply (create_then_metadata sample_parse sample_config sample_world
           (snd sample_created_ttl) "https://example.com/a" "summer" 60
           (mkURL 3 "summer" "https://example.com/a" 100 (Some 160) 0 None));
    reflexivity.
Defined.

Lemma create_then_redirect_witness :
  exists r w2,
    service.GetOriginalURL "summer" (snd sample_created_ttl) = (Ok r, w2) /\
    OriginalURL r = "https://example.com/a" /\ ShortCode r = "summer" /\
    AccessCount r = 1 /\ LastAccessed r = Some 102.
Proof.
  apply (create_then_redirect sample_parse sample_config sample_world
           (snd sample_created_ttl) "https://example.com/a" "summer" 60
           (mkURL 3 "summer" "https://example.com/a" 100 (Some 160) 0 None)).
  - reflexivity.
  - reflexivity.
  - intros e [= <-]. vm_compute. discriminate.
Defined.

Lemma generated_code_must_fit_the_column_witness :
  fst sample_generated
    = Ok (mkURL 3 "AAAAAAA" "https://example.com/a" 100 None 0 None) /\
  3 <= service.ShortCodeLength sample_config <= 20 /\
  Z.of_nat (String.length "AAAAAAA") = service.ShortCodeLength sample_config /\
  valid_short_code "AAAAAAA".
Proof.
  split; [vm_compute; reflexivity|].
  apply (generated_code_must_fit_the_column sample_parse sample_config sample_world
           (snd sample_generated) "https://example.com/a" 0
           (mkURL 3 "AAAAAAA" "https://example.com/a" 100 None 0 None)).
  vm_compute. reflexivity.
Defined.

(** ** The generator at its bounds *)

Lemma remap_never_fails fuel : forall i code rb result e,
  service.remap fuel i code rb result <> Err e.
Proof.
  induction fuel as [|fuel IH]; intros i code rb result e; cbn [service.remap];
    [discriminate|].
  unfold slice.index at 1. destruct (code !! i) as [c|]; cbn [rbind];
    [|discriminate].
  destruct (service.is_dash_or_underscore c).
  - unfold slice.index. destruct (rb !! i) as [b|]; cbn [rbind]; [|discriminate].
    unfold service.charset_at, slice.index.
    destruct (_ <? 0); cbn [rbind]; [discriminate|].
    destruct (_ !! _); cbn [rbind]; [|discriminate].
    unfold slice.assign. destruct (_ <? _)%nat; cbn [rbind]; [apply IH|discriminate].
  - cbn [rbind]. unfold slice.assign.
    destruct (_ <? _)%nat; cbn [rbind]; [apply IH|discriminate].
Qed.

Lemma code_of_bytes_too_short length rb :
  code_of_bytes length rb = Err (errors.Errorf "generated code too short") ->
  Z.of_nat (List.length (base64.encode rb)) < length.
Proof.
  unfold code_of_bytes, base64.EncodeToString.
  rewrite list_ascii_of_string_of_list_ascii.
  destruct (Z.ltb_spec (Z.of_nat (List.length (base64.encode rb))) length);
    [intros _; assumption|].
  unfold slice.upto. destruct (_ || _); cbn [rbind]; [discriminate|].
  unfold slice.make. destruct (_ || _); cbn [rbind]; [discriminate|].
  destruct (service.remap _ _ _ _ _) eqn:Hr; cbn [rbind]; [discriminate| |discriminate].
  now apply remap_never_fails in Hr.
Qed.

Lemma make_never_fails {A} (z : A) n e : slice.make z n <> Err e.
Proof. unfold slice.make. destruct (_ || _); discriminate. Qed.

(** Property X14. [generateRandomCode] returns its error
    [generated code too short] only for a length above the largest slice the
    runtime allocates, where [length * 6] has wrapped around: for every
    length that can be allocated the encoding of the random bytes is long
    enough and the test never fires. *)
Theorem too_short_needs_overflow (length : Z) (w w' : World) :
  service.generateRandomCode length w
    = (Err (errors.Errorf "generated code too short"), w') ->
  slice.maxAlloc < length.
Proof.
  rewrite generateRandomCode_run.
  destruct (slice.make x00 (service.numBytes length)) as [buf|e|reason] eqn:Hmake;
    [|now apply make_never_fails in Hmake|discriminate].
  apply make_Ok_inv in Hmake as [-> Hnb]. rewrite length_replicate.
  destruct (Nat.ltb_spec (List.length (entropy w)) (Z.to_nat (service.numBytes length)))
    as [|Hent]; [discriminate|].
  intros [= H _]. apply code_of_bytes_too_short in H.
  pose proof (length_encode_bound (take (Z.to_nat (service.numBytes length)) (entropy w)))
    as Hb.
  rewrite length_take in Hb.
  destruct (Z.le_gt_cases length slice.maxAlloc) as [Hle|Hgt]; [exfalso|lia].
  destruct (Z.le_gt_cases 0 length) as [Hpos|Hneg]; [|lia].
  assert (Hsmall : 0 <= length < 2 ^ 60) by (unfold slice.maxAlloc in Hle; lia).
  rewrite (numBytes_small _ Hsmall) in *.
  pose proof (Z.div_mod (6 * length + 7) 8). pose proof (Z.mod_pos_bound (6 * length + 7) 8).
  lia.
Qed.

Lemma too_short_needs_overflow_witness :
  fst (service.generateRandomCode 3074457345618258603 sample_world)
    = Err (errors.Errorf "generated code too short") /\
  slice.maxAlloc < 3074457345618258603.
Proof.
  split; [vm_compute; reflexivity|].
  apply (too_short_needs_overflow 3074457345618258603 sample_world
           (snd (service.generateRandomCode 3074457345618258603 sample_world))).
  vm_compute. reflexivity.
Defined.

Lemma generateRandomCode_enough length w :
  0 <= length <= slice.maxAlloc ->
  length <= service.numBytes length <= slice.maxAlloc ->
  let n := Z.to_nat (service.numBytes length) in
  ((n <= List.length (entropy w))%nat ->
     exists code,
       service.generateRandomCode length w
         = (Ok code, set_entropy w (drop n (entropy w)))) /\
  ((List.length (entropy w) < n)%nat ->
     service.generateRandomCode length w = (Err read_failure, w)).
Proof.
  intros HL Hnb n. rewrite generateRandomCode_run, make_Ok by lia.
  rewrite length_replicate. fold n. split; intros Hent.
  - destruct (Nat.ltb_spec (List.length (entropy w)) n); [lia|].
    set (rb := take n (entropy w)).
    assert (Hrb : List.length rb = n) by (subst rb; rewrite length_take; lia).
    rewrite code_of_bytes_collect by (rewrite ?Hrb; subst n; lia).
    pose proof (length_encode_bound rb) as Henc.
    assert (Hok : is_ok (collect (remap_at (base64.encode rb) rb) 0 (Z.to_nat length))
                  = true).
    { apply collect_all_ok. intros j Hj.
      destruct (remap_at_total (base64.encode rb) rb j) as [x ->];
        [subst n; lia|subst n; lia|reflexivity]. }
    destruct (collect _ 0 (Z.to_nat length)) as [xs|e|reason]; [|discriminate..].
    cbn [rbind]. eexists. reflexivity.
  - destruct (Nat.ltb_spec (List.length (entropy w)) n); [reflexivity|lia].
Qed.

Lemma numBytes_up_to_3 length :
  0 <= length <= 3 -> service.numBytes length = length.
Proof.
  intros H.
  assert (E : length = 0 \/ length = 1 \/ length = 2 \/ length = 3) by lia.
  destruct E as [->|[->|[->| ->]]]; reflexivity.
Qed.

(** Property X15. For a length from 0 to 3 the buffer of random bytes is as
    long as the code, and [generateRandomCode] never panics: it returns a
    code, consuming [length] bytes of entropy, or fails with the error of the
    random source when that has fewer bytes. *)
Theorem short_codes_never_panic (length : Z) (w : World) :
  0 <= length <= 3 ->
  service.numBytes length = length /\
  ((Z.to_nat length <= List.length (entropy w))%nat ->
     exists code,
       service.generateRandomCode length w
         = (Ok code, set_entropy w (drop (Z.to_nat length) (entropy w)))) /\
  ((List.length (entropy w) < Z.to_nat length)%nat ->
     service.generateRandomCode length w = (Err read_failure, w)).
Proof.
  intros HL. pose proof (numBytes_up_to_3 length HL) as Hnb.
  split; [exact Hnb|].
  pose proof (generateRandomCode_enough length w) as H. rewrite Hnb in H.
  apply H; unfold slice.maxAlloc; lia.
Qed.

Lemma short_codes_never_panic_witness :
  service.numBytes 3 = 3 /\
  ((3 <= List.length (entropy sample_world))%nat ->
     exists code,
       service.generateRandomCode 3 sample_world
         = (Ok code, set_entropy sample_world (drop 3 (entropy sample_world)))) /\
  ((List.length (entropy sample_world) < 3)%nat ->
     service.generateRandomCode 3 sample_world = (Err read_failure, sample_world)).
Proof. apply (short_codes_never_panic 3 sample_world). lia. Defined.

(** ** Expiry: the redirect read and the sweep agree *)

(** Property X16. [IsExpired] answers what the condition of the sweep,
    [expires_at IS NOT NULL AND expires_at < now], answers at the instant it
    reads: a record is expired strictly after its expiry, and a record
    without expiry never is, without the clock being read. *)
Theorem expiry_agrees_with_sweep (w : World) (r : URL) :
  exists w',
    domain.IsExpired r w = (Ok (pg.expired_before (clock w (ticks w)) r), w') /\
    urls w' = urls w /\
    (ExpiresAt r = None -> w' = w).
Proof.
  unfold domain.IsExpired, pg.expired_before.
  destruct (ExpiresAt r) as [e|].
  - exists (ticked w). unfold bind, time_Now, ret. rewrite Z.gtb_ltb.
    split; [reflexivity|]. split; [reflexivity|discriminate].
  - exists w. repeat split.
Qed.

(** ** Listing *)

Lemma insert_desc_perm r rows : Permutation (r :: rows) (pg.insert_desc r rows).
Proof.
  induction rows as [|x rows IH]; cbn [pg.insert_desc]; [reflexivity|].
  destruct (CreatedAt x <? CreatedAt r); [reflexivity|].
  rewrite perm_swap. now constructor.
Qed.

Lemma order_by_perm rows : Permutation rows (pg.order_by_created_at_desc rows).
Proof.
  unfold pg.order_by_created_at_desc.
  induction rows as [|x rows IH]; cbn [fold_right]; [reflexivity|].
  rewrite <- insert_desc_perm. now constructor.
Qed.

Lemma newest_first_cons x rows :
  newest_first (x :: rows) <->
  Forall (fun y => CreatedAt y <= CreatedAt x) rows /\ newest_first rows.
Proof.
  unfold newest_first. split.
  - intros H. split.
    + apply Forall_lookup_2. intros j y Hy. apply (H 0%nat (S j) x y); [lia|easy|easy].
    + intros i j a b Hij Ha Hb. apply (H (S i) (S j)); [lia|easy|easy].
  - intros [Hx H] i j a b Hij Ha Hb.
    destruct i as [|i]; destruct j as [|j]; try lia.
    + cbn in Ha, Hb. injection Ha as <-. injection Hb as <-. lia.
    + cbn in Ha, Hb. injection Ha as <-.
      exact (Forall_lookup_1 _ _ _ _ Hx Hb).
    + cbn in Ha, Hb. apply (H i j); [lia|easy|easy].
Qed.

Lemma insert_desc_sorted r rows :
  newest_first rows -> newest_first (pg.insert_desc r rows).
Proof.
  induction rows as [|x rows IH]; cbn [pg.insert_desc]; intros Hs.
  - apply newest_first_cons. split; [constructor|exact Hs].
  - apply newest_first_cons in Hs as [Hx Hs].
    destruct (Z.ltb_spec (CreatedAt x) (CreatedAt r)).
    + apply newest_first_cons. split.
      * constructor; [lia|]. eapply List.Forall_impl; [|exact Hx].
        cbv beta. intros y Hy. lia.
      * apply newest_first_cons. now split.
    + apply newest_first_cons. split; [|now apply IH].
      rewrite <- insert_desc_perm. constructor; [lia|exact Hx].
Qed.

Lemma order_by_sorted rows : newest_first (pg.order_by_created_at_desc rows).
Proof.
  unfold pg.order_by_created_at_desc.
  induction rows as [|x rows IH]; cbn [fold_right].
  - intros i j a b _ Ha. discriminate.
  - now apply insert_desc_sorted.
Qed.

Lemma window_sorted limit offset rows : newest_first (pg.window limit offset rows).
Proof.
  unfold pg.window. intros i j a b Hij Ha Hb.
  apply lookup_take_Some in Ha as [Ha _]. apply lookup_take_Some in Hb as [Hb _].
  rewrite lookup_drop in Ha, Hb.
  eapply (order_by_sorted rows); [|exact Ha|exact Hb]. lia.
Qed.

Lemma ListURLs_Ok_inv limit offset w page total w' :
  service.ListURLs limit offset w = (Ok (page, total), w') ->
  let l := if (limit <=? 0) || (limit >? 100) then 20 else limit in
  let o := if offset <? 0 then 0 else offset in
  page = pg.window l o (urls w) /\ total = Z.of_nat (List.length (urls w)) /\
  urls w' = urls w.
Proof.
  unfold service.ListURLs.
  set (l := if (limit <=? 0) || (limit >? 100) then 20 else limit).
  set (o := if offset <? 0 then 0 else offset).
  assert (Hl : 0 < l <= 100).
  { subst l. destruct (Z.leb_spec limit 0); simpl; [lia|].
    rewrite Z.gtb_ltb. destruct (Z.ltb_spec 100 limit); lia. }
  assert (Ho : 0 <= o) by (subst o; destruct (Z.ltb_spec offset 0); lia).
  unfold bind at 1, wrapf at 1, repository.List, wrapf at 1, bind at 1, roundtrip.
  destruct (pg_fault w (roundtrips w)); [discriminate|].
  unfold pg.select_page.
  destruct (Z.ltb_spec l 0); [lia|]. destruct (Z.ltb_spec o 0); [lia|].
  unfold bind at 1, wrapf at 1, repository.Count, wrapf at 1, bind at 1, roundtrip.
  cbn [pg_fault sent roundtrips].
  destruct (pg_fault w (S (roundtrips w))); [discriminate|].
  unfold pg.count, ret. cbn [urls sent]. intros [= <- <- <-]. repeat split.
Qed.

Lemma window_length limit offset rows :
  (List.length (pg.window limit offset rows) <= Z.to_nat limit)%nat /\
  (List.length (pg.window limit offset rows) <= List.length rows)%nat.
Proof.
  unfold pg.window. rewrite length_take, length_drop.
  rewrite <- (Permutation_length (order_by_perm rows)). lia.
Qed.

Lemma window_stored limit offset rows r :
  In r (pg.window limit offset rows) -> In r rows.
Proof.
  unfold pg.window. intros H.
  apply list_elem_of_In. rewrite (order_by_perm rows). apply list_elem_of_In.
  apply list_elem_of_In in H. apply list_elem_of_In.
  eapply subseteq_drop, subseteq_take, H.
Qed.

(** Property X17. A listing that succeeds returns at most 100 records, at
    most [limit] of them when [limit] lies in (0, 100], never more than the
    total it reports, which is the number of rows, and only records of the
    table. *)
Theorem listing_is_bounded
    (w w' : World) (limit offset : Z) (page : list URL) (total : Z) :
  service.ListURLs limit offset w = (Ok (page, total), w') ->
  (List.length page <= 100)%nat /\
  (0 < limit <= 100 -> Z.of_nat (List.length page) <= limit) /\
  Z.of_nat (List.length page) <= total /\
  total = Z.of_nat (List.length (urls w)) /\
  (forall r, In r page -> stored r w).
Proof.
  intros H. apply ListURLs_Ok_inv in H. cbv zeta in H.
  destruct H as (-> & -> & _).
  match goal with
  | |- context [pg.window ?l ?o (urls w)] =>
      pose proof (window_length l o (urls w)) as [Hlen Hrows];
      set (lim := l) in *
  end.
  assert (Hl : 0 < lim <= 100 /\ (0 < limit <= 100 -> lim = limit)).
  { subst lim. destruct (Z.leb_spec limit 0); simpl; [lia|].
    rewrite Z.gtb_ltb. destruct (Z.ltb_spec 100 limit); lia. }
  split; [lia|]. split; [intros Hlim; lia|]. split; [lia|]. split; [reflexivity|].
  intros r. apply window_stored.
Qed.

Lemma listing_is_bounded_witness :
  (List.length (pg.window 20 0 (urls sample_world)) <= 100)%nat /\
  (0 < 500 <= 100 -> Z.of_nat (List.length (pg.window 20 0 (urls sample_world))) <= 500) /\
  Z.of_nat (List.length (pg.window 20 0 (urls sample_world))) <= 2 /\
  2 = Z.of_nat (List.length (urls sample_world)) /\
  (forall r, In r (pg.window 20 0 (urls sample_world)) -> stored r sample_world).
Proof.
  apply (listing_is_bounded sample_world
           (snd (service.ListURLs 500 (-3) sample_world)) 500 (-3)).
  reflexivity.
Defined.

(** Property X18. A listing that succeeds returns its records newest
    first; from the start of the table, with a limit in (0, 100] that the
    total does not exceed, it returns every row once. *)
Theorem listing_newest_first
    (w w' : World) (limit offset : Z) (page : list URL) (total : Z) :
  service.ListURLs limit offset w = (Ok (page, total), w') ->
  newest_first page /\
  (offset <= 0 -> 0 < limit <= 100 -> total <= limit -> Permutation (urls w) page).
Proof.
  intros H. apply ListURLs_Ok_inv in H. cbv zeta in H.
  destruct H as (-> & -> & _). split; [apply window_sorted|].
  intros Ho Hl Ht.
  destruct (Z.leb_spec limit 0); [lia|]. rewrite Z.gtb_ltb.
  destruct (Z.ltb_spec 100 limit); [lia|]. cbn [orb].
  assert (Hzero : Z.to_nat (if offset <? 0 then 0 else offset) = 0%nat)
    by (destruct (Z.ltb_spec offset 0); lia).
  unfold pg.window. rewrite Hzero, drop_0.
  rewrite take_ge; [apply order_by_perm|].
  rewrite <- (Permutation_length (order_by_perm (urls w))). lia.
Qed.

Lemma listing_newest_first_witness :
  newest_first [sample_live; sample_expired] /\
  (0 <= 0 -> 0 < 50 <= 100 -> 2 <= 50 ->
   Permutation (urls sample_world) [sample_live; sample_expired]).
Proof.
  apply (listing_newest_first sample_world
           (snd (service.ListURLs 50 0 sample_world)) 50 0
           [sample_live; sample_expired] 2).
  reflexivity.
Defined.

(** ** The full short URL *)

Lemma length_append (a b : string) :
  String.length (a ++ b) = (String.length a + String.length b)%nat.
Proof. induction a as [|c a IH]; cbn; [reflexivity|now rewrite IH]. Qed.

Lemma substring_all (s : string) : String.substring 0 (String.length s) s = s.
Proof. induction s as [|c s IH]; cbn; [reflexivity|now rewrite IH]. Qed.

Lemma substring_prefix (a b : string) :
  String.substring 0 (String.length a) (a ++ b) = a.
Proof.
  induction a as [|c a IH]; cbn.
  - now destruct b.
  - now rewrite IH.
Qed.

Lemma substring_suffix (a b : string) :
  String.substring (String.length a) (String.length b) (a ++ b) = b.
Proof.
  induction a as [|c a IH]; cbn; [apply substring_all|exact IH].
Qed.

Lemma substring_split (s : string) (n : nat) :
  (n <= String.length s)%nat ->
  s = (String.substring 0 n s ++ String.substring n (String.length s - n) s)%string.
Proof.
  revert n. induction s as [|c s IH]; intros n Hn.
  - cbn in Hn. replace n with 0%nat by lia. reflexivity.
  - destruct n as [|n].
    + change (String.substring 0 0 (String c s)) with EmptyString.
      cbn [String.append]. now rewrite Nat.sub_0_r, substring_all.
    + cbn in Hn. cbn. f_equal. apply IH. lia.
Qed.

Lemma HasSuffix_app (b suffix : string) :
  strings.HasSuffix (b ++ suffix) suffix = true.
Proof.
  unfold strings.HasSuffix. rewrite length_append.
  replace (String.length b + String.length suffix - String.length suffix)%nat
    with (String.length b) by lia.
  rewrite substring_suffix, String.eqb_refl.
  destruct (Nat.leb_spec (String.length suffix) (String.length b + String.length suffix));
    [reflexivity|lia].
Qed.

Lemma TrimSuffix_app (b suffix : string) :
  strings.TrimSuffix (b ++ suffix) suffix = b.
Proof.
  unfold strings.TrimSuffix. rewrite HasSuffix_app, length_append.
  replace (String.length b + String.length suffix - String.length suffix)%nat
    with (String.length b) by lia.
  apply substring_prefix.
Qed.

Lemma HasSuffix_split (s suffix : string) :
  strings.HasSuffix s suffix = true ->
  s = (strings.TrimSuffix s suffix ++ suffix)%string.
Proof.
  intros H. unfold strings.TrimSuffix. rewrite H.
  unfold strings.HasSuffix in H. apply andb_true_iff in H as [Hlen Heq].
  apply Nat.leb_le in Hlen. apply String.eqb_eq in Heq.
  rewrite (substring_split s (String.length s - String.length suffix)) at 1 by lia.
  f_equal.
  replace (String.length s - (String.length s - String.length suffix))%nat
    with (String.length suffix) by lia.
  exact Heq.
Qed.

(** Property X19. [GetFullURL] joins the base URL and the code with one
    slash, whether or not the base URL ends with a slash: one final slash of
    the base URL is dropped, and only one. *)
Theorem full_url_trailing_slash (config : service.URLConfig) (shortCode : string) :
  (forall b, service.BaseURL config = (b ++ "/")%string ->
     service.GetFullURL config shortCode = (b ++ "/" ++ shortCode)%string) /\
  ((forall b, service.BaseURL config <> (b ++ "/")%string) ->
     service.GetFullURL config shortCode
       = (service.BaseURL config ++ "/" ++ shortCode)%string).
Proof.
  unfold service.GetFullURL. split.
  - intros b ->. now rewrite TrimSuffix_app.
  - intros Hno.
    destruct (strings.HasSuffix (service.BaseURL config) "/") eqn:Hs.
    + apply HasSuffix_split in Hs. now apply Hno in Hs.
    + unfold strings.TrimSuffix. now rewrite Hs.
Qed.

(** ** Errors of the service as responses *)

(** Property X20. [handleServiceError] always answers, with one of six
    fixed pairs of status and text and an empty message: the text of the
    error itself is never sent. With a status other than 500 nothing else
    happens; with 500 the error is none of the five sentinels and its text is
    written to the log, under the message of the caller. *)
Theorem service_errors_never_leak (err : errors.error) (logMsg : string) (w : World) :
  exists e w',
    handler.handleServiceError err logMsg w = (Ok e, w') /\
    handler.Message e = EmptyString /\
    In (handler.Status e, handler.Error e)
       [(404, "url not found"); (410, "url has expired"); (400, "invalid url");
        (409, "short code already exists"); (400, "invalid short code");
        (500, "internal server error")] /\
    (handler.Status e <> 500 -> w' = w) /\
    (handler.Status e = 500 ->
       w' = logged w (mkLog LevelError logMsg [AString "error" (errors.Error err)]) /\
       errors.Is err domain.ErrURLNotFound = false /\
       errors.Is err domain.ErrURLExpired = false /\
       errors.Is err domain.ErrInvalidURL = false /\
       errors.Is err domain.ErrShortCodeAlreadyExists = false /\
       errors.Is err domain.ErrInvalidShortCode = false).
Proof.
  unfold handler.handleServiceError.
  destruct (errors.Is err domain.ErrURLNotFound);
    [eexists _, _; split; [reflexivity|]; cbn; intuition (discriminate || auto)|].
  destruct (errors.Is err domain.ErrURLExpired);
    [eexists _, _; split; [reflexivity|]; cbn; intuition (discriminate || auto)|].
  destruct (errors.Is err domain.ErrInvalidURL);
    [eexists _, _; split; [reflexivity|]; cbn; intuition (discriminate || auto)|].
  destruct (errors.Is err domain.ErrShortCodeAlreadyExists);
    [eexists _, _; split; [reflexivity|]; cbn; intuition (discriminate || auto)|].
  destruct (errors.Is err domain.ErrInvalidShortCode);
    [eexists _, _; split; [reflexivity|]; cbn; intuition (discriminate || auto)|].
  eexists _, _. split; [reflexivity|]. cbn. intuition (discriminate || auto).
Qed.

(** ** The handlers *)

Lemma handleServiceError_runs err logMsg w :
  exists e w', handler.handleServiceError err logMsg w = (Ok e, w').
Proof.
  unfold handler.handleServiceError.
  repeat match goal with
         | |- context [if ?c then _ else _] => destruct c
         end; eexists _, _; reflexivity.
Qed.

Lemma GetOriginalURL_expired w r e :
  answers w 0 ->
  find (pg.has_code (ShortCode r)) (urls w) = Some r ->
  ExpiresAt r = Some e -> e < clock w (ticks w) ->
  service.GetOriginalURL (ShortCode r) w =
    (Err domain.ErrURLExpired,
     logged (ticked (sent w))
       (mkLog LevelWarn "attempted to access expired url"
              [AString "short_code" (ShortCode r)])).
Proof.
  intros Hf Hfind He Hlt. unfold service.GetOriginalURL.
  run (GetByShortCode_found w _ r Hf Hfind).
  unfold domain.IsExpired. rewrite He.
  unfold bind, time_Now, ret, slog, throw. cbn [clock ticks sent].
  replace (clock w (ticks w) >? e) with true by (symmetry; apply Z.gtb_lt; lia).
  reflexivity.
Qed.

Lemma eqb_nonempty (s : string) : s <> EmptyString -> String.eqb s EmptyString = false.
Proof. intros H. now apply String.eqb_neq. Qed.

Lemma absent_find w code :
  (forall r, stored r w -> ShortCode r <> code) ->
  find (pg.has_code code) (urls w) = None.
Proof.
  intros Hno. apply find_absent. intros r Hr.
  unfold pg.has_code. apply String.eqb_neq. now apply Hno.
Qed.

(** Property X21. GET /{shortCode} for a stored record that is not expired
    redirects to its original URL with HTTP 301, and logs the redirection.
    The store is assumed to answer the lookup. *)
Theorem redirect_handler_moves_permanently (w : World) (r : URL) :
  store_ok w -> stored r w -> ShortCode r <> EmptyString -> answers w 0 ->
  live_at (clock w (ticks w)) r ->
  exists w',
    handler.RedirectToOriginal (ShortCode r) w
      = (Ok (handler.Redirected (OriginalURL r) 301), w') /\
    last_log w' = Some (mkLog LevelDebug "redirecting"
                          [AString "short_code" (ShortCode r);
                           AString "original_url" (OriginalURL r)]).
Proof.
  intros [Hc _] Hin Hne Hf Hlive.
  destruct (GetOriginalURL_live w r Hf (find_has_code _ _ Hc Hin) Hlive)
    as (w1 & Hrun).
  unfold handler.RedirectToOriginal. rewrite (eqb_nonempty _ Hne).
  run (observe_Ok _ _ _ _ Hrun).
  eexists. split; [reflexivity|].
  unfold last_log. cbn [logs logged]. now rewrite last_snoc.
Qed.

Lemma redirect_handler_moves_permanently_witness :
  exists w',
    handler.RedirectToOriginal "docs" sample_world
      = (Ok (handler.Redirected "https://example.org/docs" 301), w') /\
    last_log w' = Some (mkLog LevelDebug "redirecting"
                          [AString "short_code" "docs";
                           AString "original_url" "https://example.org/docs"]).
Proof.
  apply (redirect_handler_moves_permanently sample_world sample_live).
  - exact sample_world_ok.
  - right. now left.
  - discriminate.
  - reflexivity.
  - discriminate.
Defined.

(** Property X22. GET /{shortCode} for a stored record whose expiry is
    before the instant read is answered with HTTP 410, and the table is left
    as it was. The store is assumed to answer the lookup. *)
Theorem redirect_handler_gone (w : World) (r : URL) (e : Z) :
  store_ok w -> stored r w -> ShortCode r <> EmptyString -> answers w 0 ->
  ExpiresAt r = Some e -> e < clock w (ticks w) ->
  exists w',
    handler.RedirectToOriginal (ShortCode r) w
      = (Ok (handler.Refused (handler.mkResponse 410 "url has expired" EmptyString)),
         w') /\
    urls w' = urls w.
Proof.
  intros [Hc _] Hin Hne Hf He Hlt.
  pose proof (GetOriginalURL_expired w r e Hf (find_has_code _ _ Hc Hin) He Hlt)
    as Hrun.
  unfold handler.RedirectToOriginal. rewrite (eqb_nonempty _ Hne).
  run (observe_Err _ _ _ _ Hrun).
  eexists. split; reflexivity.
Qed.

Lemma redirect_handler_gone_witness :
  exists w',
    handler.RedirectToOriginal "promo24" sample_world
      = (Ok (handler.Refused (handler.mkResponse 410 "url has expired" EmptyString)),
         w') /\
    urls w' = urls sample_world.
Proof.
  apply (redirect_handler_gone sample_world sample_expired 50).
  - exact sample_world_ok.
  - now left.
  - discriminate.
  - reflexivity.
  - reflexivity.
  - cbn. lia.
Defined.

(** Property X23. For a code that no row has, the redirect, the metadata
    read and the deletion are all answered with HTTP 404 and the text
    [url not found], after one statement and nothing else: the error of the
    deletion is found through its wrapping. The store is assumed to
    answer. *)
Theorem unknown_code_is_404 (w : World) (code : string) :
  code <> EmptyString -> answers w 0 ->
  (forall r, stored r w -> ShortCode r <> code) ->
  let not_found :=
    handler.Refused (handler.mkResponse 404 "url not found" EmptyString) in
  handler.RedirectToOriginal code w = (Ok not_found, sent w) /\
  handler.GetURLMetadata code w = (Ok not_found, sent w) /\
  handler.DeleteURL code w = (Ok not_found, sent w).
Proof.
  intros Hne Hf Hno not_found.
  pose proof (GetByShortCode_missing w code Hf (absent_find w code Hno)) as Hget.
  split; [|split].
  - unfold handler.RedirectToOriginal. rewrite (eqb_nonempty _ Hne).
    erewrite bind_Ok; cycle 1.
    { apply observe_Err. unfold service.GetOriginalURL.
      now rewrite (bind_Err _ _ _ _ _ Hget). }
    reflexivity.
  - unfold handler.GetURLMetadata. rewrite (eqb_nonempty _ Hne).
    erewrite bind_Ok; cycle 1.
    { apply observe_Err. unfold service.GetURLMetadata.
      now rewrite (bind_Err _ _ _ _ _ Hget). }
    reflexivity.
  - unfold handler.DeleteURL. rewrite (eqb_nonempty _ Hne).
    erewrite bind_Ok; cycle 1.
    { apply observe_Err. unfold service.DeleteURL.
      erewrite bind_Err; [reflexivity|]. apply wrapf_Err.
      rewrite Delete_run by exact Hf.
      replace (existsb (pg.has_code code) (urls w)) with false; [reflexivity|].
      symmetry. apply not_true_iff_false. intros Hex.
      apply existsb_exists in Hex as (r & Hr & Hcode).
      apply (Hno r Hr). now apply String.eqb_eq. }
    reflexivity.
Qed.

Lemma unknown_code_is_404_witness :
  handler.RedirectToOriginal "nothere" sample_world
    = (Ok (handler.Refused (handler.mkResponse 404 "url not found" EmptyString)),
       sent sample_world) /\
  handler.GetURLMetadata "nothere" sample_world
    = (Ok (handler.Refused (handler.mkResponse 404 "url not found" EmptyString)),
       sent sample_world) /\
  handler.DeleteURL "nothere" sample_world
    = (Ok (handler.Refused (handler.mkResponse 404 "url not found" EmptyString)),
       sent sample_world).
Proof.
  apply (unknown_code_is_404 sample_world "nothere"); [discriminate|reflexivity|].
  intros r [<-|[<-|[]]]; discriminate.
Defined.

(** Property X24. When the store fails the statement, the redirect, the
    metadata read and the deletion are answered with HTTP 500 and the text
    [internal server error]; the message of the driver goes to the log, under
    the message of the handler, and not into the response. *)
Theorem store_failure_is_500 (w : World) (code text : string) :
  code <> EmptyString ->
  pg_fault w (roundtrips w) = Some text ->
  let internal :=
    handler.Refused (handler.mkResponse 500 "internal server error" EmptyString) in
  let entry logMsg prefix :=
    mkLog LevelError logMsg
          [AString "error" (prefix ++ ": " ++ text)%string] in
  handler.RedirectToOriginal code w
    = (Ok internal,
       logged (sent w) (entry "failed to get original url"
                              "failed to get url by short code")) /\
  handler.GetURLMetadata code w
    = (Ok internal,
       logged (sent w) (entry "failed to get url metadata"
                              "failed to get url by short code")) /\
  handler.DeleteURL code w
    = (Ok internal,
       logged (sent w) (entry "failed to delete url"
                              "failed to delete url: failed to delete url")).
Proof.
  intros Hne Hfault internal entry.
  pose proof (GetByShortCode_fault w code text Hfault) as Hget.
  split; [|split].
  - unfold handler.RedirectToOriginal. rewrite (eqb_nonempty _ Hne).
    erewrite bind_Ok; cycle 1.
    { apply observe_Err. unfold service.GetOriginalURL.
      now rewrite (bind_Err _ _ _ _ _ Hget). }
    reflexivity.
  - unfold handler.GetURLMetadata. rewrite (eqb_nonempty _ Hne).
    erewrite bind_Ok; cycle 1.
    { apply observe_Err. unfold service.GetURLMetadata.
      now rewrite (bind_Err _ _ _ _ _ Hget). }
    reflexivity.
  - unfold handler.DeleteURL. rewrite (eqb_nonempty _ Hne).
    erewrite bind_Ok; cycle 1.
    { apply observe_Err. unfold service.DeleteURL.
      erewrite bind_Err; [reflexivity|]. apply wrapf_Err.
      exact (Delete_fault _ _ _ Hfault). }
    reflexivity.
Qed.

Lemma store_failure_is_500_witness :
  fst (handler.GetURLMetadata "docs" down_world)
    = Ok (handler.Refused (handler.mkResponse 500 "internal server error" EmptyString)).
Proof.
  destruct (store_failure_is_500 down_world "docs" "conn closed") as (_ & H & _);
    [discriminate|reflexivity|].
  now rewrite H.
Defined.

Section ListHandler.

Variable Atoi : string -> option Z.


End ListHandler.


Section CreateHandler.

Variable ParseRequestURI : string -> option service.ParsedURL.
Variable config : service.URLConfig.
Variable Decode : string -> handler.CreateShortURLRequest + errors.error.

Lemma handler_CreateShortURL_inv body req status resp w w1 :
  Decode body = inl req ->
  handler.CreateShortURL ParseRequestURI config Decode body w
    = (Ok (handler.JSON status (handler.Created resp)), w1) ->
  exists u,
    service.CreateShortURL ParseRequestURI config (handler.URL req)
      (handler.CustomCode req)
      (if handler.TTL req >? 0 then int64.mul (handler.TTL req) handler.Second else 0)
      w = (Ok u, w1) /\
    status = 201 /\
    resp = handler.mkCreateResponse (ID u) (ShortCode u)
             (service.GetFullURL config (ShortCode u))
             (OriginalURL u) (CreatedAt u) (ExpiresAt u).
Proof.
  intros HD. unfold handler.CreateShortURL. rewrite HD.
  destruct (String.eqb (handler.URL req) EmptyString); [discriminate|].
  unfold bind at 1, observe.
  destruct (service.CreateShortURL _ _ _ _ _ w) as [[u|e|reason] w'];
    [| |discriminate].
  - unfold handler.respondJSON, ret. intros [= <- <- <-]. exists u. now repeat split.
  - destruct (handleServiceError_runs e "failed to create short url" w')
      as (x & wx & Hx). run Hx. discriminate.
Qed.

(** Property X26. When POST /api/urls answers with a created record, the
    status is 201, the short URL is the full URL of the code, the record is
    in the table, and a time to live of 1 to 9223372036 is counted in
    seconds: the record expires that many seconds after its creation. A time
    to live of zero or less stands for none: the default applies. *)
Theorem create_handler_ttl_seconds
    (w w1 : World) (body : string) (req : handler.CreateShortURLRequest)
    (status : Z) (resp : handler.CreateShortURLResponse) :
  Decode body = inl req ->
  handler.CreateShortURL ParseRequestURI config Decode body w
    = (Ok (handler.JSON status (handler.Created resp)), w1) ->
  status = 201 /\
  handler.OriginalURL resp = handler.URL req /\
  handler.ShortURL resp = service.GetFullURL config (handler.ShortCode resp) /\
  handler.CreatedAt resp = clock w (ticks w) /\
  (0 < handler.TTL req <= 9223372036 ->
     handler.ExpiresAt resp
       = Some (handler.CreatedAt resp + handler.TTL req * 1000000000)) /\
  (handler.TTL req <= 0 -> 0 < service.DefaultTTL config ->
     handler.ExpiresAt resp
       = Some (handler.CreatedAt resp + service.DefaultTTL config)) /\
  (handler.TTL req <= 0 -> service.DefaultTTL config <= 0 ->
     handler.ExpiresAt resp = None) /\
  stored (mkURL (handler.ID resp) (handler.ShortCode resp) (handler.OriginalURL resp)
                (handler.CreatedAt resp) (handler.ExpiresAt resp) 0 None) w1.
Proof.
  intros HD H. destruct (handler_CreateShortURL_inv _ _ _ _ _ _ HD H)
    as (u & Hrun & -> & ->).
  clear H.
  apply CreateShortURL_Ok_inv in Hrun as (_ & w0 & _ & _ & Hu & _ & Hrows & _).
  cbn [handler.OriginalURL handler.ShortURL handler.ShortCode handler.CreatedAt
       handler.ExpiresAt handler.ID].
  assert (HO : OriginalURL u = handler.URL req) by now rewrite Hu.
  assert (HC : CreatedAt u = clock w (ticks w)) by now rewrite Hu.
  assert (HA : AccessCount u = 0) by now rewrite Hu.
  assert (HL : LastAccessed u = None) by now rewrite Hu.
  assert (HE : ExpiresAt u = _) by (rewrite Hu at 1; cbn [ExpiresAt]; reflexivity).
  clear Hu.
  assert (Hstored : stored (mkURL (ID u) (ShortCode u) (OriginalURL u) (CreatedAt u)
                                  (ExpiresAt u) 0 None) w1).
  { rewrite <- HA, <- HL.
    unfold stored. rewrite Hrows. apply in_or_app. right. left. now destruct u. }
  split; [reflexivity|]. split; [exact HO|]. split; [reflexivity|].
  split; [exact HC|].
  split; [|split; [|split; [|exact Hstored]]];
    rewrite HE, ?HC; rewrite !Z.gtb_ltb; unfold handler.Second, int64.mul.
  - intros Httl. destruct (Z.ltb_spec 0 (handler.TTL req)); [|lia].
    rewrite wrap_small by (unfold int64.in_range, int64.min, int64.max; lia).
    destruct (Z.ltb_spec 0 (handler.TTL req * 1000000000)); [reflexivity|lia].
  - intros Httl Hdef. destruct (Z.ltb_spec 0 (handler.TTL req)); [lia|].
    cbn [Z.ltb Z.compare].
    destruct (Z.ltb_spec 0 (service.DefaultTTL config)); [reflexivity|lia].
  - intros Httl Hdef. destruct (Z.ltb_spec 0 (handler.TTL req)); [lia|].
    cbn [Z.ltb Z.compare].
    destruct (Z.ltb_spec 0 (service.DefaultTTL config)); [lia|reflexivity].
Qed.

(** Property X27. A time to live of 9223372037 to 18446744073 seconds does
    not fit a [time.Duration]: the product with [time.Second] wraps to a
    negative duration, and the record is created as if no time to live had
    been asked for. *)
Theorem create_handler_ttl_overflow
    (w w1 : World) (body : string) (req : handler.CreateShortURLRequest)
    (status : Z) (resp : handler.CreateShortURLResponse) :
  Decode body = inl req ->
  handler.CreateShortURL ParseRequestURI config Decode body w
    = (Ok (handler.JSON status (handler.Created resp)), w1) ->
  9223372037 <= handler.TTL req <= 18446744073 ->
  int64.mul (handler.TTL req) handler.Second < 0 /\
  handler.ExpiresAt resp
    = (if service.DefaultTTL config >? 0
       then Some (handler.CreatedAt resp + service.DefaultTTL config)
       else None).
Proof.
  intros HD H Httl. destruct (handler_CreateShortURL_inv _ _ _ _ _ _ HD H)
    as (u & Hrun & -> & ->).
  clear H.
  apply CreateShortURL_Ok_inv in Hrun as (_ & w0 & _ & _ & Hu & _ & Hrows & _).
  cbn [handler.CreatedAt handler.ExpiresAt].
  assert (HC : CreatedAt u = clock w (ticks w)) by now rewrite Hu.
  assert (HE : ExpiresAt u = _) by (rewrite Hu at 1; cbn [ExpiresAt]; reflexivity).
  clear Hu.
  assert (Hneg : int64.mul (handler.TTL req) handler.Second < 0).
  { unfold int64.mul, int64.wrap, handler.Second.
    replace (handler.TTL req * 1000000000 + 2 ^ 63)
      with ((handler.TTL req * 1000000000 - 2 ^ 63) + 1 * 2 ^ 64) by lia.
    rewrite Z.mod_add by lia. rewrite Z.mod_small by lia. lia. }
  split; [exact Hneg|].
  rewrite HE, HC. rewrite (Z.gtb_ltb (handler.TTL req)).
  destruct (Z.ltb_spec 0 (handler.TTL req)); [|lia].
  rewrite (Z.gtb_ltb (int64.mul _ _)).
  destruct (Z.ltb_spec 0 (int64.mul (handler.TTL req) handler.Second)); [lia|].
  reflexivity.
Qed.

End CreateHandler.

Lemma create_handler_ttl_seconds_witness :
  exists resp,
    fst (handler.CreateShortURL sample_parse sample_config sample_decode
           EmptyString sample_world)
      = Ok (handler.JSON 201 (handler.Created resp)) /\
    handler.ShortURL resp = "http://localhost:8080/summer" /\
    handler.CreatedAt resp = 100 /\
    handler.ExpiresAt resp = Some 60000000100.
Proof.
  eexists. split; [vm_compute; reflexivity|].
  destruct (create_handler_ttl_seconds sample_parse sample_config sample_decode
              sample_world _ EmptyString _ _ _ eq_refl eq_refl)
    as (_ & _ & Hurl & Hcreated & Httl & _).
  split; [exact Hurl|]. split; [exact Hcreated|].
  apply Httl. cbn. lia.
Defined.

Lemma create_handler_ttl_overflow_witness :
  exists resp,
    fst (handler.CreateShortURL sample_parse sample_config sample_decode_long
           EmptyString sample_world)
      = Ok (handler.JSON 201 (handler.Created resp)) /\
    handler.ExpiresAt resp = None.
Proof.
  eexists. split; [vm_compute; reflexivity|].
  destruct (create_handler_ttl_overflow sample_parse sample_config sample_decode_long
              sample_world _ EmptyString _ _ _ eq_refl eq_refl)
    as (_ & Hexp); [cbn; lia|].
  exact Hexp.
Defined.

(** ** The health check *)

(** Property X28. GET /health answers 200, healthy and connected, when
    the ping reaches the server, and 503, unhealthy and disconnected, when it
    fails; the body then carries the message of the driver, wrapped by
    [HealthCheck], and the same text is logged. *)
Theorem health_reports_the_ping (w : World) :
  (answers w 0 ->
     health.Health storage.HealthCheck w
       = (Ok (200, health.mkHealth "healthy" "connected" []), sent w)) /\
  (forall text, pg_fault w (roundtrips w) = Some text ->
     let message := ("database health check failed: " ++ text)%string in
     health.Health storage.HealthCheck w
       = (Ok (503, health.mkHealth "unhealthy" "disconnected"
                     [("database_error", message)]),
          logged (sent w)
            (mkLog LevelError "database health check failed"
                   [AString "error" message]))).
Proof.
  split.
  - intros Hf. unfold health.Health.
    erewrite bind_Ok; cycle 1.
    { apply observe_Ok. unfold storage.HealthCheck, storage.Ping.
      apply wrapf_Ok, roundtrip_Ok, Hf. }
    reflexivity.
  - intros text Hfault message. unfold health.Health.
    erewrite bind_Ok; cycle 1.
    { apply observe_Err. unfold storage.HealthCheck, storage.Ping.
      apply wrapf_Err, roundtrip_Err, Hfault. }
    reflexivity.
Qed.

(** ** The cleanup worker *)

Lemma DeleteExpired_fault w text :
  pg_fault w (roundtrips w) = Some text ->
  repository.DeleteExpired w =
    (Err (errors.Errorf_w "failed to delete expired urls" (errors.Dynamic text)),
     sent (ticked w)).
Proof.
  intros Hfault. unfold repository.DeleteExpired.
  run (eq_refl : time_Now w = (Ok (clock w (ticks w)), ticked w)).
  erewrite bind_Err; [reflexivity|]. apply wrapf_Err.
  erewrite bind_Err; [reflexivity|]. now apply roundtrip_Err.
Qed.

Lemma DeleteExpired_run w :
  answers w 0 ->
  let now := clock w (ticks w) in
  let n := Z.of_nat (List.length (List.filter (pg.expired_before now) (urls w))) in
  let w1 := set_urls (sent (ticked w))
              (List.filter (fun r => negb (pg.expired_before now r)) (urls w)) in
  repository.DeleteExpired w =
    (Ok n, if n >? 0
           then logged w1 (mkLog LevelInfo "expired urls deleted" [AInt "count" n])
           else w1).
Proof.
  intros Hf now n w1. unfold repository.DeleteExpired.
  run (eq_refl : time_Now w = (Ok now, ticked w)).
  assert (Hf' : answers (ticked w) 0) by exact Hf.
  erewrite bind_Ok; cycle 1.
  { apply wrapf_Ok. erewrite bind_Ok by (apply roundtrip_Ok, Hf'). reflexivity. }
  change (urls (sent (ticked w))) with (urls w). fold n.
  destruct (n >? 0); reflexivity.
Qed.

Lemma CleanupExpired_cases w :
  exists w',
    clock w' = clock w /\
    roundtrips w' = S (roundtrips w) /\
    ((exists n, service.CleanupExpired w = (Ok n, w') /\
                urls w' = List.filter
                            (fun r => negb (pg.expired_before (clock w (ticks w)) r))
                            (urls w)) \/
     (exists e, service.CleanupExpired w = (Err e, w') /\ urls w' = urls w)).
Proof.
  unfold service.CleanupExpired.
  destruct (pg_fault w (roundtrips w)) as [text|] eqn:Hfault.
  - exists (sent (ticked w)). split; [reflexivity|]. split; [reflexivity|].
    right. eexists. split; [|reflexivity].
    erewrite bind_Err; [reflexivity|].
    apply wrapf_Err, DeleteExpired_fault, Hfault.
  - assert (Hf : answers w 0) by (unfold answers; now rewrite Nat.add_0_r).
    pose proof (DeleteExpired_run w Hf) as Hrun. cbv zeta in Hrun.
    eexists. split; [|split; [|left; eexists; split]].
    3: { run (wrapf_Ok _ _ _ _ _ Hrun). reflexivity. }
    all: destruct (_ >? 0); reflexivity.
Qed.

Lemma cleanupLoop_safe events : forall w,
  exists w',
    main.cleanupLoop events w = (Ok tt, w') /\
    clock w' = clock w /\
    roundtrips w' = (roundtrips w + sweeps events)%nat /\
    (forall r, stored r w' -> stored r w) /\
    (forall r, stored r w ->
       (forall e, ExpiresAt r = Some e -> forall n, clock w n <= e) ->
       stored r w').
Proof.
  induction events as [|[|] events IH]; intros w; cbn [main.cleanupLoop sweeps].
  - exists w. split; [reflexivity|]. split; [reflexivity|].
    split; [lia|]. split; auto.
  - eexists. split; [reflexivity|]. split; [reflexivity|].
    split; [cbn; lia|]. split; auto.
  - destruct (CleanupExpired_cases w) as (w1 & Hc1 & Hr1 & Hcase).
    assert (Hrows : urls w1 = urls w \/
              urls w1 = List.filter
                          (fun r => negb (pg.expired_before (clock w (ticks w)) r))
                          (urls w)).
    { destruct Hcase as [ (n & _ & Hn) | (e & _ & He) ]; auto. }
    assert (Hclose : forall w2,
              clock w2 = clock w1 -> roundtrips w2 = roundtrips w1 ->
              urls w2 = urls w1 ->
              exists w',
                main.cleanupLoop events w2 = (Ok tt, w') /\
                clock w' = clock w /\
                roundtrips w' = (roundtrips w + S (sweeps events))%nat /\
                (forall r, stored r w' -> stored r w) /\
                (forall r, stored r w ->
                   (forall e, ExpiresAt r = Some e -> forall n, clock w n <= e) ->
                   stored r w')).
    { intros w2 Hc2 Hr2 Hu2.
      destruct (IH w2) as (w' & Hrun & Hc & Hr & Hsub & Hkeep).
      exists w'. split; [exact Hrun|].
      split; [congruence|]. split; [lia|]. rewrite <- Hu2 in Hrows.
      split.
      + intros r Hin. apply Hsub in Hin. unfold stored in *.
        destruct Hrows as [<-|Hrows]; [exact Hin|].
        rewrite Hrows in Hin. now apply filter_In in Hin.
      + intros r Hin Hlive. apply Hkeep.
        * unfold stored in *. destruct Hrows as [-> | ->]; [exact Hin|].
          apply filter_In. split; [exact Hin|].
          apply negb_true_iff, not_true_iff_false. intros Hexp.
          apply expired_before_spec in Hexp as (e & He & Hlt).
          specialize (Hlive e He (ticks w)). lia.
        * intros e He n. rewrite Hc2, Hc1. now apply Hlive. }
    destruct Hcase as [(n & Hrun & _)|(e & Hrun & _)].
    + run (observe_Ok _ _ _ _ Hrun).
      destruct (n >? 0).
      * unfold bind at 1, slog at 1. now apply Hclose.
      * unfold bind at 1, ret at 1. now apply Hclose.
    + run (observe_Err _ _ _ _ Hrun).
      unfold bind at 1, slog at 1. now apply Hclose.
Qed.

(** Property X29. Along any events and whatever the store answers, the
    cleanup worker neither fails nor panics, starts one sweep for each tick
    that arrives before the cancellation, a failed sweep not keeping it from
    the next, adds no row, and keeps every row that has no expiry or whose
    expiry no reading of the clock exceeds. *)
Theorem cleanup_worker_is_safe (events : list main.Event) (w : World) :
  exists w',
    main.startCleanupWorker events w = (Ok tt, w') /\
    roundtrips w' = (roundtrips w + sweeps events)%nat /\
    (forall r, stored r w' -> stored r w) /\
    (forall r, stored r w -> ExpiresAt r = None -> stored r w') /\
    (forall r e, stored r w -> ExpiresAt r = Some e ->
       (forall n, clock w n <= e) -> stored r w').
Proof.
  unfold main.startCleanupWorker, bind at 1, slog at 1.
  set (w0 := logged w _).
  destruct (cleanupLoop_safe events w0) as (w' & Hrun & _ & Hr & Hsub & Hkeep).
  exists w'. split; [exact Hrun|]. split; [exact Hr|]. split; [exact Hsub|].
  split.
  - intros r Hin Hnone. apply Hkeep; [exact Hin|]. intros e He. congruence.
  - intros r e Hin He Hlive. apply Hkeep; [exact Hin|].
    intros e' He' n. assert (e' = e) by congruence. subst. apply Hlive.
Qed.

(** Property X30. An expired link is answered with HTTP 410 as long as its
    row is in the table; the next sweep deletes the row, and the link is
    then answered with HTTP 404. The store is assumed to answer. *)
Theorem swept_link_turns_404 (w : World) (r : URL) (e : Z) :
  store_ok w -> stored r w -> ShortCode r <> EmptyString -> answers w 0 ->
  ExpiresAt r = Some e -> e < clock w (ticks w) ->
  (exists w0,
     handler.RedirectToOriginal (ShortCode r) w
       = (Ok (handler.Refused (handler.mkResponse 410 "url has expired" EmptyString)),
          w0)) /\
  exists n w1,
    service.CleanupExpired w = (Ok n, w1) /\ 0 < n /\
    (answers w1 0 ->
       handler.RedirectToOriginal (ShortCode r) w1
         = (Ok (handler.Refused (handler.mkResponse 404 "url not found" EmptyString)),
            sent w1)).
Proof.
  intros [Hc Hi] Hin Hne Hf He Hlt. split.
  { pose proof (GetOriginalURL_expired w r e Hf (find_has_code _ _ Hc Hin) He Hlt)
      as Hrun.
    unfold handler.RedirectToOriginal. rewrite (eqb_nonempty _ Hne).
    run (observe_Err _ _ _ _ Hrun). eexists. reflexivity. }
  pose proof (DeleteExpired_run w Hf) as Hrun. cbv zeta in Hrun.
  set (now := clock w (ticks w)) in *.
  set (n := Z.of_nat (List.length (List.filter (pg.expired_before now) (urls w)))) in *.
  set (rows := List.filter (fun r => negb (pg.expired_before now r)) (urls w)) in *.
  assert (Hexp : pg.expired_before now r = true)
    by (apply expired_before_spec; eauto).
  assert (Hn : 0 < n).
  { subst n. assert (Hr : In r (List.filter (pg.expired_before now) (urls w)))
      by (apply filter_In; now split).
    destruct (List.filter (pg.expired_before now) (urls w)); [contradiction|].
    cbn [List.length]. lia. }
  eexists n, _. split.
  { unfold service.CleanupExpired. run (wrapf_Ok _ _ _ _ _ Hrun). reflexivity. }
  split; [exact Hn|].
  destruct (Z.gtb_spec n 0); [|lia].
  intros Hf1.
  assert (Hgone : find (pg.has_code (ShortCode r)) rows = None).
  { apply find_absent. intros x Hx. subst rows.
    apply filter_In in Hx as [Hx Hlive].
    unfold pg.has_code. apply String.eqb_neq. intros Hcode.
    assert (x = r); [|subst x; rewrite Hexp in Hlive; discriminate].
    pose proof (find_has_code _ _ Hc Hx) as H1.
    pose proof (find_has_code _ _ Hc Hin) as H2.
    rewrite Hcode in H1. congruence. }
  unfold handler.RedirectToOriginal. rewrite (eqb_nonempty _ Hne).
  erewrite bind_Ok; cycle 1.
  { apply observe_Err. unfold service.GetOriginalURL.
    erewrite bind_Err; [reflexivity|].
    apply GetByShortCode_missing; [exact Hf1|exact Hgone]. }
  reflexivity.
Qed.

Lemma swept_link_turns_404_witness :
  exists n w1,
    service.CleanupExpired sample_world = (Ok n, w1) /\ 0 < n /\
    (answers w1 0 ->
       handler.RedirectToOriginal "promo24" w1
         = (Ok (handler.Refused (handler.mkResponse 404 "url not found" EmptyString)),
            sent w1)).
Proof.
  apply (swept_link_turns_404 sample_world sample_expired 50).
  - exact sample_world_ok.
  - now left.
  - discriminate.
  - reflexivity.
  - reflexivity.
  - cbn. lia.
Defined.
